(** * aws-local-dashboard: the multi-region resource aggregator and its
      dispatcher, the TTL cache and the caching wrappers, the cost derivation,
      the profile manager, the command runner, the CLI executor and the HTTP
      handlers over them, embedded from the Go sources under backend/ and
      verified against the written specification. *)

From Stdlib Require Import ZArith List String Ascii Bool Lia Permutation.
From Stdlib Require Import SpecFloat DecimalString DecimalZ.
From stdpp Require Import base option list gmap strings.
Import ListNotations.

Local Open Scope string_scope.
Local Open Scope list_scope.

(** ** Go's [strings] package, as far as the backend uses it.

    Go strings are byte sequences; [string] is a list of 8-bit characters. *)
Module GoStrings.

(** [c >= utf8.RuneSelf] *)
Definition isRuneSelf (c : ascii) : bool := (128 <=? nat_of_ascii c)%nat.

Fixpoint isASCII (s : string) : bool :=
  match s with
  | EmptyString => true
  | String c s' => negb (isRuneSelf c) && isASCII s'
  end.

Definition isUpper (c : ascii) : bool :=
  (65 <=? nat_of_ascii c)%nat && (nat_of_ascii c <=? 90)%nat.

(** [c += 'a' - 'A'] on the bytes ['A'..'Z'] *)
Definition lowerByte (c : ascii) : ascii :=
  if isUpper c then ascii_of_nat (nat_of_ascii c + 32) else c.

Fixpoint mapBytes (f : ascii -> ascii) (s : string) : string :=
  match s with
  | EmptyString => EmptyString
  | String c s' => String (f c) (mapBytes f s')
  end.

(** [strings.ToLower]: the library lower-cases an all-ASCII string byte by
    byte and sends every other string through [Map(unicode.ToLower, s)].
    The Unicode case tables are not part of this repository, so the second
    branch is the parameter [unicodeLower]. *)
Definition ToLower (unicodeLower : string -> string) (s : string) : string :=
  if isASCII s then mapBytes lowerByte s else unicodeLower s.

(** [strings.HasPrefix(s, prefix)] *)
Fixpoint HasPrefix (s prefix : string) {struct prefix} : bool :=
  match prefix, s with
  | EmptyString, _ => true
  | String _ _, EmptyString => false
  | String p prefix', String c s' => Ascii.eqb c p && HasPrefix s' prefix'
  end.

(** [strings.Contains(s, substr)], that is [Index(s, substr) >= 0]: some
    offset of [s] starts with [substr]. *)
Fixpoint Contains (s substr : string) : bool :=
  HasPrefix s substr ||
  match s with
  | EmptyString => false
  | String _ s' => Contains s' substr
  end.

(** [strings.Join(elems, sep)] *)
Fixpoint Join (elems : list string) (sep : string) : string :=
  match elems with
  | [] => ""
  | [x] => x
  | x :: rest => x +:+ sep +:+ Join rest sep
  end.

(** [strings.TrimPrefix(s, prefix)] *)
Fixpoint dropBytes (n : nat) (s : string) : string :=
  match n, s with
  | O, _ => s
  | S _, EmptyString => EmptyString
  | S n', String _ s' => dropBytes n' s'
  end.

Definition TrimPrefix (s prefix : string) : string :=
  if HasPrefix s prefix then dropBytes (String.length prefix) s else s.

Fixpoint inCutset (c : ascii) (cutset : string) : bool :=
  match cutset with
  | EmptyString => false
  | String d cutset' => Ascii.eqb c d || inCutset c cutset'
  end.

(** [strings.TrimLeft] / [strings.TrimRight] / [strings.Trim] for a cutset
    of ASCII bytes (the backend only trims ["/"]). *)
Fixpoint TrimLeft (s cutset : string) : string :=
  match s with
  | EmptyString => EmptyString
  | String c s' => if inCutset c cutset then TrimLeft s' cutset else s
  end.

Fixpoint TrimRight (s cutset : string) : string :=
  match s with
  | EmptyString => EmptyString
  | String c s' =>
      match TrimRight s' cutset with
      | EmptyString => if inCutset c cutset then EmptyString else String c EmptyString
      | t => String c t
      end
  end.

Definition Trim (s cutset : string) : string :=
  TrimRight (TrimLeft s cutset) cutset.

(** [strings.Split(s, sep)] for a non-empty separator: the pieces between
    the leftmost non-overlapping occurrences of [sep].  [skip] counts the
    bytes of a separator that is being stepped over, [cur] is the piece
    read so far. *)
Fixpoint splitFrom (sep : string) (skip : nat) (cur : string) (s : string)
  : list string :=
  match s with
  | EmptyString => [cur]
  | String c s' =>
      match skip with
      | S k => splitFrom sep k cur s'
      | O =>
          if HasPrefix s sep
          then cur :: splitFrom sep (String.length sep - 1) "" s'
          else splitFrom sep 0 (cur +:+ String c "") s'
      end
  end.

Definition Split (s sep : string) : list string := splitFrom sep 0 "" s.

(** [s] has [sub] at some offset. *)
Definition Substring (sub s : string) : Prop :=
  exists pre post, s = pre +:+ sub +:+ post.

End GoStrings.

Example ToLower_AuthFailure u :
  GoStrings.ToLower u "AuthFailure" = "authfailure".
Proof. reflexivity. Qed.

Example Split_path :
  GoStrings.Split (GoStrings.Trim "/ec2/resources/" "/") "/" = ["ec2"; "resources"].
Proof. reflexivity. Qed.

Example Split_empty : GoStrings.Split "" "/" = [""].
Proof. reflexivity. Qed.

Example Join_two : GoStrings.Join ["a"; "b"; "c"] ", " = "a, b, c".
Proof. reflexivity. Qed.

(** Facts about the string primitives. *)
Module GoStringsFacts.
Import GoStrings.

Lemma HasPrefix_spec (p s : string) :
  HasPrefix s p = true <-> exists post, s = p +:+ post.
Proof.
  revert s. induction p as [|a p IH]; intros s; simpl.
  - split; [intros _; exists s; reflexivity | done].
  - destruct s as [|c s]; simpl.
    + split; [done | intros [post H]; discriminate H].
    + rewrite andb_true_iff, IH, Ascii.eqb_eq. split.
      * intros [-> [post ->]]. by exists post.
      * intros [post H]. injection H as -> ->. split; [done | by exists post].
Qed.

Lemma Contains_spec (sub s : string) :
  Contains s sub = true <-> Substring sub s.
Proof.
  unfold Substring. induction s as [|c s IH].
  - simpl. rewrite orb_false_r, HasPrefix_spec. split.
    + intros [post H]. by exists "", post.
    + intros [[|a pre] [post H]]; [by exists post | discriminate H].
  - cbn [Contains]. rewrite orb_true_iff, HasPrefix_spec, IH. split.
    + intros [[post H] | (pre & post & H)].
      * by exists "", post.
      * exists (String c pre), post. simpl. by rewrite H.
    + intros ([|a pre] & post & H).
      * left. by exists post.
      * right. simpl in H. injection H as -> ->. by exists pre, post.
Qed.

Lemma Contains_false (sub s : string) :
  Contains s sub = false <-> ~ Substring sub s.
Proof.
  rewrite <- Contains_spec. symmetry. apply not_true_iff_false.
Qed.

End GoStringsFacts.

(** ** Errors

    The backend looks at an [error] only through [err != nil] and
    [err.Error()], so a non-nil error is its message and [None] is [nil]. *)
Definition error := string.

(** [main.go] (package awscli, resources): [isAuthError]. *)
Definition isAuthError (unicodeLower : string -> string) (err : option error) : bool :=
  match err with
  | None => false
  | Some e =>
      let msg := GoStrings.ToLower unicodeLower e in
      GoStrings.Contains msg "authfailure" ||
      GoStrings.Contains msg "not able to validate the provided access credentials" ||
      GoStrings.Contains msg "invalidclienttokenid" ||
      GoStrings.Contains msg "could not connect to the endpoint url"
  end.

(** The four phrases the specification lists as skippable. *)
Definition skippablePhrases : list string :=
  [ "authfailure";
    "not able to validate the provided access credentials";
    "invalidclienttokenid";
    "could not connect to the endpoint url" ].

Example isAuthError_AuthFailure u :
  isAuthError u (Some "aws cli error: An error occurred (AuthFailure) when calling") = true.
Proof. reflexivity. Qed.

Example isAuthError_internal u :
  isAuthError u (Some "internal server error") = false.
Proof. reflexivity. Qed.

(** C3. A non-nil error is skippable exactly when its lower-cased message has
    one of the four listed phrases at some offset; every other message is not
    skippable (and so is the nil error). *)
Theorem isAuthError_iff_phrase (unicodeLower : string -> string) (e : error) :
  (isAuthError unicodeLower (Some e) = true <->
     exists phrase, In phrase skippablePhrases /\
       GoStrings.Substring phrase (GoStrings.ToLower unicodeLower e)) /\
  (isAuthError unicodeLower (Some e) = false <->
     forall phrase, In phrase skippablePhrases ->
       ~ GoStrings.Substring phrase (GoStrings.ToLower unicodeLower e)) /\
  isAuthError unicodeLower None = false.
Proof.
  assert (Hiff : isAuthError unicodeLower (Some e) = true <->
     exists phrase, In phrase skippablePhrases /\
       GoStrings.Substring phrase (GoStrings.ToLower unicodeLower e)).
  { unfold isAuthError, skippablePhrases.
    rewrite !orb_true_iff, !GoStringsFacts.Contains_spec. simpl. split.
    - intros [[[H | H] | H] | H]; eexists; (split; [|exact H]); tauto.
    - intros (phrase & Hin & H).
      destruct Hin as [<- | [<- | [<- | [<- | []]]]]; tauto. }
  split; [exact Hiff | split; [| reflexivity]].
  rewrite <- not_true_iff_false, Hiff. split.
  - intros Hno phrase Hin Hsub. apply Hno. by exists phrase.
  - intros Hno (phrase & Hin & Hsub). by apply (Hno phrase).
Qed.

(** ** [float64]

    A [float64] is an IEEE 754 binary64 number: [spec_float] with precision
    53 and maximal exponent 1024, rounding to nearest even. *)
Module F64.

Definition float64 := spec_float.
Definition zero : float64 := S754_zero false.
Definition add : float64 -> float64 -> float64 := SFadd 53 1024.
Definition sub : float64 -> float64 -> float64 := SFsub 53 1024.
Definition neg : float64 -> float64 := SFopp.
(** [math.Abs] *)
Definition Abs : float64 -> float64 := SFabs.
Definition lt : float64 -> float64 -> bool := SFltb.

(** The constant [0.0000001], that is 0x1.ad7f29abcaf48p-24. *)
Definition tenMillionth : float64 := S754_finite false 7555786372591432 (-76).

(** The sum of [l] in order, from [+0]. *)
Definition sum (l : list float64) : float64 := fold_left add l zero.

(** Not negative: the sign bit is clear, or the value is a NaN. *)
Definition nonneg (x : float64) : Prop :=
  match x with
  | S754_zero s | S754_infinity s | S754_finite s _ _ => s = false
  | S754_nan => True
  end.

End F64.

(** ** [internal/types]: the resource records and the shape every resource
    call returns.  Field names carry the record's prefix where two Go structs
    share a field name. *)
Module Types.

Record EC2Instance := {
  ec2_InstanceID : string;
  ec2_Name : string;
  ec2_State : string;
  ec2_InstanceType : string;
  ec2_AvailabilityZone : string;
  ec2_PrivateIP : string;
  ec2_PublicIP : string;
  ec2_Region : string }.

Record VPC := {
  vpc_VpcID : string;
  vpc_Name : string;
  vpc_CIDRBlock : string;
  vpc_State : string;
  vpc_IsDefault : bool;
  vpc_Region : string }.

Record ElasticIP := {
  eip_AllocationID : string;
  eip_PublicIP : string;
  eip_AssociationID : string;
  eip_InstanceID : string;
  eip_NetworkInterfaceID : string;
  eip_Domain : string;
  eip_Region : string }.

Record S3Bucket := {
  s3_Name : string;
  s3_CreationDate : string;
  s3_Region : string }.

Record RekognitionCollection := {
  CollectionID : string;
  FaceModelVersion : string;
  rek_Region : string }.

Record RDSInstance := {
  DBInstanceIdentifier : string;
  rds_Engine : string;
  rds_Status : string;
  DBInstanceClass : string;
  rds_AvailabilityZone : string;
  rds_Endpoint : string;
  rds_Region : string }.

(** [ServiceResources]; [Message] is tagged [omitempty], so the empty string
    is an absent message in the JSON body. *)
Record ServiceResources := {
  Service : string;
  EC2 : list EC2Instance;
  VPCs : list VPC;
  ElasticIPs : list ElasticIP;
  S3Buckets : list S3Bucket;
  RekognitionCollections : list RekognitionCollection;
  RDSInstances : list RDSInstance;
  Message : string }.

(** The zero value [types.ServiceResources{}]. *)
Definition emptyServiceResources : ServiceResources :=
  {| Service := ""; EC2 := []; VPCs := []; ElasticIPs := []; S3Buckets := [];
     RekognitionCollections := []; RDSInstances := []; Message := "" |}.

Record ResourceSummary := {
  sum_Service : string;
  sum_DisplayName : string;
  sum_ResourceType : string;
  sum_Count : nat }.

Record CostOverview := {
  Total : F64.float64;
  NetTotal : F64.float64;
  CreditsApplied : F64.float64;
  Currency : string;
  Start : string;
  End_ : string }.

Record ServiceCost := {
  cost_Service : string;
  cost_DisplayName : string;
  cost_DrilldownKey : string;
  Cost : F64.float64;
  cost_Currency : string }.

End Types.

(** ** [internal/cache]: the TTL cache.

    [time.Time] instants are integers (nanoseconds on the process clock) and
    a [time.Duration] is an integer number of nanoseconds.  Every operation
    runs under the cache's lock, so it is one atomic transition of the store;
    the reading of [time.Now()] inside it is the argument [now]. *)
Module Cache.
Section WithValue.
Context {V : Type}.
(** the zero value of [V] ([var zero V]) *)
Variable zero : V.

Record entry := { value : V; expiresAt : Z }.

Record Cache := { data : gmap string entry; ttl : Z }.

(** [New(ttl)] *)
Definition New (ttl0 : Z) : Cache := {| data := ∅; ttl := ttl0 |}.

(** [t.After(u)] *)
Definition After (t u : Z) : bool := (u <? t)%Z.

(** [Get]: reads the map, never writes it. *)
Definition Get (c : Cache) (now : Z) (key : string) : V * bool :=
  match data c !! key with
  | None => (zero, false)
  | Some e => if After now (expiresAt e) then (zero, false) else (value e, true)
  end.

(** [Set]: [c.data[key] = entry{value, time.Now().Add(c.ttl)}] *)
Definition Set_ (c : Cache) (now : Z) (key : string) (v : V) : Cache :=
  {| data := <[key := {| value := v; expiresAt := (now + ttl c)%Z |}]> (data c);
     ttl := ttl c |}.

(** [Clear]: [c.data = make(map...)] *)
Definition Clear (c : Cache) : Cache := {| data := ∅; ttl := ttl c |}.

(** The three methods as transitions of the store: the store afterwards and
    what the call returns. *)
Inductive op :=
| OpGet (key : string)
| OpSet (key : string) (v : V)
| OpClear.

Definition run (o : op) (now : Z) (c : Cache) : Cache * option (V * bool) :=
  match o with
  | OpGet key => (c, Some (Get c now key))
  | OpSet key v => (Set_ c now key v, None)
  | OpClear => (Clear c, None)
  end.

Lemma Get_Set_fresh (c : Cache) (key : string) (v : V) (tset tget : Z) :
  (tget <= tset + ttl c)%Z -> Get (Set_ c tset key v) tget key = (v, true).
Proof.
  intros H. unfold Get, Set_, After. simpl. rewrite lookup_insert_eq. simpl.
  destruct (Z.ltb_spec (tset + ttl c) tget); [lia | done].
Qed.

Lemma Get_Set_expired (c : Cache) (key : string) (v : V) (tset tget : Z) :
  (tset + ttl c < tget)%Z -> Get (Set_ c tset key v) tget key = (zero, false).
Proof.
  intros H. unfold Get, Set_, After. simpl. rewrite lookup_insert_eq. simpl.
  destruct (Z.ltb_spec (tset + ttl c) tget); [done | lia].
Qed.

Lemma run_keeps_entry (o : op) (now : Z) (c : Cache) (key : string) (e : entry) :
  data c !! key = Some e ->
  data (run o now c).1 !! key = Some e \/
  (exists v, o = OpSet key v) \/ o = OpClear.
Proof.
  intros He. destruct o as [k | k v |]; simpl.
  - by left.
  - destruct (decide (k = key)) as [-> | Hne].
    + right. left. by exists v.
    + left. by rewrite lookup_insert_ne.
  - by right; right.
Qed.

(** C5. A [Get] less than the TTL after [Set(key, value)] returns
    [(value, true)]; a [Get] after the TTL has elapsed returns [(zero, false)]
    with no [Clear] in between; [Get] leaves the store as it was, the expired
    entry included; and an entry leaves the map (or changes) only through a
    [Set] of its key or a [Clear]. *)
Theorem Get_after_Set (c : Cache) (key : string) (v : V) (tset tget : Z) :
  let c' := Set_ c tset key v in
  ((tget - tset < ttl c)%Z -> Get c' tget key = (v, true)) /\
  ((ttl c < tget - tset)%Z -> Get c' tget key = (zero, false)) /\
  (run (OpGet key) tget c' = (c', Some (Get c' tget key)) /\
   data (run (OpGet key) tget c').1 !! key
     = Some {| value := v; expiresAt := (tset + ttl c)%Z |}) /\
  (forall (o : op) (now : Z) (k : string) (e : entry),
     data c' !! k = Some e ->
     data (run o now c').1 !! k <> Some e ->
     (exists v', o = OpSet k v') \/ o = OpClear).
Proof.
  intros c'. repeat split.
  - intros H. apply Get_Set_fresh. lia.
  - intros H. apply Get_Set_expired. lia.
  - subst c'. simpl. by rewrite lookup_insert_eq.
  - intros o now k e He Hgone.
    destruct (run_keeps_entry o now c' k e He) as [Hkeep | Hop]; [done | exact Hop].
Qed.


(** *** Any sequence of calls.

    [replay] performs timestamped calls in order; [lastSet] reads off the
    history what should be in the store for [key]: the value and time of the
    last [Set] of that key made after the last [Clear]. *)
Definition replay (c : Cache) (h : list (Z * op)) : Cache :=
  fold_left (fun c to => (run to.2 to.1 c).1) h c.

Fixpoint lastSet (key : string) (h : list (Z * op)) (acc : option (Z * V))
  : option (Z * V) :=
  match h with
  | [] => acc
  | (t, o) :: h' =>
      lastSet key h'
        match o with
        | OpSet k v => if String.eqb k key then Some (t, v) else acc
        | OpClear => None
        | OpGet _ => acc
        end
  end.

Definition entryOf (ttl0 : Z) (s : Z * V) : entry :=
  {| value := s.2; expiresAt := (s.1 + ttl0)%Z |}.

Lemma replay_lastSet (c : Cache) (h : list (Z * op)) (key : string)
    (acc : option (Z * V)) :
  data c !! key = entryOf (ttl c) <$> acc ->
  data (replay c h) !! key = entryOf (ttl c) <$> lastSet key h acc /\
  ttl (replay c h) = ttl c.
Proof.
  revert c acc. induction h as [|[t o] h IH]; intros c acc Hc; [done|].
  simpl. destruct o as [k | k v |]; simpl.
  - by apply IH.
  - destruct (String.eqb_spec k key) as [-> | Hne].
    + apply (IH (Set_ c t key v) (Some (t, v))). simpl. by rewrite lookup_insert_eq.
    + apply (IH (Set_ c t k v) acc). simpl. by rewrite lookup_insert_ne.
  - apply (IH (Clear c) None). done.
Qed.

(** X7. What a cache that started empty answers after any sequence of
    [Get], [Set] and [Clear] calls: the value of the last [Set] of the key
    made since the last [Clear], as long as the clock is not past that
    [Set]'s time plus the TTL, and [(zero, false)] in every other case.
    Sets of other keys and [Get]s never matter, and the TTL given to [New]
    is the one in force throughout. *)
Theorem Get_after_history (ttl0 : Z) (h : list (Z * op)) (now : Z) (key : string) :
  Get (replay (New ttl0) h) now key =
    match lastSet key h None with
    | Some (tset, v) => if (now <=? tset + ttl0)%Z then (v, true) else (zero, false)
    | None => (zero, false)
    end.
Proof.
  destruct (replay_lastSet (New ttl0) h key None) as [Hd Ht]; [done|].
  unfold Get. rewrite Hd. simpl.
  destruct (lastSet key h None) as [[tset v]|]; [|done]. simpl. unfold After.
  destruct (Z.ltb_spec (tset + ttl0) now), (Z.leb_spec now (tset + ttl0)); done || lia.
Qed.

End WithValue.
End Cache.

Arguments Cache.Cache : clear implicits.
Arguments Cache.entry : clear implicits.
Arguments Cache.op : clear implicits.

(** The cache of the running server: TTL 60 s, a value stored at 10 s is
    served at 69.9 s and at 70 s sharp, and is gone at 70.000000001 s. *)
Example Cache_sixty_seconds :
  let c := Cache.Set_ (Cache.New 60000000000) 10000000000 "k" 7%nat in
  Cache.Get 0%nat c 69900000000 "k" = (7%nat, true) /\
  Cache.Get 0%nat c 70000000000 "k" = (7%nat, true) /\
  Cache.Get 0%nat c 70000000001 "k" = (0%nat, false).
Proof. vm_compute. done. Qed.

(** C5 at the server's settings: TTL 60 s, [Set] at 10 s. *)
Lemma Get_after_Set_witness :
  let c := Cache.Set_ (Cache.New 60000000000) 10000000000 "k" 7%nat in
  Cache.Get 0%nat c 69900000000 "k" = (7%nat, true) /\
  Cache.Get 0%nat c 70000000001 "k" = (0%nat, false).
Proof.
  split.
  - apply (Cache.Get_after_Set 0%nat (Cache.New 60000000000) "k" 7%nat
             10000000000 69900000000). simpl. lia.
  - apply (Cache.Get_after_Set 0%nat (Cache.New 60000000000) "k" 7%nat
             10000000000 70000000001). simpl. lia.
Defined.

(** ** The executor interface and the calls a function makes.

    [Executor.RunJSON(ctx, args...)] is the only way the backend reaches the
    outside.  A computation of the resource and cost services is its value
    together with the argument vectors it handed to [RunJSON], in order. *)
Definition bytes := list Byte.byte.

Definition Exec (A : Type) : Type := (A * list (list string))%type.

#[global] Instance Exec_ret : MRet Exec := fun A a => (a, []).

#[global] Instance Exec_bind : MBind Exec := fun A B k m =>
  let '(a, l1) := m in let '(b, l2) := k a in (b, l1 ++ l2).

(** What a decoder ([json.Unmarshal] into a fixed struct) gives back. *)
Inductive decoded (T : Type) :=
| Decoded (v : T)
| DecodeError (e : error).
Arguments Decoded {T} v.
Arguments DecodeError {T} e.

(** [fmt.Errorf(prefix + ": %w", err)] *)
Definition wrapError (prefix : string) (e : error) : error := prefix +:+ ": " +:+ e.

(** The structs the CLI's JSON output is decoded into. *)
Module Wire.

Record Tag := { Key : string; Value : string }.

Record Instance := {
  InstanceId : string;
  InstanceType : string;
  PrivateIpAddress : string;
  PublicIpAddress : string;
  State_Name : string;
  Placement_AvailabilityZone : string;
  Tags : list Tag }.

Record Reservation := { Instances : list Instance }.

Record ec2DescribeInstancesOutput := { Reservations : list Reservation }.

Record Vpc := {
  VpcId : string;
  CidrBlock : string;
  IsDefault : bool;
  vpc_State : string;
  vpc_Tags : list Tag }.

Record ec2DescribeVpcsOutput := { Vpcs : list Vpc }.

Record Address := {
  AllocationId : string;
  PublicIp : string;
  AssociationId : string;
  addr_InstanceId : string;
  NetworkInterfaceId : string;
  Domain : string }.

Record ec2DescribeAddressesOutput := { Addresses : list Address }.

Record Bucket := { bucket_Name : string; CreationDate : string }.

Record s3ListBucketsOutput := { Buckets : list Bucket }.

Record rekognitionListCollectionsOutput := {
  CollectionIds : list string;
  FaceModelVersions : list string }.

Record DBInstance := {
  db_DBInstanceIdentifier : string;
  db_DBInstanceClass : string;
  Engine : string;
  DBInstanceStatus : string;
  db_AvailabilityZone : string;
  Endpoint_Address : string;
  MultiAZ : bool }.

Record rdsDescribeDBInstancesOutput := { DBInstances : list DBInstance }.

Record RegionEntry := { RegionName : string; OptInStatus : string }.

Record describeRegionsOutput := { Regions : list RegionEntry }.

End Wire.

(** [for _, t := range tags { if t.Key == "Name" { name = t.Value; break } }] *)
Fixpoint nameTag (tags : list Wire.Tag) : string :=
  match tags with
  | [] => ""
  | t :: rest => if String.eqb (Wire.Key t) "Name" then Wire.Value t else nameTag rest
  end.

(** [args := []string{a, b}; if region != "" { args = append(args, "--region", region) }] *)
Definition regionArgs (a b region : string) : list string :=
  if String.eqb region "" then [a; b] else [a; b; "--region"; region].

(** [s[i]] on a slice: [None] is the run-time panic (index out of range). *)
Definition index {A} (l : list A) (i : nat) : option A := l !! i.

(** The projection loop of [getRekognitionCollectionsSingleRegion]:
    [for i, id := range resp.CollectionIDs], with [i] counted from [i0].
    [None] is a panic of the indexing [resp.FaceModelVersions[i]]. *)
Fixpoint projectCollections (i0 : nat) (ids versions : list string) (region : string)
  : option (list Types.RekognitionCollection) :=
  match ids with
  | [] => Some []
  | id :: rest =>
      faceModel ← (if (i0 <? length versions)%nat then index versions i0 else Some "");
      tail ← projectCollections (S i0) rest versions region;
      Some ({| Types.CollectionID := id;
               Types.FaceModelVersion := faceModel;
               Types.rek_Region := region |} :: tail)
  end.

(** ** Package awscli: the resource service.

    The section's variables are what the package takes from outside the
    repository: the executor behind the [Executor] interface, the JSON
    decoders of [encoding/json] for each output struct, and the Unicode
    branches of [strings.ToLower] and [strings.EqualFold]. *)
Section ResourceService.

Variable unicodeLower : string -> string.
Variable unicodeEqualFold : string -> string -> bool.
Variable RunJSON : list string -> bytes * option error.
Variable unmarshalInstances : bytes -> decoded Wire.ec2DescribeInstancesOutput.
Variable unmarshalVpcs : bytes -> decoded Wire.ec2DescribeVpcsOutput.
Variable unmarshalAddresses : bytes -> decoded Wire.ec2DescribeAddressesOutput.
Variable unmarshalBuckets : bytes -> decoded Wire.s3ListBucketsOutput.
Variable unmarshalCollections : bytes -> decoded Wire.rekognitionListCollectionsOutput.
Variable unmarshalDBInstances : bytes -> decoded Wire.rdsDescribeDBInstancesOutput.
Variable unmarshalRegions : bytes -> decoded Wire.describeRegionsOutput.

(** [strings.EqualFold]: byte-wise on ASCII strings. *)
Definition EqualFold (s t : string) : bool :=
  if GoStrings.isASCII s && GoStrings.isASCII t
  then String.eqb (GoStrings.mapBytes GoStrings.lowerByte s)
                  (GoStrings.mapBytes GoStrings.lowerByte t)
  else unicodeEqualFold s t.

(** [s.exec.RunJSON(ctx, args...)] *)
Definition call (args : list string) : Exec (bytes * option error) :=
  (RunJSON args, [args]).

(** What every method of the service returns: [(types.ServiceResources, error)]. *)
Definition outcome : Type := (Types.ServiceResources * option error)%type.

Definition fail (e : error) : outcome := (Types.emptyServiceResources, Some e).

(** [instRegion]: the requested region, or the zone without its last byte. *)
Definition instRegion (region az : string) : string :=
  if String.eqb region "" && negb (String.eqb az "")
  then (if (1 <? String.length az)%nat
        then String.substring 0 (String.length az - 1) az else region)
  else region.

Definition projectInstance (region : string) (inst : Wire.Instance) : Types.EC2Instance :=
  {| Types.ec2_InstanceID := Wire.InstanceId inst;
     Types.ec2_Name := nameTag (Wire.Tags inst);
     Types.ec2_State := Wire.State_Name inst;
     Types.ec2_InstanceType := Wire.InstanceType inst;
     Types.ec2_AvailabilityZone := Wire.Placement_AvailabilityZone inst;
     Types.ec2_PrivateIP := Wire.PrivateIpAddress inst;
     Types.ec2_PublicIP := Wire.PublicIpAddress inst;
     Types.ec2_Region := instRegion region (Wire.Placement_AvailabilityZone inst) |}.

Definition withEC2 (all : list Types.EC2Instance) (msg : string) : Types.ServiceResources :=
  {| Types.Service := "ec2"; Types.EC2 := all; Types.VPCs := [];
     Types.ElasticIPs := []; Types.S3Buckets := [];
     Types.RekognitionCollections := []; Types.RDSInstances := [];
     Types.Message := msg |}.

Definition getEC2InstancesSingleRegion (region : string) : Exec outcome :=
  '(out, err) ← call (regionArgs "ec2" "describe-instances" region);
  match err with
  | Some e => mret (fail e)
  | None =>
      match unmarshalInstances out with
      | DecodeError e => mret (fail (wrapError "failed to parse describe-instances output" e))
      | Decoded resp =>
          mret (withEC2 (flat_map (fun r => map (projectInstance region) (Wire.Instances r))
                                  (Wire.Reservations resp)) "", None)
      end
  end.

Definition projectVpc (region : string) (v : Wire.Vpc) : Types.VPC :=
  {| Types.vpc_VpcID := Wire.VpcId v;
     Types.vpc_Name := nameTag (Wire.vpc_Tags v);
     Types.vpc_CIDRBlock := Wire.CidrBlock v;
     Types.vpc_State := Wire.vpc_State v;
     Types.vpc_IsDefault := Wire.IsDefault v;
     Types.vpc_Region := region |}.

Definition withVPCs (all : list Types.VPC) (msg : string) : Types.ServiceResources :=
  {| Types.Service := "vpc"; Types.EC2 := []; Types.VPCs := all;
     Types.ElasticIPs := []; Types.S3Buckets := [];
     Types.RekognitionCollections := []; Types.RDSInstances := [];
     Types.Message := msg |}.

Definition getVPCsSingleRegion (region : string) : Exec outcome :=
  '(out, err) ← call (regionArgs "ec2" "describe-vpcs" region);
  match err with
  | Some e => mret (fail e)
  | None =>
      match unmarshalVpcs out with
      | DecodeError e => mret (fail (wrapError "failed to parse describe-vpcs output" e))
      | Decoded resp => mret (withVPCs (map (projectVpc region) (Wire.Vpcs resp)) "", None)
      end
  end.

Definition projectAddress (region : string) (a : Wire.Address) : Types.ElasticIP :=
  {| Types.eip_AllocationID := Wire.AllocationId a;
     Types.eip_PublicIP := Wire.PublicIp a;
     Types.eip_AssociationID := Wire.AssociationId a;
     Types.eip_InstanceID := Wire.addr_InstanceId a;
     Types.eip_NetworkInterfaceID := Wire.NetworkInterfaceId a;
     Types.eip_Domain := Wire.Domain a;
     Types.eip_Region := region |}.

Definition withElasticIPs (all : list Types.ElasticIP) (msg : string) : Types.ServiceResources :=
  {| Types.Service := "eip"; Types.EC2 := []; Types.VPCs := [];
     Types.ElasticIPs := all; Types.S3Buckets := [];
     Types.RekognitionCollections := []; Types.RDSInstances := [];
     Types.Message := msg |}.

Definition getElasticIPsSingleRegion (region : string) : Exec outcome :=
  '(out, err) ← call (regionArgs "ec2" "describe-addresses" region);
  match err with
  | Some e => mret (fail e)
  | None =>
      match unmarshalAddresses out with
      | DecodeError e => mret (fail (wrapError "failed to parse describe-addresses output" e))
      | Decoded resp =>
          mret (withElasticIPs (map (projectAddress region) (Wire.Addresses resp)) "", None)
      end
  end.

Definition projectBucket (b : Wire.Bucket) : Types.S3Bucket :=
  {| Types.s3_Name := Wire.bucket_Name b;
     Types.s3_CreationDate := Wire.CreationDate b;
     Types.s3_Region := "" |}.

Definition withS3Buckets (all : list Types.S3Bucket) (msg : string) : Types.ServiceResources :=
  {| Types.Service := "s3"; Types.EC2 := []; Types.VPCs := [];
     Types.ElasticIPs := []; Types.S3Buckets := all;
     Types.RekognitionCollections := []; Types.RDSInstances := [];
     Types.Message := msg |}.

(** [getS3Buckets] takes no region. *)
Definition getS3Buckets : Exec outcome :=
  '(out, err) ← call ["s3api"; "list-buckets"];
  match err with
  | Some e => mret (fail e)
  | None =>
      match unmarshalBuckets out with
      | DecodeError e => mret (fail (wrapError "failed to parse list-buckets output" e))
      | Decoded resp => mret (withS3Buckets (map projectBucket (Wire.Buckets resp)) "", None)
      end
  end.

Definition withCollections (all : list Types.RekognitionCollection) (msg : string)
  : Types.ServiceResources :=
  {| Types.Service := "rekognition"; Types.EC2 := []; Types.VPCs := [];
     Types.ElasticIPs := []; Types.S3Buckets := [];
     Types.RekognitionCollections := all; Types.RDSInstances := [];
     Types.Message := msg |}.

(** [getRekognitionCollectionsSingleRegion]; the outer [None] is a panic of
    the projection loop. *)
Definition getRekognitionCollectionsSingleRegion (region : string) : option (Exec outcome) :=
  let '((out, err), log) := call (regionArgs "rekognition" "list-collections" region) in
  match err with
  | Some e => Some (fail e, log)
  | None =>
      match unmarshalCollections out with
      | DecodeError e =>
          Some (fail (wrapError "failed to parse list-collections output" e), log)
      | Decoded resp =>
          collections ← projectCollections 0 (Wire.CollectionIds resp)
                                             (Wire.FaceModelVersions resp) region;
          Some ((withCollections collections "", None), log)
      end
  end.

Definition projectDB (region : string) (db : Wire.DBInstance) : Types.RDSInstance :=
  {| Types.DBInstanceIdentifier := Wire.db_DBInstanceIdentifier db;
     Types.rds_Engine := Wire.Engine db;
     Types.rds_Status := Wire.DBInstanceStatus db;
     Types.DBInstanceClass := Wire.db_DBInstanceClass db;
     Types.rds_AvailabilityZone := Wire.db_AvailabilityZone db;
     Types.rds_Endpoint := Wire.Endpoint_Address db;
     Types.rds_Region := region |}.

Definition withRDSInstances (all : list Types.RDSInstance) (msg : string) : Types.ServiceResources :=
  {| Types.Service := "rds"; Types.EC2 := []; Types.VPCs := [];
     Types.ElasticIPs := []; Types.S3Buckets := [];
     Types.RekognitionCollections := []; Types.RDSInstances := all;
     Types.Message := msg |}.

Definition getRDSInstancesSingleRegion (region : string) : Exec outcome :=
  '(out, err) ← call (regionArgs "rds" "describe-db-instances" region);
  match err with
  | Some e => mret (fail e)
  | None =>
      match unmarshalDBInstances out with
      | DecodeError e => mret (fail (wrapError "failed to parse describe-db-instances output" e))
      | Decoded resp => mret (withRDSInstances (map (projectDB region) (Wire.DBInstances resp)) "", None)
      end
  end.

(** [listRegions]: the names of the regions that are named and opted in. *)
Definition usableRegion (r : Wire.RegionEntry) : bool :=
  negb (String.eqb (Wire.RegionName r) "") &&
  negb (EqualFold (Wire.OptInStatus r) "not-opted-in").

Definition listRegions : Exec (list string * option error) :=
  '(out, err) ← call ["ec2"; "describe-regions"; "--all-regions"];
  match err with
  | Some e => mret ([], Some e)
  | None =>
      match unmarshalRegions out with
      | DecodeError e => mret ([], Some (wrapError "failed to parse describe-regions output" e))
      | Decoded payload =>
          mret (map Wire.RegionName (List.filter usableRegion (Wire.Regions payload)), None)
      end
  end.

(** *** The all-regions aggregation.

    The five [get...AllRegions] methods are one program up to the record type:
    [single] is the kind's single-region method, [records] the field of its
    result the worker forwards ([res.EC2], [res.VPCs], ...), [build] the
    struct literal the method returns.

    The method is concurrent.  Its goroutines are the threads of a
    transition system whose state holds what they share: the semaphore
    channel [sem], the buffered channel [resultsCh], the wait group [wg];
    a schedule picks the goroutine that takes the next step. *)
Section Aggregator.

Variable Rec : Type.
Variable single : string -> Exec outcome.
Variable records : Types.ServiceResources -> list Rec.
Variable build : list Rec -> string -> Types.ServiceResources.

(** [const maxConcurrent = 5] *)
Definition maxConcurrent : nat := 5.

(** [type result struct { region string; <records> []T; err error }] *)
Record result := { region : string; items : list Rec; err : option error }.

(** Where a worker goroutine [go func(region string) {...}(rgn)] stands. *)
Inductive WorkerPc :=
| WSpawned                      (* before [sem <- struct{}{}] *)
| WHolding                      (* holds a slot, the call not yet started *)
| WInFlight                     (* inside the single-region executor call *)
| WReturned (res : outcome)     (* the call is back, nothing sent yet *)
| WSent                         (* result sent on [resultsCh] *)
| WReleased                     (* deferred [<-sem] done *)
| WDone.                        (* deferred [wg.Done()] done *)

(** Where the calling goroutine stands. *)
Inductive MainPc :=
| MSpawn (rest : list string)                        (* the [for _, rgn := range regions] loop *)
| MCollect (all : list Rec) (skipped : list string)  (* the [for r := range resultsCh] loop *)
| MReturned (out : outcome).

(** The goroutine [go func() { wg.Wait(); close(resultsCh) }()]. *)
Inductive CloserPc := CNotStarted | CWaiting | CClosed.

Record State := {
  main : MainPc;
  workers : list (string * WorkerPc);
  sem : nat;                   (* len(sem) *)
  resultsCh : list result;     (* the buffered values, oldest first *)
  cap : nat;                   (* cap(resultsCh) = len(regions) *)
  closed : bool;
  wg : nat;
  closer : CloserPc;
  calls : list (list string) }.

Inductive thread := TMain | TWorker (i : nat) | TCloser.

Definition init (regions : list string) : State :=
  {| main := MSpawn regions; workers := []; sem := 0; resultsCh := [];
     cap := length regions; closed := false; wg := 0; closer := CNotStarted;
     calls := [] |}.

(** What the worker sends: [result{region, err}] or [result{region, records}]. *)
Definition mkResult (rgn : string) (res : outcome) : result :=
  match res.2 with
  | Some e => {| region := rgn; items := []; err := Some e |}
  | None => {| region := rgn; items := records res.1; err := None |}
  end.

(** The statements after the collecting loop. *)
Definition finish (all : list Rec) (skipped : list string) : outcome :=
  let msg :=
    if (0 <? length skipped)%nat
    then "Skipped regions due to authentication errors: " +:+ GoStrings.Join skipped ", "
    else "" in
  (build all msg, None).

(** One iteration of [for r := range resultsCh] on the received [r]. *)
Definition consume (all : list Rec) (skipped : list string) (r : result) : MainPc :=
  match err r with
  | Some e =>
      if isAuthError unicodeLower (Some e)
      then MCollect all (skipped ++ [region r])
      else MReturned (fail e)
  | None => MCollect (all ++ items r) skipped
  end.

Definition setWorker (s : State) (i : nat) (rgn : string) (pc : WorkerPc) : State :=
  {| main := main s; workers := <[i := (rgn, pc)]> (workers s); sem := sem s;
     resultsCh := resultsCh s; cap := cap s; closed := closed s; wg := wg s;
     closer := closer s; calls := calls s |}.

Definition stepWorker (i : nat) (s : State) : option State :=
  '(rgn, pc) ← workers s !! i;
  match pc with
  | WSpawned =>
      (* sem <- struct{}{} : blocks while the channel is full *)
      if (sem s <? maxConcurrent)%nat
      then Some {| main := main s; workers := <[i := (rgn, WHolding)]> (workers s);
                   sem := S (sem s); resultsCh := resultsCh s; cap := cap s;
                   closed := closed s; wg := wg s; closer := closer s;
                   calls := calls s |}
      else None
  | WHolding =>
      (* the call starts: RunJSON is invoked *)
      Some {| main := main s; workers := <[i := (rgn, WInFlight)]> (workers s);
              sem := sem s; resultsCh := resultsCh s; cap := cap s;
              closed := closed s; wg := wg s; closer := closer s;
              calls := calls s ++ (single rgn).2 |}
  | WInFlight =>
      (* the call returns *)
      Some (setWorker s i rgn (WReturned (single rgn).1))
  | WReturned res =>
      (* resultsCh <- result{...} : blocks while the buffer is full, panics
         on a closed channel *)
      if closed s then None
      else if (length (resultsCh s) <? cap s)%nat
      then Some {| main := main s; workers := <[i := (rgn, WSent)]> (workers s);
                   sem := sem s; resultsCh := resultsCh s ++ [mkResult rgn res];
                   cap := cap s; closed := closed s; wg := wg s;
                   closer := closer s; calls := calls s |}
      else None
  | WSent =>
      (* <-sem *)
      match sem s with
      | O => None
      | S n => Some {| main := main s; workers := <[i := (rgn, WReleased)]> (workers s);
                       sem := n; resultsCh := resultsCh s; cap := cap s;
                       closed := closed s; wg := wg s; closer := closer s;
                       calls := calls s |}
      end
  | WReleased =>
      (* wg.Done() *)
      match wg s with
      | O => None
      | S n => Some {| main := main s; workers := <[i := (rgn, WDone)]> (workers s);
                       sem := sem s; resultsCh := resultsCh s; cap := cap s;
                       closed := closed s; wg := n; closer := closer s;
                       calls := calls s |}
      end
  | WDone => None
  end.

Definition setMain (s : State) (m : MainPc) (q : list result) : State :=
  {| main := m; workers := workers s; sem := sem s; resultsCh := q; cap := cap s;
     closed := closed s; wg := wg s; closer := closer s; calls := calls s |}.

Definition stepMain (s : State) : option State :=
  match main s with
  | MSpawn (rgn :: rest) =>
      (* wg.Add(1); go func(region string) {...}(rgn) *)
      Some {| main := MSpawn rest; workers := workers s ++ [(rgn, WSpawned)];
              sem := sem s; resultsCh := resultsCh s; cap := cap s;
              closed := closed s; wg := S (wg s); closer := closer s;
              calls := calls s |}
  | MSpawn [] =>
      (* go func() { wg.Wait(); close(resultsCh) }(); var all, skipped *)
      Some {| main := MCollect [] []; workers := workers s; sem := sem s;
              resultsCh := resultsCh s; cap := cap s; closed := closed s;
              wg := wg s; closer := CWaiting; calls := calls s |}
  | MCollect all skipped =>
      match resultsCh s with
      | r :: q => Some (setMain s (consume all skipped r) q)
      | [] => if closed s then Some (setMain s (MReturned (finish all skipped)) [])
              else None
      end
  | MReturned _ => None
  end.

Definition stepCloser (s : State) : option State :=
  match closer s with
  | CWaiting =>
      (* wg.Wait() returns when the counter is zero; close(resultsCh) *)
      if (wg s =? 0)%nat
      then Some {| main := main s; workers := workers s; sem := sem s;
                   resultsCh := resultsCh s; cap := cap s; closed := true;
                   wg := wg s; closer := CClosed; calls := calls s |}
      else None
  | _ => None
  end.

Definition step (t : thread) (s : State) : option State :=
  match t with
  | TMain => stepMain s
  | TWorker i => stepWorker i s
  | TCloser => stepCloser s
  end.

(** A schedule names the goroutine to run next; a goroutine that is blocked
    when it is named does not move. *)
Definition exec1 (s : State) (t : thread) : State := default s (step t s).

Definition run (sched : list thread) (s : State) : State := fold_left exec1 sched s.

(** What the method has returned, if it has. *)
Definition returned (s : State) : option outcome :=
  match main s with MReturned out => Some out | _ => None end.

(** The executor calls that are running in state [s]. *)
Definition inFlightPc (pc : WorkerPc) : bool :=
  match pc with WInFlight => true | _ => false end.

(** [weigh f ws]: the sum of [f] over the workers' positions; with a 0/1
    weight it counts the workers at the positions a predicate picks. *)
Definition weigh (f : WorkerPc -> nat) (ws : list (string * WorkerPc)) : nat :=
  sum_list_with (fun w => f w.2) ws.

Definition countPc (p : WorkerPc -> bool) : list (string * WorkerPc) -> nat :=
  weigh (fun pc => if p pc then 1 else 0)%nat.

Definition inFlight (s : State) : nat := countPc inFlightPc (workers s).

(** The whole method under a schedule: [listRegions] first, then the
    goroutines.  The value is what the method returned by the end of the
    schedule ([None]: it is still collecting), with the calls made so far. *)
Definition allRegions (sched : list thread) : Exec (option outcome) :=
  '(regions, err) ← listRegions;
  match err with
  | Some e => mret (Some (fail e))
  | None => let s := run sched (init regions) in (returned s, calls s)
  end.

(** **** Invariants of the transition system. *)

(** The worker holds a slot of [sem]. *)
Definition holdsSlot (pc : WorkerPc) : bool :=
  match pc with WHolding | WInFlight | WReturned _ | WSent => true | _ => false end.

Definition notDone (pc : WorkerPc) : bool :=
  match pc with WDone => false | _ => true end.

(** The worker has not sent its result yet. *)
Definition unsent (pc : WorkerPc) : bool :=
  match pc with WSpawned | WHolding | WInFlight | WReturned _ => true | _ => false end.

(** The worker is past the semaphore and not finished. *)
Definition active (pc : WorkerPc) : bool :=
  match pc with WSpawned | WDone => false | _ => true end.

(** What the worker of region [rgn] sends. *)
Definition resultOf (rgn : string) : result := mkResult rgn (single rgn).1.

Definition pending (ws : list (string * WorkerPc)) : list result :=
  flat_map (fun w => if unsent w.2 then [resultOf w.1] else []) ws.

(** The collecting loop run over the values [rs] in turn. *)
Fixpoint collect (all : list Rec) (skipped : list string) (rs : list result) : MainPc :=
  match rs with
  | [] => MCollect all skipped
  | r :: rs' =>
      match consume all skipped r with
      | MCollect all' skipped' => collect all' skipped' rs'
      | m => m
      end
  end.

(** How a returned value came about: from the first failure that is not
    skippable among the values received, or from all the values. *)
Definition explains (regions : list string) (out : outcome) : Prop :=
  exists recvd rest,
    Permutation (recvd ++ rest) (resultOf <$> regions) /\
    ((exists pre r e, recvd = pre ++ [r] /\ err r = Some e /\
        isAuthError unicodeLower (Some e) = false /\
        (exists all skipped, collect [] [] pre = MCollect all skipped) /\
        out = fail e) \/
     (rest = [] /\ exists all skipped,
        collect [] [] recvd = MCollect all skipped /\ out = finish all skipped)).

Definition flowsTo (s : State) (recvd : list result) : Prop :=
  Permutation (recvd ++ resultsCh s ++ pending (workers s))
              (resultOf <$> (workers s).*1).

Record Inv (regions : list string) (s : State) : Prop := {
  inv_sem : sem s = countPc holdsSlot (workers s);
  inv_max : sem s <= maxConcurrent;
  inv_wg : wg s = countPc notDone (workers s);
  inv_ret : Forall (fun w => forall res, w.2 = WReturned res -> res = (single w.1).1)
                   (workers s);
  inv_cap : cap s = length regions;
  inv_closed : closed s = true <-> closer s = CClosed;
  inv_closer : closer s = CClosed -> wg s = 0;
  inv_main :
    match main s with
    | MSpawn rest =>
        (workers s).*1 ++ rest = regions /\ closer s = CNotStarted /\ flowsTo s []
    | MCollect all skipped =>
        (workers s).*1 = regions /\ closer s <> CNotStarted /\
        exists recvd, flowsTo s recvd /\ collect [] [] recvd = MCollect all skipped
    | MReturned out =>
        (workers s).*1 = regions /\ closer s <> CNotStarted /\ explains regions out /\
        (out.2 = None -> closed s = true)
    end }.

(** The steps still ahead of a worker (a send also fills a place of the
    channel, hence the gap between [WReturned] and [WSent]). *)
Definition workerRem (pc : WorkerPc) : nat :=
  match pc with
  | WSpawned => 7 | WHolding => 6 | WInFlight => 5 | WReturned _ => 4
  | WSent => 2 | WReleased => 1 | WDone => 0
  end.

Definition measure (s : State) : nat :=
  weigh workerRem (workers s) + length (resultsCh s) +
  match closer s with CClosed => 0 | _ => 1 end +
  match main s with
  | MSpawn rest => 3 + 8 * length rest
  | MCollect _ _ => 1
  | MReturned _ => 0
  end.

(** The single-region call for [rgn] fails. *)
Definition failed (rgn : string) : bool :=
  match (single rgn).1.2 with Some _ => true | None => false end.

Definition succeeded (rgn : string) : bool := negb (failed rgn).

(** Every failure among [regions] is of the skippable class. *)
Definition onlySkippable (regions : list string) : Prop :=
  forall rgn e, rgn ∈ regions -> (single rgn).1.2 = Some e ->
    isAuthError unicodeLower (Some e) = true.

(** **** Counting workers. *)

Lemma weigh_app (f : WorkerPc -> nat) (ws ws' : list (string * WorkerPc)) :
  weigh f (ws ++ ws') = weigh f ws + weigh f ws'.
Proof. unfold weigh. by rewrite sum_list_with_app. Qed.

Lemma weigh_insert (f : WorkerPc -> nat) (ws : list (string * WorkerPc))
    (i : nat) (rgn rgn' : string) (pc pc' : WorkerPc) :
  ws !! i = Some (rgn, pc) ->
  weigh f (<[i := (rgn', pc')]> ws) + f pc = weigh f ws + f pc'.
Proof.
  unfold weigh. revert i. induction ws as [|w ws IH]; intros [|i] H; simpl in *;
    try discriminate.
  - injection H as ->. simpl. lia.
  - specialize (IH i H). lia.
Qed.

Lemma weigh_pos_lookup (f : WorkerPc -> nat) (ws : list (string * WorkerPc)) :
  0 < weigh f ws -> exists i rgn pc, ws !! i = Some (rgn, pc) /\ 0 < f pc.
Proof.
  unfold weigh. induction ws as [|[rgn pc] ws IH]; simpl; [lia|]. intros H.
  destruct (f pc) as [|n] eqn:Hf.
  - destruct IH as (i & r & p & Hi & Hp); [lia|]. by exists (S i), r, p.
  - exists 0, rgn, pc. split; [done | lia].
Qed.

Lemma weigh_zero_lookup (f : WorkerPc -> nat) (ws : list (string * WorkerPc))
    (i : nat) (rgn : string) (pc : WorkerPc) :
  weigh f ws = 0 -> ws !! i = Some (rgn, pc) -> f pc = 0.
Proof.
  unfold weigh. revert i. induction ws as [|w ws IH]; intros [|i] H0 H; simpl in *;
    try discriminate.
  - injection H as ->. simpl in H0. lia.
  - apply (IH i); [lia | done].
Qed.

Lemma weigh_le (f g : WorkerPc -> nat) (ws : list (string * WorkerPc)) :
  (forall pc, f pc <= g pc) -> weigh f ws <= weigh g ws.
Proof.
  intros Hfg. unfold weigh. induction ws as [|w ws IH]; simpl; [lia|].
  specialize (Hfg w.2). lia.
Qed.

Lemma fst_insert (ws : list (string * WorkerPc)) (i : nat) (rgn : string) (pc pc' : WorkerPc) :
  ws !! i = Some (rgn, pc) -> (<[i := (rgn, pc')]> ws).*1 = ws.*1.
Proof.
  revert i. induction ws as [|w ws IH]; intros [|i] H; simpl in *; try discriminate.
  - by injection H as ->.
  - f_equal. by apply IH.
Qed.

(** **** The results still to be sent. *)

Lemma pending_app (ws ws' : list (string * WorkerPc)) :
  pending (ws ++ ws') = pending ws ++ pending ws'.
Proof. unfold pending. by rewrite flat_map_app. Qed.

Lemma pending_insert_same (ws : list (string * WorkerPc)) (i : nat) (rgn : string)
    (pc pc' : WorkerPc) :
  ws !! i = Some (rgn, pc) -> unsent pc = unsent pc' ->
  pending (<[i := (rgn, pc')]> ws) = pending ws.
Proof.
  unfold pending. revert i. induction ws as [|w ws IH]; intros [|i] H Hu; simpl in *;
    try discriminate.
  - injection H as ->. simpl. by rewrite Hu.
  - f_equal. by apply IH.
Qed.

Lemma pending_insert_sent (ws : list (string * WorkerPc)) (i : nat) (rgn : string)
    (pc pc' : WorkerPc) :
  ws !! i = Some (rgn, pc) -> unsent pc = true -> unsent pc' = false ->
  Permutation (pending ws) (resultOf rgn :: pending (<[i := (rgn, pc')]> ws)).
Proof.
  unfold pending. revert i. induction ws as [|w ws IH]; intros [|i] H Hu Hu'; simpl in *;
    try discriminate.
  - injection H as ->. simpl. by rewrite Hu, Hu'.
  - rewrite (IH i H Hu Hu'). simpl. by rewrite Permutation_middle.
Qed.

Lemma pending_nil_done (ws : list (string * WorkerPc)) :
  countPc notDone ws = 0 -> pending ws = [].
Proof.
  unfold countPc, weigh, pending. induction ws as [|[rgn pc] ws IH]; simpl; [done|].
  destruct pc; simpl; try lia. intros H. by apply IH.
Qed.

Lemma pending_length (ws : list (string * WorkerPc)) :
  length (pending ws) = countPc unsent ws.
Proof.
  unfold countPc, weigh, pending. induction ws as [|[rgn pc] ws IH]; simpl; [done|].
  rewrite length_app, IH. by destruct (unsent pc).
Qed.

(** **** The collecting loop as a fold. *)

Lemma collect_snoc (all : list Rec) (skipped : list string) (rs : list result) (r : result) :
  collect all skipped (rs ++ [r]) =
  match collect all skipped rs with
  | MCollect all' skipped' => consume all' skipped' r
  | m => m
  end.
Proof.
  revert all skipped. induction rs as [|x rs IH]; intros all skipped; simpl.
  - by destruct (consume all skipped r).
  - destruct (consume all skipped x) eqn:Hc; try done.
Qed.

Lemma consume_not_spawn (all : list Rec) (skipped : list string) (r : result) (rest : list string) :
  consume all skipped r <> MSpawn rest.
Proof.
  unfold consume. destruct (err r); [destruct (isAuthError _ _)|]; discriminate.
Qed.

(** **** Every step keeps the invariant. *)

Lemma init_Inv (regions : list string) : Inv regions (init regions).
Proof.
  constructor; simpl; try done.
  - unfold maxConcurrent. lia.
  - split; [done | split; [done|]]. unfold flowsTo. simpl. done.
Qed.

Lemma flowsTo_insert_same (s : State) (recvd : list result) (i : nat) (rgn : string)
    (pc pc' : WorkerPc) (s' : State) :
  workers s !! i = Some (rgn, pc) ->
  workers s' = <[i := (rgn, pc')]> (workers s) -> resultsCh s' = resultsCh s ->
  unsent pc = unsent pc' ->
  flowsTo s recvd -> flowsTo s' recvd.
Proof.
  unfold flowsTo. intros Hi -> -> Hu.
  by rewrite (pending_insert_same _ _ _ _ _ Hi Hu), (fst_insert _ _ _ _ _ Hi).
Qed.

Lemma flowsTo_insert_sent (s : State) (recvd : list result) (i : nat) (rgn : string)
    (pc pc' : WorkerPc) (s' : State) :
  workers s !! i = Some (rgn, pc) ->
  workers s' = <[i := (rgn, pc')]> (workers s) ->
  resultsCh s' = resultsCh s ++ [resultOf rgn] ->
  unsent pc = true -> unsent pc' = false ->
  flowsTo s recvd -> flowsTo s' recvd.
Proof.
  unfold flowsTo. intros Hi -> -> Hu Hu' H.
  rewrite (fst_insert _ _ _ _ _ Hi), <- H.
  rewrite (pending_insert_sent _ _ _ _ _ Hi Hu Hu').
  apply Permutation_app_head. rewrite <- app_assoc. by apply Permutation_app_head.
Qed.

Lemma stepWorker_Inv (regions : list string) (i : nat) (s s' : State) :
  Inv regions s -> stepWorker i s = Some s' -> Inv regions s'.
Proof.
  intros [Hsem Hmax Hwg Hret Hcap Hclosed Hcloser Hmain] H.
  unfold stepWorker in H.
  destruct (workers s !! i) as [[rgn pc]|] eqn:Hi; simpl in H; [|done].
  assert (Hres : forall res, pc = WReturned res -> res = (single rgn).1).
  { intros res ->. by apply (Forall_lookup_1 _ _ _ _ Hret Hi). }
  assert (Hins : forall pc', exists ws', ws' = <[i := (rgn, pc')]> (workers s) /\
            countPc holdsSlot ws' + (if holdsSlot pc then 1 else 0)
              = countPc holdsSlot (workers s) + (if holdsSlot pc' then 1 else 0) /\
            countPc notDone ws' + (if notDone pc then 1 else 0)
              = countPc notDone (workers s) + (if notDone pc' then 1 else 0) /\
            ws'.*1 = (workers s).*1 /\
            ((forall res, pc' = WReturned res -> res = (single rgn).1) ->
             Forall (fun w => forall res, w.2 = WReturned res -> res = (single w.1).1) ws')).
  { intros pc'. eexists. split; [done|].
    split; [exact (weigh_insert (fun q => if holdsSlot q then 1 else 0) _ _ _ rgn _ pc' Hi)|].
    split; [exact (weigh_insert (fun q => if notDone q then 1 else 0) _ _ _ rgn _ pc' Hi)|].
    split; [by apply (fst_insert _ _ _ _ _ Hi)|].
    intros Hpc'. by apply Forall_insert. }
  unfold maxConcurrent in *.
  destruct pc; simpl in *.
  - (* sem <- struct{}{} *)
    destruct (Nat.ltb_spec (sem s) 5); [|done]. injection H as <-.
    destruct (Hins WHolding) as (ws' & -> & Hh & Hn & Hf & HF). simpl in *.
    constructor; simpl; unfold maxConcurrent; try done; try lia; try (by apply HF).
    destruct (main s); rewrite ?Hf; try done.
    + destruct Hmain as (? & ? & ?). repeat split; try done.
      by eapply flowsTo_insert_same; [exact Hi| | | |eassumption].
    + destruct Hmain as (? & ? & recvd & ? & ?). repeat split; try done.
      exists recvd. split; [|done].
      by eapply flowsTo_insert_same; [exact Hi| | | |eassumption].
  - (* the call starts *)
    injection H as <-.
    destruct (Hins WInFlight) as (ws' & -> & Hh & Hn & Hf & HF). simpl in *.
    constructor; simpl; unfold maxConcurrent; try done; try lia; try (by apply HF).
    destruct (main s); rewrite ?Hf; try done.
    + destruct Hmain as (? & ? & ?). repeat split; try done.
      by eapply flowsTo_insert_same; [exact Hi| | | |eassumption].
    + destruct Hmain as (? & ? & recvd & ? & ?). repeat split; try done.
      exists recvd. split; [|done].
      by eapply flowsTo_insert_same; [exact Hi| | | |eassumption].
  - (* the call returns *)
    injection H as <-.
    destruct (Hins (WReturned (single rgn).1)) as (ws' & -> & Hh & Hn & Hf & HF). simpl in *.
    constructor; simpl; unfold maxConcurrent; try done; try lia.
    { apply HF. by intros res [= <-]. }
    destruct (main s); rewrite ?Hf; try done.
    + destruct Hmain as (? & ? & ?). repeat split; try done.
      by eapply flowsTo_insert_same; [exact Hi| | | |eassumption].
    + destruct Hmain as (? & ? & recvd & ? & ?). repeat split; try done.
      exists recvd. split; [|done].
      by eapply flowsTo_insert_same; [exact Hi| | | |eassumption].
  - (* resultsCh <- result{...} *)
    destruct (closed s) eqn:Hcl; [done|].
    destruct (Nat.ltb_spec (length (resultsCh s)) (cap s)); [|done]. injection H as <-.
    rewrite (Hres res eq_refl).
    destruct (Hins WSent) as (ws' & -> & Hh & Hn & Hf & HF). simpl in *.
    constructor; simpl; unfold maxConcurrent; try done; try lia; try (by apply HF).
    destruct (main s); rewrite ?Hf; try done.
    + destruct Hmain as (? & ? & ?). repeat split; try done.
      by eapply flowsTo_insert_sent; [exact Hi| | | | |eassumption].
    + destruct Hmain as (? & ? & recvd & ? & ?). repeat split; try done.
      exists recvd. split; [|done].
      by eapply flowsTo_insert_sent; [exact Hi| | | | |eassumption].
  - (* <-sem *)
    destruct (sem s) as [|n] eqn:Hn'; [done|]. injection H as <-.
    destruct (Hins WReleased) as (ws' & -> & Hh & Hn & Hf & HF). simpl in *.
    constructor; simpl; unfold maxConcurrent; try done; try lia; try (by apply HF).
    destruct (main s); rewrite ?Hf; try done.
    + destruct Hmain as (? & ? & ?). repeat split; try done.
      by eapply flowsTo_insert_same; [exact Hi| | | |eassumption].
    + destruct Hmain as (? & ? & recvd & ? & ?). repeat split; try done.
      exists recvd. split; [|done].
      by eapply flowsTo_insert_same; [exact Hi| | | |eassumption].
  - (* wg.Done() *)
    destruct (wg s) as [|n] eqn:Hn'; [done|]. injection H as <-.
    destruct (Hins WDone) as (ws' & -> & Hh & Hn & Hf & HF). simpl in *.
    constructor; simpl; unfold maxConcurrent; try done; try lia; try (by apply HF).
    { intros Hc. specialize (Hcloser Hc). lia. }
    destruct (main s); rewrite ?Hf; try done.
    + destruct Hmain as (? & ? & ?). repeat split; try done.
      by eapply flowsTo_insert_same; [exact Hi| | | |eassumption].
    + destruct Hmain as (? & ? & recvd & ? & ?). repeat split; try done.
      exists recvd. split; [|done].
      by eapply flowsTo_insert_same; [exact Hi| | | |eassumption].
  - done.
Qed.

Lemma stepMain_Inv (regions : list string) (s s' : State) :
  Inv regions s -> stepMain s = Some s' -> Inv regions s'.
Proof.
  intros [Hsem Hmax Hwg Hret Hcap Hclosed Hcloser Hmain] H.
  unfold stepMain in H. destruct (main s) as [[|rgn rest] | all skipped | out] eqn:Hm.
  - (* the loop over the regions is over: the closer is started *)
    injection H as <-. destruct Hmain as (Hreg & Hcl & Hflow).
    constructor; simpl; try done.
    + rewrite Hcl in Hclosed. split; [|done]. intros Ht. by apply Hclosed in Ht.
    + rewrite app_nil_r in Hreg. repeat split; try done. by exists [].
  - (* wg.Add(1); go func(region) *)
    injection H as <-. destruct Hmain as (Hreg & Hcl & Hflow).
    constructor; simpl; try done.
    + unfold countPc. rewrite weigh_app. fold (countPc holdsSlot (workers s)).
      unfold weigh. simpl. lia.
    + unfold countPc. rewrite weigh_app. fold (countPc notDone (workers s)).
      unfold weigh. simpl. lia.
    + apply Forall_app. split; [done|]. by constructor.
    + intros Hc. by rewrite Hcl in Hc.
    + rewrite fmap_app, <- app_assoc. repeat split; try done.
      unfold flowsTo in *. simpl in *.
      rewrite pending_app, !fmap_app, app_assoc, Hflow. done.
  - (* one iteration of the collecting loop, or its end *)
    destruct Hmain as (Hreg & Hcl & recvd & Hflow & Hcol).
    destruct (resultsCh s) as [|r q] eqn:Hq.
    + destruct (closed s) eqn:Hclo; [|done]. injection H as <-.
      assert (Hcc : closer s = CClosed) by (by apply Hclosed).
      constructor; simpl; try done.
      split; [done | split; [done | split; [|done]]].
      exists recvd, []. split.
      * unfold flowsTo in Hflow. rewrite Hq, Hreg in Hflow. simpl in Hflow.
        rewrite pending_nil_done in Hflow; [done|].
        rewrite <- Hwg. by apply Hcloser.
      * right. split; [done|]. by exists all, skipped.
    + injection H as <-.
      assert (Hflow' : Permutation ((recvd ++ [r]) ++ q ++ pending (workers s))
                                   (resultOf <$> (workers s).*1)).
      { unfold flowsTo in Hflow. rewrite Hq in Hflow. by rewrite <- app_assoc. }
      assert (Hcol' : collect [] [] (recvd ++ [r]) = consume all skipped r).
      { by rewrite collect_snoc, Hcol. }
      constructor; simpl; try done.
      destruct (consume all skipped r) as [rest' | all' skipped' | out'] eqn:Hc.
      * by apply consume_not_spawn in Hc.
      * repeat split; try done. by exists (recvd ++ [r]).
      * split; [done | split; [done | split]].
        2:{ unfold consume in Hc. destruct (err r) as [e|]; [|done].
            destruct (isAuthError unicodeLower (Some e)); [done|]. by injection Hc as <-. }
        exists (recvd ++ [r]), (q ++ pending (workers s)). split.
        { by rewrite <- Hreg. }
        left. unfold consume in Hc. destruct (err r) as [e|] eqn:He; [|done].
        destruct (isAuthError unicodeLower (Some e)) eqn:Ha; [done|].
        injection Hc as <-. exists recvd, r, e.
        repeat split; try done. by exists all, skipped.
  - done.
Qed.

Lemma stepCloser_Inv (regions : list string) (s s' : State) :
  Inv regions s -> stepCloser s = Some s' -> Inv regions s'.
Proof.
  intros [Hsem Hmax Hwg Hret Hcap Hclosed Hcloser Hmain] H.
  unfold stepCloser in H. destruct (closer s) eqn:Hc; try done.
  destruct (Nat.eqb_spec (wg s) 0) as [Hz|]; [|done]. injection H as <-.
  constructor; simpl; try done.
  destruct (main s).
  - by destruct Hmain as (_ & ? & _).
  - destruct Hmain as (? & ? & ?). done.
  - destruct Hmain as (? & ? & ? & ?). done.
Qed.

Lemma step_Inv (regions : list string) (t : thread) (s s' : State) :
  Inv regions s -> step t s = Some s' -> Inv regions s'.
Proof.
  destruct t; simpl;
    eauto using stepMain_Inv, stepWorker_Inv, stepCloser_Inv.
Qed.

Lemma run_Inv (regions : list string) (sched : list thread) (s : State) :
  Inv regions s -> Inv regions (run sched s).
Proof.
  revert s. induction sched as [|t sched IH]; intros s HI; simpl; [done|].
  apply IH. unfold exec1. destruct (step t s) as [s'|] eqn:Hs; simpl; [|done].
  by eapply step_Inv.
Qed.

(** **** No deadlock, and every step brings the end nearer. *)

Lemma weigh_lookup_le (f : WorkerPc -> nat) (ws : list (string * WorkerPc))
    (i : nat) (rgn : string) (pc : WorkerPc) :
  ws !! i = Some (rgn, pc) -> f pc <= weigh f ws.
Proof.
  unfold weigh. revert i. induction ws as [|w ws IH]; intros [|i] H; simpl in *;
    try discriminate.
  - injection H as ->. simpl. lia.
  - specialize (IH i H). lia.
Qed.

Lemma progress (regions : list string) (s : State) :
  Inv regions s -> returned s = None -> exists t s', step t s = Some s'.
Proof.
  intros [Hsem Hmax Hwg Hret Hcap Hclosed Hcloser Hmain] Hnot.
  unfold returned in Hnot.
  destruct (main s) as [rest | all skipped | out] eqn:Hm; [| |done].
  { exists TMain. simpl. unfold stepMain. rewrite Hm. destruct rest; eauto. }
  destruct Hmain as (Hreg & Hcl & _).
  destruct (resultsCh s) as [|r q] eqn:Hq.
  2:{ exists TMain. simpl. unfold stepMain. rewrite Hm, Hq. eauto. }
  destruct (closed s) eqn:Hclo.
  { exists TMain. simpl. unfold stepMain. rewrite Hm, Hq, Hclo. eauto. }
  assert (Hw : closer s = CWaiting).
  { destruct (closer s); [done | done |].
    destruct Hclosed as [_ Hc]. discriminate (Hc eq_refl). }
  destruct (wg s) as [|n] eqn:Hn.
  { exists TCloser. simpl. unfold stepCloser. rewrite Hw, Hn. simpl. eauto. }
  destruct (Nat.eq_dec (countPc active (workers s)) 0) as [Hz | Hpos].
  - (* nobody is past the semaphore: a waiting worker gets a slot *)
    destruct (weigh_pos_lookup (fun pc => if notDone pc then 1 else 0) (workers s))
      as (i & rgn & pc & Hi & Hpc).
    { fold (countPc notDone (workers s)). lia. }
    pose proof (weigh_zero_lookup _ _ _ _ _ Hz Hi) as Hact. simpl in Hact.
    assert (Hh : countPc holdsSlot (workers s) <= countPc active (workers s)).
    { apply weigh_le. intros []; simpl; lia. }
    exists (TWorker i). simpl. unfold stepWorker. rewrite Hi. simpl.
    destruct pc; simpl in *; try lia.
    destruct (Nat.ltb_spec (sem s) maxConcurrent); [eauto|].
    unfold maxConcurrent in *. lia.
  - (* a worker past the semaphore can always move *)
    destruct (weigh_pos_lookup (fun pc => if active pc then 1 else 0) (workers s))
      as (i & rgn & pc & Hi & Hpc).
    { fold (countPc active (workers s)). lia. }
    pose proof (weigh_lookup_le (fun pc => if holdsSlot pc then 1 else 0) _ _ _ _ Hi) as Hh.
    fold (countPc holdsSlot (workers s)) in Hh.
    exists (TWorker i). simpl. unfold stepWorker. rewrite Hi. simpl.
    destruct pc; simpl in *; try lia; eauto.
    + rewrite Hclo, Hq. simpl.
      apply lookup_lt_Some in Hi. rewrite <- (length_fmap fst), Hreg, <- Hcap in Hi.
      destruct (Nat.ltb_spec 0 (cap s)); [eauto | lia].
    + destruct (sem s); [lia | eauto].
    + rewrite Hn. eauto.
Qed.

Lemma step_measure (t : thread) (s s' : State) :
  step t s = Some s' -> measure s' < measure s.
Proof.
  destruct t as [|i|]; simpl.
  - unfold stepMain, measure.
    destruct (main s) as [[|rgn rest] | all skipped | out]; try done.
    + intros [= <-]. simpl. destruct (closer s); lia.
    + intros [= <-]. simpl. rewrite weigh_app. unfold weigh. simpl. lia.
    + destruct (resultsCh s) as [|r q].
      * destruct (closed s); [|done]. intros [= <-]. simpl. lia.
      * intros [= <-]. simpl.
        unfold consume. destruct (err r); [destruct (isAuthError _ _)|]; lia.
  - unfold stepWorker, measure.
    destruct (workers s !! i) as [[rgn pc]|] eqn:Hi; simpl; [|done].
    assert (Hins : forall pc',
      weigh workerRem (<[i := (rgn, pc')]> (workers s)) + workerRem pc
        = weigh workerRem (workers s) + workerRem pc').
    { intros pc'. by apply (weigh_insert workerRem _ _ rgn rgn pc). }
    destruct pc; simpl in *.
    + destruct (sem s <? maxConcurrent)%nat; [|done]. intros [= <-]. simpl.
      specialize (Hins WHolding). simpl in Hins. lia.
    + intros [= <-]. simpl. specialize (Hins WInFlight). simpl in Hins. lia.
    + intros [= <-]. simpl. specialize (Hins (WReturned (single rgn).1)).
      simpl in Hins. lia.
    + destruct (closed s); [done|].
      destruct (length (resultsCh s) <? cap s)%nat; [|done]. intros [= <-]. simpl.
      rewrite length_app. specialize (Hins WSent). simpl in *. lia.
    + destruct (sem s); [done|]. intros [= <-]. simpl.
      specialize (Hins WReleased). simpl in Hins. lia.
    + destruct (wg s); [done|]. intros [= <-]. simpl.
      specialize (Hins WDone). simpl in Hins. lia.
    + done.
  - unfold stepCloser, measure. destruct (closer s); try done.
    destruct (wg s =? 0)%nat; [|done]. intros [= <-]. simpl. lia.
Qed.

(** From every state the goroutines can reach, some schedule makes the
    method return; no schedule of moving goroutines is longer than
    [measure]. *)
Lemma terminates (regions : list string) (n : nat) (s : State) :
  measure s <= n -> Inv regions s ->
  exists sched out, returned (run sched s) = Some out.
Proof.
  revert s. induction n as [|n IH]; intros s Hn HI.
  - destruct (returned s) as [out|] eqn:Hr; [by exists [], out|].
    destruct (progress regions s HI Hr) as (t & s' & Hs).
    apply step_measure in Hs. lia.
  - destruct (returned s) as [out|] eqn:Hr; [by exists [], out|].
    destruct (progress regions s HI Hr) as (t & s' & Hs).
    destruct (IH s') as (sched & out & Hout).
    + apply step_measure in Hs. lia.
    + by eapply step_Inv.
    + exists (t :: sched), out. simpl. unfold exec1. by rewrite Hs.
Qed.

(** **** The cap on the calls in flight. *)

Lemma inFlight_le_sem (regions : list string) (s : State) :
  Inv regions s -> inFlight s <= sem s /\ sem s <= maxConcurrent.
Proof.
  intros HI. split; [|by destruct HI].
  rewrite (inv_sem _ _ HI). apply weigh_le. intros []; simpl; lia.
Qed.

(** **** What the returned value is. *)

Lemma err_resultOf (rgn : string) : err (resultOf rgn) = (single rgn).1.2.
Proof. unfold resultOf, mkResult. by destruct ((single rgn).1.2). Qed.

Lemma returned_explains (regions : list string) (sched : list thread) (out : outcome) :
  returned (run sched (init regions)) = Some out -> explains regions out.
Proof.
  intros H. pose proof (run_Inv regions sched _ (init_Inv regions)) as HI.
  apply inv_main in HI. unfold returned in H.
  destruct (main (run sched (init regions))); try done.
  injection H as ->. by destruct HI as (_ & _ & ? & _).
Qed.

Lemma consume_resultOf (rgn : string) (all : list Rec) (skipped : list string) :
  consume all skipped (resultOf rgn) =
  match (single rgn).1.2 with
  | Some e =>
      if isAuthError unicodeLower (Some e)
      then MCollect all (skipped ++ [rgn]) else MReturned (fail e)
  | None => MCollect (all ++ records (single rgn).1.1) skipped
  end.
Proof.
  unfold consume. rewrite err_resultOf. unfold resultOf, mkResult.
  by destruct ((single rgn).1.2).
Qed.

Lemma collect_regions (order : list string) (all : list Rec) (skipped : list string) :
  onlySkippable order ->
  collect all skipped (resultOf <$> order) =
  MCollect (all ++ flat_map (fun rgn => records (single rgn).1.1) (List.filter succeeded order))
           (skipped ++ List.filter failed order).
Proof.
  revert all skipped. induction order as [|rgn order IH]; intros all skipped Hs.
  - simpl. by rewrite !app_nil_r.
  - assert (Hs' : onlySkippable order).
    { intros r e Hr. apply Hs. by right. }
    rewrite fmap_cons. cbn [collect List.filter]. rewrite consume_resultOf.
    unfold succeeded at 1. unfold failed at 1 2.
    destruct ((single rgn).1.2) as [e|] eqn:He; cbn [negb flat_map].
    + rewrite (Hs rgn e); [|by left | done]. rewrite IH by done.
      by rewrite <- app_assoc.
    + rewrite IH by done. by rewrite <- app_assoc.
Qed.

Lemma collect_MCollect_inv (rs : list result) (all all' : list Rec) (skipped skipped' : list string) :
  collect all skipped rs = MCollect all' skipped' ->
  forall r e, r ∈ rs -> err r = Some e -> isAuthError unicodeLower (Some e) = true.
Proof.
  revert all skipped. induction rs as [|x rs IH]; intros all skipped H r e Hr He.
  - by apply elem_of_nil in Hr.
  - simpl in H. unfold consume in H. apply elem_of_cons in Hr as [-> | Hr].
    + rewrite He in H. by destruct (isAuthError unicodeLower (Some e)).
    + destruct (err x) as [ex|]; [destruct (isAuthError unicodeLower (Some ex)); [|done]|];
        by eapply IH.
Qed.

Lemma explains_skippable (regions : list string) (out : outcome) :
  onlySkippable regions -> explains regions out ->
  exists order, Permutation order regions /\
    out = finish (flat_map (fun rgn => records (single rgn).1.1) (List.filter succeeded order))
                 (List.filter failed order).
Proof.
  intros Hs (recvd & rest & Hperm & [Hfatal | (-> & all & skipped & Hcol & ->)]).
  - destruct Hfatal as (pre & r & e & -> & He & Ha & _ & _).
    assert (Hr : r ∈ resultOf <$> regions).
    { rewrite <- Hperm. apply elem_of_app. left. apply elem_of_app. right. by left. }
    apply list_elem_of_fmap in Hr as (rgn & -> & Hrgn).
    rewrite err_resultOf in He. rewrite (Hs rgn e Hrgn He) in Ha. done.
  - rewrite app_nil_r in Hperm.
    change (resultOf <$> regions) with (map resultOf regions) in Hperm.
    apply Permutation_map_inv in Hperm as (order & -> & Hord).
    exists order. split; [by symmetry|].
    change (map resultOf order) with (resultOf <$> order) in Hcol.
    rewrite collect_regions in Hcol.
    + by injection Hcol as <- <-.
    + intros rgn e Hin. apply Hs. by rewrite Hord.
Qed.

Lemma explains_fatal (regions : list string) (out : outcome) :
  (exists rgn e, rgn ∈ regions /\ (single rgn).1.2 = Some e /\
     isAuthError unicodeLower (Some e) = false) ->
  explains regions out ->
  exists rgn e, rgn ∈ regions /\ (single rgn).1.2 = Some e /\
    isAuthError unicodeLower (Some e) = false /\ out = fail e.
Proof.
  intros (rgn0 & e0 & Hin0 & He0 & Ha0)
         (recvd & rest & Hperm & [Hfatal | (-> & all & skipped & Hcol & ->)]).
  - destruct Hfatal as (pre & r & e & -> & He & Ha & _ & ->).
    assert (Hr : r ∈ resultOf <$> regions).
    { rewrite <- Hperm. apply elem_of_app. left. apply elem_of_app. right. by left. }
    apply list_elem_of_fmap in Hr as (rgn & -> & Hrgn).
    rewrite err_resultOf in He. by exists rgn, e.
  - rewrite app_nil_r in Hperm.
    assert (Hr : resultOf rgn0 ∈ recvd).
    { rewrite Hperm. by apply list_elem_of_fmap_2. }
    pose proof (collect_MCollect_inv _ _ _ _ _ Hcol _ e0 Hr) as Hc.
    rewrite err_resultOf in Hc. rewrite (Hc He0) in Ha0. done.
Qed.

Lemma finish_message (all : list Rec) (skipped : list string) :
  finish all skipped =
  (build all match skipped with
             | [] => ""
             | _ => "Skipped regions due to authentication errors: "
                      +:+ GoStrings.Join skipped ", "
             end, None).
Proof. unfold finish. by destruct skipped. Qed.

Lemma run_app (sched more : list thread) (s : State) :
  run (sched ++ more) s = run more (run sched s).
Proof. unfold run. by rewrite fold_left_app. Qed.

(** Whatever the goroutines have done so far, they can go on until the
    method returns. *)
Lemma aggregate_returns (regions : list string) (sched : list thread) :
  exists more out, returned (run (sched ++ more) (init regions)) = Some out.
Proof.
  destruct (terminates regions (measure (run sched (init regions)))
              (run sched (init regions))) as (more & out & H); [done | |].
  - apply run_Inv, init_Inv.
  - exists more, out. by rewrite run_app.
Qed.

(** A value without an error is returned only after the channel is closed,
    that is after every worker is done. *)
Lemma returned_ok_all_done (regions : list string) (s : State) (out : outcome) :
  Inv regions s -> returned s = Some out -> out.2 = None ->
  closed s = true /\ countPc notDone (workers s) = 0 /\ inFlight s = 0.
Proof.
  intros HI Hr Hok. pose proof (inv_main _ _ HI) as Hm. unfold returned in Hr.
  destruct (main s); try done. injection Hr as ->.
  destruct Hm as (_ & _ & _ & Hcl). specialize (Hcl Hok).
  assert (Hz : countPc notDone (workers s) = 0).
  { rewrite <- (inv_wg _ _ HI). apply (inv_closer _ _ HI). by apply (inv_closed _ _ HI). }
  repeat split; try done.
  assert (inFlight s <= countPc notDone (workers s)); [|lia].
  apply weigh_le. intros []; simpl; lia.
Qed.

(** **** The workers after the caller has gone, and the calls they make. *)

(** The values buffered in [resultsCh] and the results still to be sent are
    never more than the workers: the buffer, made for [len(regions)] values,
    has room for every send. *)
Definition hasRoom (s : State) : Prop :=
  length (resultsCh s) + countPc unsent (workers s) <= length (workers s).

(** The worker has started its executor call. *)
Definition started (pc : WorkerPc) : bool :=
  match pc with WSpawned | WHolding => false | _ => true end.

(** The calls of the workers that have started theirs. *)
Definition callsStarted (ws : list (string * WorkerPc)) : list (list string) :=
  flat_map (fun w => if started w.2 then (single w.1).2 else []) ws.

(** The calls of the workers that have not. *)
Definition callsAhead (ws : list (string * WorkerPc)) : list (list string) :=
  flat_map (fun w => if started w.2 then [] else (single w.1).2) ws.

(** Every goroutine of the aggregation has run to its end. *)
Definition allFinished (s : State) : Prop :=
  Forall (fun w => w.2 = WDone) (workers s) /\ closer s = CClosed /\
  sem s = 0 /\ wg s = 0.

Lemma length_workers_le (regions : list string) (s : State) :
  Inv regions s -> length (workers s) <= length regions.
Proof.
  intros HI. pose proof (inv_main _ _ HI) as Hm.
  rewrite <- (length_fmap fst (workers s)).
  destruct (main s).
  - destruct Hm as (<- & _). rewrite length_app. lia.
  - by destruct Hm as (-> & _).
  - by destruct Hm as (-> & _).
Qed.

Lemma init_hasRoom (regions : list string) : hasRoom (init regions).
Proof. unfold hasRoom. simpl. lia. Qed.

Lemma step_hasRoom (t : thread) (s s' : State) :
  hasRoom s -> step t s = Some s' -> hasRoom s'.
Proof.
  unfold hasRoom. intros Hr. destruct t as [|i|]; simpl.
  - unfold stepMain. destruct (main s) as [[|rgn rest] | all skipped | out]; try done.
    + by intros [= <-].
    + intros [= <-]. simpl. unfold countPc. rewrite weigh_app, length_app.
      fold (countPc unsent (workers s)). unfold weigh. simpl. lia.
    + destruct (resultsCh s) as [|r q] eqn:Hq.
      * destruct (closed s); [|done]. by intros [= <-].
      * intros [= <-]. simpl in *. lia.
  - unfold stepWorker.
    destruct (workers s !! i) as [[rgn pc]|] eqn:Hi; simpl; [|done].
    assert (Hins : forall pc',
      countPc unsent (<[i := (rgn, pc')]> (workers s)) + (if unsent pc then 1 else 0)
        = countPc unsent (workers s) + (if unsent pc' then 1 else 0)).
    { intros pc'. exact (weigh_insert (fun q => if unsent q then 1 else 0) _ _ rgn rgn pc pc' Hi). }
    destruct pc; simpl in *.
    + destruct (sem s <? maxConcurrent)%nat; [|done]. intros [= <-]. simpl.
      specialize (Hins WHolding). simpl in Hins. rewrite length_insert. lia.
    + intros [= <-]. simpl. specialize (Hins WInFlight). simpl in Hins.
      rewrite length_insert. lia.
    + intros [= <-]. simpl. specialize (Hins (WReturned (single rgn).1)). simpl in Hins.
      rewrite length_insert. lia.
    + destruct (closed s); [done|].
      destruct (length (resultsCh s) <? cap s)%nat; [|done]. intros [= <-]. simpl.
      specialize (Hins WSent). simpl in Hins. rewrite length_insert, length_app. simpl. lia.
    + destruct (sem s); [done|]. intros [= <-]. simpl.
      specialize (Hins WReleased). simpl in Hins. rewrite length_insert. lia.
    + destruct (wg s); [done|]. intros [= <-]. simpl.
      specialize (Hins WDone). simpl in Hins. rewrite length_insert. lia.
    + done.
  - unfold stepCloser. destruct (closer s); try done.
    destruct (wg s =? 0)%nat; [|done]. by intros [= <-].
Qed.

Lemma run_hasRoom (sched : list thread) (s : State) :
  hasRoom s -> hasRoom (run sched s).
Proof.
  revert s. induction sched as [|t sched IH]; intros s Hr; simpl; [done|].
  apply IH. unfold exec1. destruct (step t s) as [s'|] eqn:Hs; simpl; [|done].
  by eapply step_hasRoom.
Qed.

(** While a worker is not done, some worker can move: no send finds the
    buffer full or the channel closed, no release finds the semaphore
    empty. *)
Lemma worker_progress (regions : list string) (s : State) :
  Inv regions s -> hasRoom s -> 0 < countPc notDone (workers s) ->
  exists i s', stepWorker i s = Some s'.
Proof.
  intros HI Hroom Hnd. pose proof (length_workers_le _ _ HI) as Hlen.
  destruct HI as [Hsem Hmax Hwg Hret Hcap Hclosed Hcloser Hmain].
  assert (Hopen : closed s = false).
  { destruct (closed s) eqn:Hc; [|done].
    assert (wg s = 0) by (apply Hcloser; by apply Hclosed). lia. }
  destruct (Nat.eq_dec (countPc active (workers s)) 0) as [Hz | Hpos].
  - destruct (weigh_pos_lookup (fun pc => if notDone pc then 1 else 0) (workers s))
      as (i & rgn & pc & Hi & Hpc); [done|].
    pose proof (weigh_zero_lookup _ _ _ _ _ Hz Hi) as Hact. simpl in Hact.
    assert (Hh : countPc holdsSlot (workers s) <= countPc active (workers s)).
    { apply weigh_le. intros []; simpl; lia. }
    exists i. unfold stepWorker. rewrite Hi. simpl.
    destruct pc; simpl in *; try lia.
    destruct (Nat.ltb_spec (sem s) maxConcurrent); [eauto|].
    unfold maxConcurrent in *. lia.
  - destruct (weigh_pos_lookup (fun pc => if active pc then 1 else 0) (workers s))
      as (i & rgn & pc & Hi & Hpc).
    { fold (countPc active (workers s)). lia. }
    pose proof (weigh_lookup_le (fun pc => if holdsSlot pc then 1 else 0) _ _ _ _ Hi) as Hh.
    fold (countPc holdsSlot (workers s)) in Hh.
    pose proof (weigh_lookup_le (fun pc => if unsent pc then 1 else 0) _ _ _ _ Hi) as Hu.
    fold (countPc unsent (workers s)) in Hu.
    exists i. unfold stepWorker. rewrite Hi. simpl.
    destruct pc; simpl in *; try lia; eauto.
    + rewrite Hopen. unfold hasRoom in Hroom.
      destruct (Nat.ltb_spec (length (resultsCh s)) (cap s)); [eauto | lia].
    + destruct (sem s); [lia | eauto].
    + destruct (wg s); [lia | eauto].
Qed.

Lemma stepWorker_main (i : nat) (s s' : State) :
  stepWorker i s = Some s' -> main s' = main s /\ closer s' = closer s.
Proof.
  unfold stepWorker. destruct (workers s !! i) as [[rgn pc]|]; simpl; [|done].
  destruct pc; simpl.
  - destruct (sem s <? maxConcurrent)%nat; [|done]. by intros [= <-].
  - by intros [= <-].
  - by intros [= <-].
  - destruct (closed s); [done|]. destruct (length (resultsCh s) <? cap s)%nat; [|done].
    by intros [= <-].
  - destruct (sem s); [done|]. by intros [= <-].
  - destruct (wg s); [done|]. by intros [= <-].
  - done.
Qed.

Lemma workers_drain (regions : list string) (n : nat) (s : State) :
  measure s <= n -> Inv regions s -> hasRoom s ->
  exists more, countPc notDone (workers (run more s)) = 0 /\
               main (run more s) = main s /\ closer (run more s) = closer s.
Proof.
  revert s. induction n as [|n IH]; intros s Hn HI Hroom;
    (destruct (Nat.eq_dec (countPc notDone (workers s)) 0) as [Hz | Hpos];
     [by exists [] |]);
    destruct (worker_progress regions s HI Hroom) as (i & s' & Hs); try lia;
    pose proof (step_measure (TWorker i) s s' Hs) as Hm; [lia|].
  destruct (IH s') as (more & Hdone & Hmain & Hcl).
  - lia.
  - by apply (step_Inv regions (TWorker i) s).
  - by apply (step_hasRoom (TWorker i) s).
  - destruct (stepWorker_main i s s' Hs) as [Hm1 Hm2].
    exists (TWorker i :: more). simpl. unfold exec1. simpl. rewrite Hs. simpl.
    split; [done|]. by rewrite Hmain, Hcl.
Qed.

Lemma all_done_Forall (ws : list (string * WorkerPc)) :
  countPc notDone ws = 0 -> Forall (fun w => w.2 = WDone) ws.
Proof.
  unfold countPc, weigh. induction ws as [|[rgn pc] ws IH]; simpl; [done|].
  destruct pc; simpl; try lia. intros H. constructor; [done | by apply IH].
Qed.

(** After any schedule, the goroutines can go on until the method has
    returned and every one of them has finished. *)
Lemma aggregate_finishes (regions : list string) (sched : list thread) :
  exists more,
    let s := run (sched ++ more) (init regions) in
    is_Some (returned s) /\ allFinished s.
Proof.
  destruct (aggregate_returns regions sched) as (more1 & out & Hout).
  set (s1 := run (sched ++ more1) (init regions)) in *.
  assert (HI1 : Inv regions s1) by apply run_Inv, init_Inv.
  assert (Hr1 : hasRoom s1) by apply run_hasRoom, init_hasRoom.
  destruct (workers_drain regions (measure s1) s1) as (more2 & Hdone & Hmain & Hcl);
    [done..|].
  set (s2 := run more2 s1) in *.
  assert (HI2 : Inv regions s2) by by apply run_Inv.
  assert (Hret2 : returned s2 = Some out).
  { unfold returned in *. by rewrite Hmain. }
  assert (Hne : closer s2 <> CNotStarted).
  { pose proof (inv_main _ _ HI2) as Hm. unfold returned in Hret2.
    destruct (main s2); try done. by destruct Hm as (_ & ? & _). }
  assert (Hwg : wg s2 = 0) by by rewrite (inv_wg _ _ HI2).
  exists (more1 ++ more2 ++ [TCloser]).
  rewrite app_assoc, run_app. fold s1. rewrite run_app. fold s2.
  cbn [run fold_left]. unfold exec1. simpl. unfold stepCloser.
  assert (Hsem : sem s2 = 0).
  { rewrite (inv_sem _ _ HI2).
    assert (countPc holdsSlot (workers s2) <= countPc notDone (workers s2)); [|lia].
    apply weigh_le. intros []; simpl; lia. }
  destruct (closer s2) eqn:Hc; [done | |]; simpl.
  - rewrite Hwg. simpl. unfold returned, allFinished in *. simpl.
    rewrite Hret2. split; [by eexists|].
    split; [by apply all_done_Forall|]. done.
  - unfold allFinished. rewrite Hret2, Hc. split; [by eexists|].
    split; [by apply all_done_Forall|]. done.
Qed.

Lemma flat_map_insert_same {B} (g : string * WorkerPc -> list B)
    (ws : list (string * WorkerPc)) (i : nat) (w w' : string * WorkerPc) :
  ws !! i = Some w -> g w = g w' -> flat_map g (<[i := w']> ws) = flat_map g ws.
Proof.
  revert i. induction ws as [|x ws IH]; intros [|i] H Hg; simpl in *; try discriminate.
  - injection H as ->. by rewrite Hg.
  - f_equal. by apply IH.
Qed.

Lemma flat_map_insert_perm {B} (g : string * WorkerPc -> list B)
    (ws : list (string * WorkerPc)) (i : nat) (w w' : string * WorkerPc) :
  ws !! i = Some w ->
  Permutation (g w ++ flat_map g (<[i := w']> ws)) (g w' ++ flat_map g ws).
Proof.
  revert i. induction ws as [|x ws IH]; intros [|i] H; simpl in *; try discriminate.
  - injection H as ->. apply Permutation_app_swap_app.
  - rewrite Permutation_app_swap_app, (IH i H), Permutation_app_swap_app. done.
Qed.

(** The call log is the calls of the workers that have started theirs. *)
Lemma step_calls (t : thread) (s s' : State) :
  Permutation (calls s) (callsStarted (workers s)) ->
  step t s = Some s' ->
  Permutation (calls s') (callsStarted (workers s')).
Proof.
  unfold callsStarted. intros Hc. destruct t as [|i|]; simpl.
  - unfold stepMain. destruct (main s) as [[|rgn rest] | all skipped | out]; try done.
    + by intros [= <-].
    + intros [= <-]. simpl. rewrite flat_map_app. simpl. by rewrite app_nil_r.
    + destruct (resultsCh s) as [|r q].
      * destruct (closed s); [|done]. by intros [= <-].
      * by intros [= <-].
  - unfold stepWorker.
    destruct (workers s !! i) as [[rgn pc]|] eqn:Hi; simpl; [|done].
    set (g := fun w : string * WorkerPc => if started w.2 then (single w.1).2 else []) in *.
    assert (Hsame : forall pc', started pc = started pc' ->
      flat_map g (<[i := (rgn, pc')]> (workers s)) = flat_map g (workers s)).
    { intros pc' Hst. apply (flat_map_insert_same g _ _ (rgn, pc)); [done|].
      unfold g. simpl. by rewrite Hst. }
    destruct pc; simpl in *.
    + destruct (sem s <? maxConcurrent)%nat; [|done]. intros [= <-]. simpl.
      by rewrite Hsame.
    + intros [= <-]. simpl.
      pose proof (flat_map_insert_perm g _ _ (rgn, WHolding) (rgn, WInFlight) Hi) as Hp.
      unfold g at 1 3 in Hp. simpl in Hp. rewrite Hp, Hc.
      apply Permutation_app_comm.
    + intros [= <-]. simpl. by rewrite Hsame.
    + destruct (closed s); [done|].
      destruct (length (resultsCh s) <? cap s)%nat; [|done]. intros [= <-]. simpl.
      by rewrite Hsame.
    + destruct (sem s); [done|]. intros [= <-]. simpl. by rewrite Hsame.
    + destruct (wg s); [done|]. intros [= <-]. simpl. by rewrite Hsame.
    + done.
  - unfold stepCloser. destruct (closer s); try done.
    destruct (wg s =? 0)%nat; [|done]. by intros [= <-].
Qed.

Lemma run_calls (sched : list thread) (s : State) :
  Permutation (calls s) (callsStarted (workers s)) ->
  Permutation (calls (run sched s)) (callsStarted (workers (run sched s))).
Proof.
  revert s. induction sched as [|t sched IH]; intros s Hc; simpl; [done|].
  apply IH. unfold exec1. destruct (step t s) as [s'|] eqn:Hs; simpl; [|done].
  by eapply step_calls.
Qed.

Lemma calls_split (ws : list (string * WorkerPc)) :
  Permutation (callsStarted ws ++ callsAhead ws)
              (flat_map (fun rgn => (single rgn).2) ws.*1).
Proof.
  unfold callsStarted, callsAhead. induction ws as [|[rgn pc] ws IH]; simpl; [done|].
  destruct (started pc); simpl.
  - rewrite <- app_assoc. apply Permutation_app_head. exact IH.
  - rewrite Permutation_app_swap_app. apply Permutation_app_head. exact IH.
Qed.

Lemma callsAhead_done (ws : list (string * WorkerPc)) :
  countPc notDone ws = 0 -> callsAhead ws = [].
Proof.
  unfold countPc, weigh, callsAhead. induction ws as [|[rgn pc] ws IH]; simpl; [done|].
  destruct pc; simpl; try lia. intros H. by apply IH.
Qed.

(** At every moment the calls made are calls of distinct workers, one
    worker per region spawned: together with the calls still ahead they are
    the regions' calls; once a value without error is returned, the calls
    made are exactly the regions' calls. *)
Lemma aggregate_calls (regions : list string) (sched : list thread) :
  let s := run sched (init regions) in
  (exists ahead, Permutation (calls s ++ ahead)
                             (flat_map (fun rgn => (single rgn).2) regions)) /\
  (forall out, returned s = Some out -> out.2 = None ->
     Permutation (calls s) (flat_map (fun rgn => (single rgn).2) regions)).
Proof.
  intros s.
  assert (HI : Inv regions s) by apply run_Inv, init_Inv.
  assert (Hc : Permutation (calls s) (callsStarted (workers s))).
  { apply run_calls. simpl. done. }
  pose proof (calls_split (workers s)) as Hsplit.
  pose proof (inv_main _ _ HI) as Hm.
  split.
  - destruct (main s) as [rest | all skipped | out].
    + destruct Hm as (Hreg & _).
      exists (callsAhead (workers s) ++ flat_map (fun rgn => (single rgn).2) rest).
      rewrite <- Hreg, flat_map_app, <- Hsplit, Hc. by rewrite <- app_assoc.
    + destruct Hm as (Hreg & _). exists (callsAhead (workers s)).
      by rewrite <- Hreg, Hc.
    + destruct Hm as (Hreg & _). exists (callsAhead (workers s)).
      by rewrite <- Hreg, Hc.
  - intros out Hr Hok.
    destruct (returned_ok_all_done regions s out HI Hr Hok) as (_ & Hz & _).
    rewrite (callsAhead_done _ Hz), app_nil_r in Hsplit.
    rewrite Hc, Hsplit. unfold returned in Hr.
    destruct (main s); try done. destruct Hm as (Hreg & _). by rewrite Hreg.
Qed.

(** What the collecting loop has gathered came out of the values it
    received. *)
Lemma collect_items (rs : list result) (all all' : list Rec) (skipped skipped' : list string) :
  collect all skipped rs = MCollect all' skipped' ->
  forall x, x ∈ all' -> x ∈ all \/ exists r, r ∈ rs /\ x ∈ items r.
Proof.
  revert all skipped. induction rs as [|r rs IH]; intros all skipped H x Hx; simpl in H.
  - injection H as <- <-. by left.
  - unfold consume in H. destruct (err r) as [e|] eqn:He.
    + destruct (isAuthError unicodeLower (Some e)); [|done].
      destruct (IH _ _ H x Hx) as [Hl | (r0 & Hin & Hit)]; [by left|].
      right. exists r0. split; [by right | done].
    + destruct (IH _ _ H x Hx) as [Hl | (r0 & Hin & Hit)].
      * apply elem_of_app in Hl as [Hl | Hl]; [by left|].
        right. exists r. split; [by left | done].
      * right. exists r0. split; [by right | done].
Qed.

(** Every record of a returned value is a record of the single-region call
    of one of the regions. *)
Lemma returned_records_from_regions (regions : list string) (sched : list thread)
    (out : outcome) :
  (forall all msg, records (build all msg) = all) ->
  records Types.emptyServiceResources = [] ->
  returned (run sched (init regions)) = Some out ->
  forall x, x ∈ records out.1 -> exists rgn, rgn ∈ regions /\ x ∈ records (single rgn).1.1.
Proof.
  intros Hbuild Hempty Hr x Hx. apply returned_explains in Hr.
  destruct Hr as (recvd & rest & Hperm & [Hfatal | (-> & all' & skipped & Hcol & ->)]).
  - destruct Hfatal as (? & ? & ? & _ & _ & _ & _ & ->). simpl in Hx.
    rewrite Hempty in Hx. by apply elem_of_nil in Hx.
  - unfold finish in Hx. simpl in Hx. rewrite Hbuild in Hx.
    destruct (collect_items _ _ _ _ _ Hcol x Hx) as [Hnil | (r & Hin & Hit)].
    { by apply elem_of_nil in Hnil. }
    rewrite app_nil_r in Hperm. rewrite Hperm in Hin.
    apply list_elem_of_fmap in Hin as (rgn & -> & Hrgn).
    exists rgn. split; [done|]. unfold resultOf, mkResult in Hit.
    destruct ((single rgn).1.2); [by apply elem_of_nil in Hit | done].
Qed.

(** A value returned with an error is the zero value: never partial data. *)
Lemma returned_error_empty (regions : list string) (sched : list thread)
    (out : outcome) (e : error) :
  returned (run sched (init regions)) = Some out -> out.2 = Some e ->
  out.1 = Types.emptyServiceResources.
Proof.
  intros Hr He. apply returned_explains in Hr.
  destruct Hr as (recvd & rest & _ & [Hfatal | (_ & all & skipped & _ & ->)]).
  - by destruct Hfatal as (? & ? & ? & _ & _ & _ & _ & ->).
  - done.
Qed.

Lemma allRegions_error_empty (sched : list thread) (out : outcome) (e : error) :
  (allRegions sched).1 = Some out -> out.2 = Some e ->
  out.1 = Types.emptyServiceResources.
Proof.
  unfold allRegions. destruct listRegions as [[R [e0|]] log0]; cbn.
  - by intros [= <-].
  - apply returned_error_empty.
Qed.

End Aggregator.

Arguments main {Rec} s.
Arguments workers {Rec} s.
Arguments sem {Rec} s.
Arguments resultsCh {Rec} s.
Arguments cap {Rec} s.
Arguments closed {Rec} s.
Arguments wg {Rec} s.
Arguments closer {Rec} s.
Arguments calls {Rec} s.
Arguments returned {Rec} s.
Arguments inFlight {Rec} s.
Arguments run {Rec} single records build sched s.
Arguments allRegions {Rec} single records build sched.

(** The instances of the aggregation in the source. *)
Definition getEC2InstancesAllRegions (sched : list thread) : Exec (option outcome) :=
  allRegions getEC2InstancesSingleRegion Types.EC2 withEC2 sched.

Definition getVPCsAllRegions (sched : list thread) : Exec (option outcome) :=
  allRegions getVPCsSingleRegion Types.VPCs withVPCs sched.

Definition getElasticIPsAllRegions (sched : list thread) : Exec (option outcome) :=
  allRegions getElasticIPsSingleRegion Types.ElasticIPs withElasticIPs sched.

Definition getRDSInstancesAllRegions (sched : list thread) : Exec (option outcome) :=
  allRegions getRDSInstancesSingleRegion Types.RDSInstances withRDSInstances sched.

(** A method that does not fork returns what it computes. *)
Definition returns (m : Exec outcome) : Exec (option outcome) := (Some m.1, m.2).

(** [getEC2Instances] and its siblings: the region selector ["all"]
    (in any letter case) aggregates, every other selector is one region. *)
Definition getEC2Instances (region : string) (sched : list thread) : Exec (option outcome) :=
  if String.eqb (GoStrings.ToLower unicodeLower region) "all"
  then getEC2InstancesAllRegions sched
  else returns (getEC2InstancesSingleRegion region).

Definition getVPCs (region : string) (sched : list thread) : Exec (option outcome) :=
  if String.eqb (GoStrings.ToLower unicodeLower region) "all"
  then getVPCsAllRegions sched
  else returns (getVPCsSingleRegion region).

Definition getElasticIPs (region : string) (sched : list thread) : Exec (option outcome) :=
  if String.eqb (GoStrings.ToLower unicodeLower region) "all"
  then getElasticIPsAllRegions sched
  else returns (getElasticIPsSingleRegion region).

Definition getRDSInstances (region : string) (sched : list thread) : Exec (option outcome) :=
  if String.eqb (GoStrings.ToLower unicodeLower region) "all"
  then getRDSInstancesAllRegions sched
  else returns (getRDSInstancesSingleRegion region).

(** The state of the EC2 aggregation over [regions] after [sched]. *)
Definition ec2State (regions : list string) (sched : list thread)
  : State Types.EC2Instance :=
  run getEC2InstancesSingleRegion Types.EC2 withEC2 sched (init Types.EC2Instance regions).


(** *** The aggregation, as the specification states it. *)

Lemma Permutation_bfilter {A} (f : A -> bool) (l l' : list A) :
  Permutation l l' -> Permutation (List.filter f l) (List.filter f l').
Proof.
  induction 1 as [|x l l' _ IH|x y l|l l' l'' _ IH1 _ IH2]; simpl.
  - done.
  - destruct (f x); [by constructor | done].
  - destruct (f x), (f y); try done. apply perm_swap.
  - by etransitivity.
Qed.

Lemma allRegions_returned (Rec : Type) (single : string -> Exec outcome)
    (records : Types.ServiceResources -> list Rec)
    (build : list Rec -> string -> Types.ServiceResources)
    (R : list string) (log0 : list (list string)) (sched : list thread) :
  listRegions = (R, None, log0) ->
  (allRegions single records build sched).1
    = returned (run single records build sched (init Rec R)).
Proof. intros HL. unfold allRegions. rewrite HL. reflexivity. Qed.

(** C1. When the regions [R] are enumerated and every failing region fails
    with a skippable error, the aggregation can always run on until it
    returns, and whatever it returns under any schedule is, for the order [order] in which
    the results arrived (a permutation of [R]): no error, the records of the
    succeeding regions concatenated, and a message that is empty when no
    region failed and otherwise the fixed prefix followed by the failing
    regions joined by comma-space.  The failing regions listed are those of
    [R], the records those of the other regions of [R]. *)
Theorem getEC2InstancesAllRegions_skips (R : list string) (log0 : list (list string)) :
  listRegions = (R, None, log0) ->
  onlySkippable getEC2InstancesSingleRegion R ->
  (forall sched, exists more out,
     (getEC2InstancesAllRegions (sched ++ more)).1 = Some out) /\
  (forall sched out, (getEC2InstancesAllRegions sched).1 = Some out ->
     exists order, Permutation order R /\
       let S := List.filter (failed getEC2InstancesSingleRegion) order in
       let ok := List.filter (succeeded getEC2InstancesSingleRegion) order in
       out = (withEC2
                (flat_map (fun rgn => Types.EC2 (getEC2InstancesSingleRegion rgn).1.1) ok)
                match S with
                | [] => ""
                | _ => "Skipped regions due to authentication errors: "
                         +:+ GoStrings.Join S ", "
                end, None) /\
       Permutation S (List.filter (failed getEC2InstancesSingleRegion) R) /\
       Permutation (Types.EC2 out.1)
         (flat_map (fun rgn => Types.EC2 (getEC2InstancesSingleRegion rgn).1.1)
                   (List.filter (succeeded getEC2InstancesSingleRegion) R))).
Proof.
  intros HL Hs. unfold getEC2InstancesAllRegions. split.
  - intros sched.
    destruct (aggregate_returns Types.EC2Instance getEC2InstancesSingleRegion
                Types.EC2 withEC2 R sched) as (more & out & H).
    exists more, out. by rewrite (allRegions_returned _ _ _ _ R log0).
  - intros sched out H. rewrite (allRegions_returned _ _ _ _ R log0) in H by done.
    apply returned_explains in H.
    apply (explains_skippable _ _ _ _ _ _ Hs) in H as (order & Hperm & ->).
    exists order. split; [done|]. cbn zeta. rewrite finish_message.
    split; [done|]. split.
    + by apply Permutation_bfilter.
    + simpl. apply Permutation_flat_map. by apply Permutation_bfilter.
Qed.

(** C2. When some region of [R] fails with an error that is not skippable,
    the aggregation can always run on until it returns, and whatever it
    returns under any schedule is the empty [ServiceResources] together with the
    error of a region of [R] that is not skippable: no records, however many
    other regions succeeded. *)
Theorem getEC2InstancesAllRegions_fatal (R : list string) (log0 : list (list string)) :
  listRegions = (R, None, log0) ->
  (exists rgn e, rgn ∈ R /\ (getEC2InstancesSingleRegion rgn).1.2 = Some e /\
     isAuthError unicodeLower (Some e) = false) ->
  (forall sched, exists more out,
     (getEC2InstancesAllRegions (sched ++ more)).1 = Some out) /\
  (forall sched out, (getEC2InstancesAllRegions sched).1 = Some out ->
     exists rgn e, rgn ∈ R /\ (getEC2InstancesSingleRegion rgn).1.2 = Some e /\
       isAuthError unicodeLower (Some e) = false /\
       out = (Types.emptyServiceResources, Some e)).
Proof.
  intros HL Hf. unfold getEC2InstancesAllRegions. split.
  - intros sched.
    destruct (aggregate_returns Types.EC2Instance getEC2InstancesSingleRegion
                Types.EC2 withEC2 R sched) as (more & out & H).
    exists more, out. by rewrite (allRegions_returned _ _ _ _ R log0).
  - intros sched out H. rewrite (allRegions_returned _ _ _ _ R log0) in H by done.
    apply returned_explains in H.
    by apply (explains_fatal _ _ _ _ _ _ Hf) in H.
Qed.

(** C4, as the code has it.  In every state the goroutines of one
    aggregation can reach, the executor calls in flight are at most the slots
    taken of the semaphore, which are at most 5: a worker is in flight only
    between taking its slot and giving it back.  When the method returns a
    value without error, the channel is closed and every worker is done, so
    no call is in flight. *)
Theorem ec2_calls_in_flight_bounded (regions : list string) (sched : list thread) :
  let s := ec2State regions sched in
  inFlight s <= sem s /\
  sem s = countPc holdsSlot (workers s) /\
  sem s <= 5 /\
  (forall out, returned s = Some out -> out.2 = None ->
     closed s = true /\ countPc notDone (workers s) = 0 /\ inFlight s = 0).
Proof.
  intros s.
  assert (HI : Inv Types.EC2Instance getEC2InstancesSingleRegion Types.EC2 withEC2 regions s).
  { apply run_Inv, init_Inv. }
  destruct (inFlight_le_sem _ _ _ _ _ _ HI) as [H1 H2].
  split; [done|]. split; [by destruct HI|]. split; [done|].
  intros out Hr Hok. by eapply returned_ok_all_done.
Qed.

(** C7. A region selector other than ["all"] makes exactly one executor
    call, the one for that region, and an error of that call comes back as
    it is, with the empty [ServiceResources], whether or not the aggregation
    would have skipped it. *)
Theorem getEC2Instances_single_region (region : string) (sched : list thread) :
  GoStrings.ToLower unicodeLower region <> "all" ->
  (getEC2Instances region sched).2 = [regionArgs "ec2" "describe-instances" region] /\
  (getEC2Instances region sched).1 = Some (getEC2InstancesSingleRegion region).1 /\
  (forall e, (RunJSON (regionArgs "ec2" "describe-instances" region)).2 = Some e ->
     (getEC2Instances region sched).1 = Some (Types.emptyServiceResources, Some e)).
Proof.
  intros Hne. unfold getEC2Instances.
  destruct (String.eqb_spec (GoStrings.ToLower unicodeLower region) "all"); [done|].
  unfold returns, getEC2InstancesSingleRegion, call. cbn.
  destruct (RunJSON (regionArgs "ec2" "describe-instances" region)) as [out [e|]] eqn:Hrun;
    cbn.
  - repeat split; try done. by intros e' [= <-].
  - destruct (unmarshalInstances out); cbn; repeat split; try done.
Qed.

(** The same holds for the VPC, Elastic IP and RDS methods. *)
Lemma other_kinds_single_region (region : string) (sched : list thread) :
  GoStrings.ToLower unicodeLower region <> "all" ->
  ((getVPCs region sched).2 = [regionArgs "ec2" "describe-vpcs" region] /\
   forall e, (RunJSON (regionArgs "ec2" "describe-vpcs" region)).2 = Some e ->
     (getVPCs region sched).1 = Some (Types.emptyServiceResources, Some e)) /\
  ((getElasticIPs region sched).2 = [regionArgs "ec2" "describe-addresses" region] /\
   forall e, (RunJSON (regionArgs "ec2" "describe-addresses" region)).2 = Some e ->
     (getElasticIPs region sched).1 = Some (Types.emptyServiceResources, Some e)) /\
  ((getRDSInstances region sched).2 = [regionArgs "rds" "describe-db-instances" region] /\
   forall e, (RunJSON (regionArgs "rds" "describe-db-instances" region)).2 = Some e ->
     (getRDSInstances region sched).1 = Some (Types.emptyServiceResources, Some e)).
Proof.
  intros Hne. unfold getVPCs, getElasticIPs, getRDSInstances.
  destruct (String.eqb_spec (GoStrings.ToLower unicodeLower region) "all"); [done|].
  unfold returns, getVPCsSingleRegion, getElasticIPsSingleRegion,
    getRDSInstancesSingleRegion, call. cbn.
  repeat split.
  - destruct (RunJSON _) as [out [e|]]; cbn; [done|]. by destruct (unmarshalVpcs out).
  - intros e He. destruct (RunJSON _) as [out err]. cbn in *. by subst.
  - destruct (RunJSON _) as [out [e|]]; cbn; [done|]. by destruct (unmarshalAddresses out).
  - intros e He. destruct (RunJSON _) as [out err]. cbn in *. by subst.
  - destruct (RunJSON _) as [out [e|]]; cbn; [done|]. by destruct (unmarshalDBInstances out).
  - intros e He. destruct (RunJSON _) as [out err]. cbn in *. by subst.
Qed.


(** *** The Rekognition projection. *)

Lemma projectCollections_from (i0 : nat) (ids versions : list string) (region : string) :
  exists cols, projectCollections i0 ids versions region = Some cols /\
    length cols = length ids /\
    forall i id, ids !! i = Some id ->
      cols !! i = Some {| Types.CollectionID := id;
                          Types.FaceModelVersion := default "" (versions !! (i0 + i));
                          Types.rek_Region := region |}.
Proof.
  revert i0. induction ids as [|id0 ids IH]; intros i0.
  - exists []. by repeat split.
  - destruct (IH (S i0)) as (tail & Htail & Hlen & Hnth).
    assert (Hface : (if (i0 <? length versions)%nat then index versions i0 else Some "")
                    = Some (default "" (versions !! i0))).
    { unfold index. destruct (Nat.ltb_spec i0 (length versions)) as [Hlt | Hge].
      - apply lookup_lt_is_Some in Hlt as [v Hv]. by rewrite Hv.
      - by rewrite lookup_ge_None_2. }
    eexists. cbn [projectCollections]. rewrite Hface, Htail. cbn.
    split; [done|]. split; [cbn [length]; by rewrite Hlen|].
    intros [|i] id Hi; simpl in *.
    + injection Hi as ->. by rewrite Nat.add_0_r.
    + rewrite (Hnth i id Hi). by rewrite Nat.add_succ_r.
Qed.

(** C10. The projection of a list-collections response never panics (its
    indexing stays in range) and gives one record per collection id, in
    order: the i-th record pairs the i-th id with the i-th face-model version
    when there is one and with the empty string otherwise.  So the
    single-region method always returns, after its one [list-collections]
    call: the executor's error as it is, the decoder's error behind its
    prefix, and for every response that decodes, without error, the service
    ["rekognition"] and exactly these records, tagged with the region. *)
Theorem projectCollections_total (ids versions : list string) (region : string) :
  (exists cols, projectCollections 0 ids versions region = Some cols /\
     length cols = length ids /\
     forall i id, ids !! i = Some id ->
       cols !! i = Some {| Types.CollectionID := id;
                           Types.FaceModelVersion :=
                             if (i <? length versions)%nat
                             then default "" (versions !! i) else "";
                           Types.rek_Region := region |}) /\
  exists res,
    getRekognitionCollectionsSingleRegion region
      = Some (res, [regionArgs "rekognition" "list-collections" region]) /\
    match RunJSON (regionArgs "rekognition" "list-collections" region) with
    | (_, Some e) => res = (Types.emptyServiceResources, Some e)
    | (out, None) =>
        match unmarshalCollections out with
        | DecodeError e =>
            res = (Types.emptyServiceResources,
                   Some ("failed to parse list-collections output: " +:+ e))
        | Decoded resp =>
            res.2 = None /\
            Types.Service res.1 = "rekognition" /\
            Types.Message res.1 = "" /\
            length (Types.RekognitionCollections res.1) = length (Wire.CollectionIds resp) /\
            forall i id, Wire.CollectionIds resp !! i = Some id ->
              Types.RekognitionCollections res.1 !! i
                = Some {| Types.CollectionID := id;
                          Types.FaceModelVersion :=
                            if (i <? length (Wire.FaceModelVersions resp))%nat
                            then default "" (Wire.FaceModelVersions resp !! i) else "";
                          Types.rek_Region := region |}
        end
    end.
Proof.
  assert (Hver : forall (vs : list string) (i : nat),
             default "" (vs !! i)
             = if (i <? length vs)%nat then default "" (vs !! i) else "").
  { intros vs i. destruct (Nat.ltb_spec i (length vs)) as [Hlt | Hge]; [done|].
    by rewrite lookup_ge_None_2. }
  split.
  - destruct (projectCollections_from 0 ids versions region) as (cols & H & Hlen & Hnth).
    exists cols. split; [done|]. split; [done|]. intros i id Hi.
    rewrite (Hnth i id Hi), <- Hver. done.
  - unfold getRekognitionCollectionsSingleRegion, call.
    destruct (RunJSON _) as [out [e|]]; [by eexists|].
    destruct (unmarshalCollections out) as [resp | e]; [|by eexists].
    destruct (projectCollections_from 0 (Wire.CollectionIds resp)
                (Wire.FaceModelVersions resp) region) as (cols & -> & Hlen & Hnth).
    eexists. split; [reflexivity|].
    cbn [fst snd withCollections Types.Service Types.Message Types.RekognitionCollections].
    split; [done|]. split; [done|]. split; [done|]. split; [done|].
    intros i id Hi. rewrite (Hnth i id Hi), <- Hver. done.
Qed.

(** *** More on the aggregation of EC2 instances. *)

Lemma listRegions_shape (R : list string) (log0 : list (list string)) :
  listRegions = (R, None, log0) ->
  Forall (fun name => name <> "") R /\
  log0 = [["ec2"; "describe-regions"; "--all-regions"]].
Proof.
  unfold listRegions, call. cbn.
  destruct (RunJSON _) as [out [e|]]; cbn; [done|].
  destruct (unmarshalRegions out) as [payload | e]; cbn; [|done].
  intros [= <- <-]. split; [|done].
  apply Forall_forall. intros name Hin. apply list_elem_of_In in Hin.
  apply in_map_iff in Hin as (r & <- & Hr). apply filter_In in Hr as [_ Hu].
  unfold usableRegion in Hu. apply andb_true_iff in Hu as [Hne _].
  intros Heq. rewrite Heq in Hne. done.
Qed.

Lemma getEC2InstancesSingleRegion_calls (region : string) :
  (getEC2InstancesSingleRegion region).2 = [regionArgs "ec2" "describe-instances" region].
Proof.
  unfold getEC2InstancesSingleRegion, call. cbn.
  destruct (RunJSON _) as [out [e|]]; cbn; [done|].
  by destruct (unmarshalInstances out).
Qed.

Lemma getEC2InstancesSingleRegion_tags (region : string) (inst : Types.EC2Instance) :
  inst ∈ Types.EC2 (getEC2InstancesSingleRegion region).1.1 ->
  Types.ec2_Region inst = instRegion region (Types.ec2_AvailabilityZone inst).
Proof.
  unfold getEC2InstancesSingleRegion, call. cbn.
  destruct (RunJSON _) as [out [e|]]; cbn.
  { intros H. by apply elem_of_nil in H. }
  destruct (unmarshalInstances out) as [resp | e]; cbn.
  2:{ intros H. by apply elem_of_nil in H. }
  intros Hin. apply list_elem_of_In, in_flat_map in Hin as (r & _ & Hin).
  by apply in_map_iff in Hin as (i & <- & _).
Qed.

Lemma instRegion_explicit (region az : string) : region <> "" -> instRegion region az = region.
Proof.
  intros Hne. unfold instRegion. by destruct (String.eqb_spec region "").
Qed.

Lemma allRegions_log (Rec : Type) (single : string -> Exec outcome)
    (records : Types.ServiceResources -> list Rec)
    (build : list Rec -> string -> Types.ServiceResources)
    (R : list string) (log0 : list (list string)) (sched : list thread) :
  listRegions = (R, None, log0) ->
  (allRegions single records build sched).2
    = log0 ++ calls (run single records build sched (init Rec R)).
Proof. intros HL. unfold allRegions. rewrite HL. reflexivity. Qed.

(** X1. Whatever the goroutines of one EC2 aggregation have done, they can
    go on until the method has returned and every goroutine has finished:
    all workers done, the channel closed, no semaphore slot taken, the wait
    group at zero.  This holds after a return on a fatal error too: the
    buffer of the results channel has room for every result, so no worker is
    left blocked on its send. *)
Theorem ec2_goroutines_always_finish (regions : list string) (sched : list thread) :
  exists more,
    let s := ec2State regions (sched ++ more) in
    is_Some (returned s) /\
    Forall (fun w => w.2 = WDone) (workers s) /\
    closer s = CClosed /\ closed s = true /\ sem s = 0 /\ wg s = 0 /\ inFlight s = 0.
Proof.
  destruct (aggregate_finishes Types.EC2Instance getEC2InstancesSingleRegion
              Types.EC2 withEC2 regions sched) as (more & Hret & Hdone & Hcl & Hsem & Hwg).
  exists more. unfold ec2State. cbv zeta in *.
  set (s := run _ _ _ (sched ++ more) _) in *.
  assert (HI : Inv Types.EC2Instance getEC2InstancesSingleRegion Types.EC2 withEC2 regions s)
    by apply run_Inv, init_Inv.
  repeat split; try done.
  - by apply (inv_closed _ _ _ _ _ _ HI).
  - assert (inFlight s <= sem s); [|lia].
    by apply (inFlight_le_sem Types.EC2Instance getEC2InstancesSingleRegion Types.EC2
                withEC2 regions s HI).
Qed.

(** X2. The EC2 aggregation asks for the regions once and then makes at most
    one [describe-instances] call per enumerated region, under every
    schedule; when it returns a value without error it has made exactly one
    call for every region. *)
Theorem ec2_one_call_per_region (R : list string) (log0 : list (list string))
    (sched : list thread) :
  listRegions = (R, None, log0) ->
  exists made,
    (getEC2InstancesAllRegions sched).2
      = ["ec2"; "describe-regions"; "--all-regions"] :: made /\
    (exists ahead, Permutation (made ++ ahead)
                     (map (regionArgs "ec2" "describe-instances") R)) /\
    (forall out, (getEC2InstancesAllRegions sched).1 = Some out -> out.2 = None ->
       Permutation made (map (regionArgs "ec2" "describe-instances") R)).
Proof.
  intros HL. destruct (listRegions_shape R log0 HL) as [_ ->].
  unfold getEC2InstancesAllRegions.
  rewrite (allRegions_log _ _ _ _ R _ sched HL), (allRegions_returned _ _ _ _ R _ sched HL).
  eexists. split; [reflexivity|].
  assert (Hmap : flat_map (fun rgn => (getEC2InstancesSingleRegion rgn).2) R
                 = map (regionArgs "ec2" "describe-instances") R).
  { clear. induction R as [|rgn R IH]; simpl; [done|].
    by rewrite getEC2InstancesSingleRegion_calls, IH. }
  rewrite <- Hmap.
  apply (aggregate_calls Types.EC2Instance getEC2InstancesSingleRegion Types.EC2 withEC2 R sched).
Qed.

(** X3. When the regions cannot be enumerated, the EC2 aggregation fails
    with that error under every schedule before any per-region call: with
    the executor's error as it is, or with the decoder's error behind
    "failed to parse describe-regions output: ". *)
Theorem ec2_enumeration_failure_is_fatal (sched : list thread) :
  (forall out e, RunJSON ["ec2"; "describe-regions"; "--all-regions"] = (out, Some e) ->
     getEC2InstancesAllRegions sched
       = (Some (Types.emptyServiceResources, Some e),
          [["ec2"; "describe-regions"; "--all-regions"]])) /\
  (forall out e, RunJSON ["ec2"; "describe-regions"; "--all-regions"] = (out, None) ->
     unmarshalRegions out = DecodeError e ->
     getEC2InstancesAllRegions sched
       = (Some (Types.emptyServiceResources,
                Some ("failed to parse describe-regions output: " +:+ e)),
          [["ec2"; "describe-regions"; "--all-regions"]])).
Proof.
  unfold getEC2InstancesAllRegions, allRegions, listRegions, call. split.
  - intros out e ->. reflexivity.
  - intros out e -> He. cbn. rewrite He. reflexivity.
Qed.

(** X4. Every instance of a value the EC2 aggregation returns carries the
    name of one of the enumerated regions: records are tagged with the
    region their call was made for. *)
Theorem ec2_records_tagged_with_region (R : list string) (log0 : list (list string))
    (sched : list thread) (out : outcome) :
  listRegions = (R, None, log0) ->
  (getEC2InstancesAllRegions sched).1 = Some out ->
  forall inst, inst ∈ Types.EC2 out.1 ->
    Types.ec2_Region inst ∈ R /\
    inst ∈ Types.EC2 (getEC2InstancesSingleRegion (Types.ec2_Region inst)).1.1.
Proof.
  intros HL Hout inst Hin. destruct (listRegions_shape R log0 HL) as [Hne _].
  unfold getEC2InstancesAllRegions in Hout.
  rewrite (allRegions_returned _ _ _ _ R log0 sched HL) in Hout.
  destruct (returned_records_from_regions Types.EC2Instance getEC2InstancesSingleRegion
              Types.EC2 withEC2 R sched out) with (x := inst) as (rgn & Hrgn & Hx);
    try done.
  assert (Heq : Types.ec2_Region inst = rgn).
  { rewrite (getEC2InstancesSingleRegion_tags rgn inst Hx). apply instRegion_explicit.
    rewrite Forall_forall in Hne. by apply Hne. }
  by rewrite Heq.
Qed.

(** *** The Rekognition aggregation and the dispatch on the service name. *)

(** [strconv.Quote], which [fmt]'s verb [%q] applies to a string. *)
Variable Quote : string -> string.

(** The single-region Rekognition method as the worker goroutine calls it.
    The method never panics ([rekognitionSingleRegion_eq]), so the default
    is never taken. *)
Definition rekognitionSingleRegion (region : string) : Exec outcome :=
  default (fail "", []) (getRekognitionCollectionsSingleRegion region).

Lemma rekognitionSingleRegion_eq (region : string) :
  getRekognitionCollectionsSingleRegion region = Some (rekognitionSingleRegion region).
Proof.
  unfold rekognitionSingleRegion, getRekognitionCollectionsSingleRegion, call.
  destruct (RunJSON _) as [out [e|]]; [done|].
  destruct (unmarshalCollections out) as [resp | e]; [|done].
  destruct (projectCollections_from 0 (Wire.CollectionIds resp)
              (Wire.FaceModelVersions resp) region) as (cols & -> & _).
  done.
Qed.

Definition getRekognitionCollectionsAllRegions (sched : list thread) : Exec (option outcome) :=
  allRegions rekognitionSingleRegion Types.RekognitionCollections withCollections sched.

Definition getRekognitionCollections (region : string) (sched : list thread)
  : Exec (option outcome) :=
  if String.eqb (GoStrings.ToLower unicodeLower region) "all"
  then getRekognitionCollectionsAllRegions sched
  else returns (rekognitionSingleRegion region).

(** [resourceService.GetResources]: the [switch] on the lower-cased service
    name. *)
Definition GetResources (service region : string) (sched : list thread)
  : Exec (option outcome) :=
  let key := GoStrings.ToLower unicodeLower service in
  if String.eqb key "ec2" then getEC2Instances region sched
  else if String.eqb key "vpc" then getVPCs region sched
  else if String.eqb key "eip" || String.eqb key "elasticip" || String.eqb key "elastic-ips"
  then getElasticIPs region sched
  else if String.eqb key "s3" then returns getS3Buckets
  else if String.eqb key "rekognition" then getRekognitionCollections region sched
  else if String.eqb key "rds" then getRDSInstances region sched
  else (Some ({| Types.Service := service; Types.EC2 := []; Types.VPCs := [];
                 Types.ElasticIPs := []; Types.S3Buckets := [];
                 Types.RekognitionCollections := []; Types.RDSInstances := [];
                 Types.Message := "Resource drilldown not implemented for service "
                                    +:+ Quote service |}, None), []).

Lemma single_region_error_empty (region : string) (e : error) :
  ((getEC2InstancesSingleRegion region).1.2 = Some e ->
     (getEC2InstancesSingleRegion region).1.1 = Types.emptyServiceResources) /\
  ((getVPCsSingleRegion region).1.2 = Some e ->
     (getVPCsSingleRegion region).1.1 = Types.emptyServiceResources) /\
  ((getElasticIPsSingleRegion region).1.2 = Some e ->
     (getElasticIPsSingleRegion region).1.1 = Types.emptyServiceResources) /\
  ((getRDSInstancesSingleRegion region).1.2 = Some e ->
     (getRDSInstancesSingleRegion region).1.1 = Types.emptyServiceResources) /\
  ((rekognitionSingleRegion region).1.2 = Some e ->
     (rekognitionSingleRegion region).1.1 = Types.emptyServiceResources) /\
  (getS3Buckets.1.2 = Some e -> getS3Buckets.1.1 = Types.emptyServiceResources).
Proof.
  assert (Hrek : (rekognitionSingleRegion region).1.2 = Some e ->
                 (rekognitionSingleRegion region).1.1 = Types.emptyServiceResources).
  { pose proof (rekognitionSingleRegion_eq region) as Heq.
    unfold getRekognitionCollectionsSingleRegion, call in Heq.
    destruct (RunJSON _) as [out [e0|]].
    { injection Heq as <-. done. }
    destruct (unmarshalCollections out) as [resp | e0].
    2:{ injection Heq as <-. done. }
    destruct (projectCollections 0 _ _ region); simpl in Heq; [|done].
    injection Heq as <-. done. }
  revert Hrek. generalize (rekognitionSingleRegion region). intros rek Hrek.
  unfold getEC2InstancesSingleRegion, getVPCsSingleRegion, getElasticIPsSingleRegion,
    getRDSInstancesSingleRegion, getS3Buckets, call. cbn.
  repeat split.
  - destruct (RunJSON _) as [out [e0|]]; cbn; [done|].
    by destruct (unmarshalInstances out).
  - destruct (RunJSON _) as [out [e0|]]; cbn; [done|].
    by destruct (unmarshalVpcs out).
  - destruct (RunJSON _) as [out [e0|]]; cbn; [done|].
    by destruct (unmarshalAddresses out).
  - destruct (RunJSON _) as [out [e0|]]; cbn; [done|].
    by destruct (unmarshalDBInstances out).
  - exact Hrek.
  - destruct (RunJSON _) as [out [e0|]]; cbn; [done|].
    by destruct (unmarshalBuckets out).
Qed.

(** X5. No method of the resource service hands back data together with an
    error: for every service name, region selector and schedule, a value
    returned with an error is the zero [ServiceResources]. *)
Theorem GetResources_error_carries_no_data (service region : string) (sched : list thread)
    (out : outcome) (e : error) :
  (GetResources service region sched).1 = Some out ->
  out.2 = Some e ->
  out.1 = Types.emptyServiceResources.
Proof.
  destruct (single_region_error_empty region e) as (H1 & H2 & H3 & H4 & H5 & H6).
  unfold GetResources, getEC2Instances, getVPCs, getElasticIPs, getRekognitionCollections,
    getRDSInstances, getEC2InstancesAllRegions, getVPCsAllRegions, getElasticIPsAllRegions,
    getRekognitionCollectionsAllRegions, getRDSInstancesAllRegions, returns.
  cbv zeta.
  repeat match goal with
         | |- context [if ?b then _ else _] => destruct b
         end; cbn [fst snd];
    try (by apply allRegions_error_empty);
    try (intros [= <-]; assumption).
  intros [= <-]. done.
Qed.

(** X6. The buckets are never fanned out: for the service ["s3"] in any
    letter case and every region selector, ["all"] included, the dispatch
    makes exactly the one [list-buckets] call.  A service that is not
    supported makes no call and is answered without error by a message that
    names it. *)
Theorem GetResources_s3_and_unsupported (service region : string) (sched : list thread) :
  let key := GoStrings.ToLower unicodeLower service in
  (key = "s3" ->
     GetResources service region sched = (Some getS3Buckets.1, [["s3api"; "list-buckets"]])) /\
  (~ In key ["ec2"; "vpc"; "eip"; "elasticip"; "elastic-ips"; "s3"; "rekognition"; "rds"] ->
     (GetResources service region sched).2 = [] /\
     exists res, (GetResources service region sched).1 = Some (res, None) /\
       Types.Service res = service /\
       Types.Message res = "Resource drilldown not implemented for service " +:+ Quote service /\
       Types.EC2 res = [] /\ Types.VPCs res = [] /\ Types.ElasticIPs res = [] /\
       Types.S3Buckets res = [] /\ Types.RekognitionCollections res = [] /\
       Types.RDSInstances res = []).
Proof.
  intros key. unfold GetResources. fold key. split.
  - intros ->. cbn. unfold returns, getS3Buckets, call. cbn.
    destruct (RunJSON _) as [out [e|]]; cbn; [done|].
    by destruct (unmarshalBuckets out).
  - intros Hnot. simpl in Hnot.
    repeat match goal with
           | |- context [String.eqb key ?k] =>
               destruct (String.eqb_spec key k) as [Heq|_];
               [exfalso; apply Hnot; rewrite Heq; tauto|]
           end.
    cbn. split; [done|]. eexists. split; [reflexivity|]. by repeat split.
Qed.

(** *** The other four aggregations.

    [getVPCsAllRegions], [getElasticIPsAllRegions],
    [getRekognitionCollectionsAllRegions] and [getRDSInstancesAllRegions]
    are the same goroutine program as the EC2 one, over their own
    single-region method and record list. *)

(** What an aggregation [agg] over the single-region method [single] does
    with the regions [R]. *)
Definition skipsAndFails {Rec : Type} (single : string -> Exec outcome)
    (records : Types.ServiceResources -> list Rec)
    (build : list Rec -> string -> Types.ServiceResources)
    (agg : list thread -> Exec (option outcome)) (R : list string) : Prop :=
  (forall sched, exists more out, (agg (sched ++ more)).1 = Some out) /\
  (forall sched out, (agg sched).1 = Some out ->
     (onlySkippable single R ->
        exists order, Permutation order R /\
          out = (build (flat_map (fun rgn => records (single rgn).1.1)
                                 (List.filter (succeeded single) order))
                       match List.filter (failed single) order with
                       | [] => ""
                       | skipped => "Skipped regions due to authentication errors: "
                                      +:+ GoStrings.Join skipped ", "
                       end, None)) /\
     ((exists rgn e, rgn ∈ R /\ (single rgn).1.2 = Some e /\
         isAuthError unicodeLower (Some e) = false) ->
        exists rgn e, rgn ∈ R /\ (single rgn).1.2 = Some e /\
          isAuthError unicodeLower (Some e) = false /\
          out = (Types.emptyServiceResources, Some e))).

Lemma allRegions_skipsAndFails (Rec : Type) (single : string -> Exec outcome)
    (records : Types.ServiceResources -> list Rec)
    (build : list Rec -> string -> Types.ServiceResources)
    (R : list string) (log0 : list (list string)) :
  listRegions = (R, None, log0) ->
  skipsAndFails single records build (allRegions single records build) R.
Proof.
  intros HL. split.
  - intros sched.
    destruct (aggregate_returns Rec single records build R sched) as (more & out & H).
    exists more, out. by rewrite (allRegions_returned _ _ _ _ R log0).
  - intros sched out H. rewrite (allRegions_returned _ _ _ _ R log0) in H by done.
    apply returned_explains in H. split.
    + intros Hs. apply (explains_skippable _ _ _ _ _ _ Hs) in H as (order & Hperm & ->).
      exists order. split; [done|]. rewrite finish_message.
      by destruct (List.filter (failed single) order).
    + intros Hf. by apply (explains_fatal _ _ _ _ _ _ Hf) in H.
Qed.

(** X25. The VPC, Elastic IP, Rekognition and RDS aggregations behave like
    the EC2 one.  When the regions are enumerated, each of them can always
    run on until it returns, and whatever it returns under any schedule is:
    when every failing region fails with a skippable error, no error, the
    records of the succeeding regions in arrival order and the message that
    names the failing regions (empty when there is none); when some region
    fails with an error that is not skippable, the zero value with the error
    of such a region. *)
Theorem other_aggregations_skip_and_fail (R : list string) (log0 : list (list string)) :
  listRegions = (R, None, log0) ->
  skipsAndFails getVPCsSingleRegion Types.VPCs withVPCs getVPCsAllRegions R /\
  skipsAndFails getElasticIPsSingleRegion Types.ElasticIPs withElasticIPs
    getElasticIPsAllRegions R /\
  skipsAndFails rekognitionSingleRegion Types.RekognitionCollections withCollections
    getRekognitionCollectionsAllRegions R /\
  skipsAndFails getRDSInstancesSingleRegion Types.RDSInstances withRDSInstances
    getRDSInstancesAllRegions R.
Proof.
  intros HL.
  split; [|split; [|split]]; by apply (allRegions_skipsAndFails _ _ _ _ R log0).
Qed.


End ResourceService.

Arguments main {Rec} s.
Arguments workers {Rec} s.
Arguments sem {Rec} s.
Arguments resultsCh {Rec} s.
Arguments cap {Rec} s.
Arguments closed {Rec} s.
Arguments wg {Rec} s.
Arguments closer {Rec} s.
Arguments calls {Rec} s.
Arguments returned {Rec} s.
Arguments inFlight {Rec} s.

(** Two collections and one version: the second record has no version. *)
Example projectCollections_short :
  projectCollections 0 ["faces"; "staff"] ["6.0"] "eu-west-1" =
  Some [ {| Types.CollectionID := "faces"; Types.FaceModelVersion := "6.0";
            Types.rek_Region := "eu-west-1" |};
         {| Types.CollectionID := "staff"; Types.FaceModelVersion := "";
            Types.rek_Region := "eu-west-1" |} ].
Proof. reflexivity. Qed.

(** ** [internal/profiles]: the part of the manager the cache key reads. *)
Module Profiles.

Record Manager := { activeID : string; systemAvailable : bool }.

Definition ActiveID (m : Manager) : string :=
  if String.eqb (activeID m) "" && systemAvailable m then "system" else activeID m.

End Profiles.

(** ** The caching wrapper [cachedResourceService]. *)
Section CachedResourceService.

Variable unicodeLower : string -> string.
(** [c.inner.GetResources(ctx, service, region)]: what the wrapped service
    returns to this call. *)
Variable inner : string -> string -> Types.ServiceResources * option error.
(** [c.profileManager], [None] for the nil pointer. *)
Variable profileManager : option Profiles.Manager.

Definition activeProfile : string :=
  match profileManager with
  | None => "system"
  | Some m => if String.eqb (Profiles.ActiveID m) "" then "system" else Profiles.ActiveID m
  end.

(** [fmt.Sprintf("%s|%s|%s", activeProfile, ToLower(service), ToLower(region))] *)
Definition cacheKey (service region : string) : string :=
  activeProfile +:+ "|" +:+ GoStrings.ToLower unicodeLower service
                +:+ "|" +:+ GoStrings.ToLower unicodeLower region.

(** What one call of the wrapper leaves behind: the value returned, the
    cache afterwards and the calls it made to the wrapped service. *)
Record wrapped := {
  out : Types.ServiceResources * option error;
  store : Cache.Cache Types.ServiceResources;
  innerCalls : list (string * string) }.

(** [GetResources]; [tget] and [tset] are the clock readings inside
    [cache.Get] and [cache.Set]. *)
Definition cachedGetResources (c : Cache.Cache Types.ServiceResources) (tget tset : Z)
    (service region : string) : wrapped :=
  let key := cacheKey service region in
  match Cache.Get Types.emptyServiceResources c tget key with
  | (cached, true) => {| out := (cached, None); store := c; innerCalls := [] |}
  | (_, false) =>
      match inner service region with
      | (_, Some e) =>
          {| out := (Types.emptyServiceResources, Some e); store := c;
             innerCalls := [(service, region)] |}
      | (res, None) =>
          {| out := (res, None); store := Cache.Set_ c tset key res;
             innerCalls := [(service, region)] |}
      end
  end.

(** C9. When the wrapped service answers the call with an error, the
    wrapper returns that error with the empty [ServiceResources] and the
    cache is what it was: nothing inserted, nothing overwritten.  (The
    wrapped service is asked only on a miss; the cache is untouched on a hit
    as well.) *)
Theorem cachedGetResources_error (c : Cache.Cache Types.ServiceResources) (tget tset : Z)
    (service region : string) (e : error) :
  (inner service region).2 = Some e ->
  (Cache.Get Types.emptyServiceResources c tget (cacheKey service region)).2 = false ->
  let r := cachedGetResources c tget tset service region in
  out r = (Types.emptyServiceResources, Some e) /\
  store r = c /\
  innerCalls r = [(service, region)].
Proof.
  intros He Hmiss. unfold cachedGetResources.
  destruct (Cache.Get _ c tget _) as [cached [|]]; [done|].
  destruct (inner service region) as [res [e'|]]; simpl in *; [|done].
  by injection He as ->.
Qed.

Lemma cachedGetResources_hit (c : Cache.Cache Types.ServiceResources) (tget tset : Z)
    (service region : string) (cached : Types.ServiceResources) :
  Cache.Get Types.emptyServiceResources c tget (cacheKey service region) = (cached, true) ->
  cachedGetResources c tget tset service region
    = {| out := (cached, None); store := c; innerCalls := [] |}.
Proof. intros H. unfold cachedGetResources. by rewrite H. Qed.

Lemma cachedGetResources_store_on_error (c : Cache.Cache Types.ServiceResources)
    (tget tset : Z) (service region : string) (e : error) :
  (inner service region).2 = Some e ->
  store (cachedGetResources c tget tset service region) = c.
Proof.
  intros He. unfold cachedGetResources.
  destruct (Cache.Get _ c tget _) as [cached [|]]; [done|].
  by destruct (inner service region) as [res [e'|]].
Qed.

End CachedResourceService.

(** *** The wrapper over time and across profiles. *)

Lemma Contains_bar_cons (c : ascii) (s : string) :
  GoStrings.Contains (String c s) "|" = false ->
  c <> "|"%char /\ GoStrings.Contains s "|" = false.
Proof.
  cbn [GoStrings.Contains GoStrings.HasPrefix]. rewrite andb_true_r.
  intros H. apply orb_false_elim in H as [Hc Hs]. split; [|done].
  by apply Ascii.eqb_neq.
Qed.

(** A prefix without ['|'] is determined by the joined key. *)
Lemma append_bar_inj (a b x y : string) :
  GoStrings.Contains a "|" = false -> GoStrings.Contains b "|" = false ->
  a +:+ "|" +:+ x = b +:+ "|" +:+ y -> a = b /\ x = y.
Proof.
  revert b. induction a as [|c a IH]; intros [|d b] Ha Hb Heq;
    cbv [String.append] in Heq; fold String.append in Heq.
  - by injection Heq as ->.
  - injection Heq as <- _. by apply Contains_bar_cons in Hb as [? _].
  - injection Heq as -> _. by apply Contains_bar_cons in Ha as [? _].
  - injection Heq as -> Heq.
    apply Contains_bar_cons in Ha as [_ Ha]. apply Contains_bar_cons in Hb as [_ Hb].
    destruct (IH b Ha Hb Heq) as [-> ->]. done.
Qed.

Lemma cacheKey_profiles (u : string -> string) (pm1 pm2 : option Profiles.Manager)
    (svc1 rg1 svc2 rg2 : string) :
  activeProfile pm1 <> activeProfile pm2 ->
  GoStrings.Contains (activeProfile pm1) "|" = false ->
  GoStrings.Contains (activeProfile pm2) "|" = false ->
  cacheKey u pm1 svc1 rg1 <> cacheKey u pm2 svc2 rg2.
Proof.
  intros Hne H1 H2 Heq. unfold cacheKey in Heq.
  by apply append_bar_inj in Heq as [? _].
Qed.

(** The key is a plain concatenation: an identifier that has a ['|'] can
    collide with another profile's key. *)
Example cacheKey_collision (u : string -> string) :
  cacheKey u (Some {| Profiles.activeID := "a|b"; Profiles.systemAvailable := false |}) "c" "x"
  = cacheKey u (Some {| Profiles.activeID := "a"; Profiles.systemAvailable := false |}) "b|c" "x".
Proof. reflexivity. Qed.

Lemma cachedGetResources_by_Get (u : string -> string)
    (inner : string -> string -> Types.ServiceResources * option error)
    (pm : option Profiles.Manager) (c c' : Cache.Cache Types.ServiceResources)
    (tget tset : Z) (service region : string) :
  Cache.Get Types.emptyServiceResources c' tget (cacheKey u pm service region)
    = Cache.Get Types.emptyServiceResources c tget (cacheKey u pm service region) ->
  out (cachedGetResources u inner pm c' tget tset service region)
    = out (cachedGetResources u inner pm c tget tset service region) /\
  innerCalls (cachedGetResources u inner pm c' tget tset service region)
    = innerCalls (cachedGetResources u inner pm c tget tset service region).
Proof.
  intros H. unfold cachedGetResources. rewrite H.
  destruct (Cache.Get _ c tget _) as [cached [|]]; [done|].
  by destruct (inner service region) as [res [e|]].
Qed.

(** X8. A successful answer is served from the cache for as long as the TTL
    lasts: after a miss on which the wrapped service succeeded, a later call
    under the same profile for the same service and region, in any letter
    case, made no later than the TTL after the value was stored, returns
    that value without asking the wrapped service and leaves the cache as it
    is - whatever the wrapped service would answer by then.  Once the TTL
    has passed, the wrapped service is asked again. *)
Theorem cachedGetResources_served_for_ttl (u : string -> string)
    (inner inner' : string -> string -> Types.ServiceResources * option error)
    (pm : option Profiles.Manager) (c : Cache.Cache Types.ServiceResources)
    (tget tset tget' tset' : Z) (service region service' region' : string)
    (res : Types.ServiceResources) :
  (Cache.Get Types.emptyServiceResources c tget (cacheKey u pm service region)).2 = false ->
  inner service region = (res, None) ->
  GoStrings.ToLower u service' = GoStrings.ToLower u service ->
  GoStrings.ToLower u region' = GoStrings.ToLower u region ->
  let r := cachedGetResources u inner pm c tget tset service region in
  let r' := cachedGetResources u inner' pm (store r) tget' tset' service' region' in
  out r = (res, None) /\ innerCalls r = [(service, region)] /\
  ((tget' <= tset + Cache.ttl c)%Z ->
     r' = {| out := (res, None); store := store r; innerCalls := [] |}) /\
  ((tset + Cache.ttl c < tget')%Z -> innerCalls r' = [(service', region')]).
Proof.
  intros Hmiss Hin Hs Hr r r'.
  assert (Hkey : cacheKey u pm service' region' = cacheKey u pm service region).
  { unfold cacheKey. by rewrite Hs, Hr. }
  assert (Hr1 : r = {| out := (res, None);
                       store := Cache.Set_ c tset (cacheKey u pm service region) res;
                       innerCalls := [(service, region)] |}).
  { subst r. unfold cachedGetResources.
    destruct (Cache.Get _ c tget _) as [cached [|]]; [done|]. by rewrite Hin. }
  subst r'. rewrite Hr1. cbn [out store innerCalls]. repeat split.
  - intros Hle. apply cachedGetResources_hit. rewrite Hkey. by apply Cache.Get_Set_fresh.
  - intros Hlt. unfold cachedGetResources. rewrite Hkey, Cache.Get_Set_expired by done.
    by destruct (inner' service' region') as [res' [e|]].
Qed.

(** X9. Profiles do not see each other's cached answers: when the active
    profile identifiers of two wrappers differ (and, as for the generated
    identifiers, have no ['|']), a call made under the first one changes
    neither the value nor the calls to the wrapped service of any call under
    the second one. *)
Theorem cachedGetResources_profiles_isolated (u : string -> string)
    (inner1 inner2 : string -> string -> Types.ServiceResources * option error)
    (pm1 pm2 : option Profiles.Manager) (c : Cache.Cache Types.ServiceResources)
    (t1 t1' t2 t2' : Z) (svc1 rg1 svc2 rg2 : string) :
  activeProfile pm1 <> activeProfile pm2 ->
  GoStrings.Contains (activeProfile pm1) "|" = false ->
  GoStrings.Contains (activeProfile pm2) "|" = false ->
  let r1 := cachedGetResources u inner1 pm1 c t1 t1' svc1 rg1 in
  out (cachedGetResources u inner2 pm2 (store r1) t2 t2' svc2 rg2)
    = out (cachedGetResources u inner2 pm2 c t2 t2' svc2 rg2) /\
  innerCalls (cachedGetResources u inner2 pm2 (store r1) t2 t2' svc2 rg2)
    = innerCalls (cachedGetResources u inner2 pm2 c t2 t2' svc2 rg2).
Proof.
  intros Hne H1 H2 r1. apply cachedGetResources_by_Get.
  pose proof (cacheKey_profiles u pm1 pm2 svc1 rg1 svc2 rg2 Hne H1 H2) as Hk.
  subst r1. unfold cachedGetResources.
  destruct (Cache.Get _ c t1 _) as [cached [|]]; [done|].
  destruct (inner1 svc1 rg1) as [res [e|]]; [done|].
  cbn [store]. unfold Cache.Get, Cache.Set_. cbn [Cache.data].
  by rewrite lookup_insert_ne.
Qed.


(** ** More facts about the string functions, for the request paths. *)
Module GoPathFacts.
Import GoStrings.

Lemma append_cons (c : ascii) (a b : string) : String c a +:+ b = String c (a +:+ b).
Proof. reflexivity. Qed.

Lemma append_nil_l (b : string) : "" +:+ b = b.
Proof. reflexivity. Qed.

Lemma append_nil_r (a : string) : a +:+ "" = a.
Proof. induction a as [|c a IH]; [done|]. by rewrite append_cons, IH. Qed.

Lemma append_assoc (a b c : string) : (a +:+ b) +:+ c = a +:+ (b +:+ c).
Proof. induction a as [|x a IH]; [done|]. by rewrite !append_cons, IH. Qed.

Lemma Contains_byte_cons (d c : ascii) (s : string) :
  Contains (String c s) (String d "") = false ->
  c <> d /\ Contains s (String d "") = false.
Proof.
  cbn [Contains HasPrefix]. rewrite andb_true_r.
  intros H. apply orb_false_elim in H as [Hc Hs]. split; [|done].
  by apply Ascii.eqb_neq.
Qed.

Lemma TrimPrefix_app (p x : string) : TrimPrefix (p +:+ x) p = x.
Proof.
  unfold TrimPrefix.
  assert (H : HasPrefix (p +:+ x) p = true) by (apply GoStringsFacts.HasPrefix_spec; by exists x).
  rewrite H. clear H. induction p as [|c p IH]; [done|]. exact IH.
Qed.

Lemma TrimRight_app (a b cutset : string) :
  b <> "" -> TrimRight b cutset = b -> TrimRight (a +:+ b) cutset = a +:+ b.
Proof.
  intros Hb Hfix. induction a as [|c a IH]; [done|].
  rewrite append_cons. cbn [TrimRight]. rewrite IH.
  destruct (a +:+ b) eqn:Hab; [|done].
  destruct a; [by rewrite append_nil_l in Hab | done].
Qed.

Lemma splitFrom_no_sep (d : ascii) (s rest cur : string) :
  Contains s (String d "") = false ->
  splitFrom (String d "") 0 cur (s +:+ String d rest)
    = (cur +:+ s) :: splitFrom (String d "") 0 "" rest.
Proof.
  revert cur. induction s as [|c s IH]; intros cur Hs.
  - rewrite append_nil_l, append_nil_r. cbn [splitFrom HasPrefix].
    by rewrite Ascii.eqb_refl.
  - apply Contains_byte_cons in Hs as [Hc Hs].
    rewrite append_cons. cbn [splitFrom HasPrefix].
    apply Ascii.eqb_neq in Hc. rewrite Hc. cbn [andb].
    rewrite IH by done. f_equal. by rewrite append_assoc.
Qed.

End GoPathFacts.


(** ** [internal/httpserver]: the two resource handlers.

    A handler is a function of the request and of what the resource service
    answers; its result is the status written and the value encoded as the
    JSON body. *)
Module HttpServer.

Record Request := {
  Method : string;       (* r.Method *)
  Path : string;         (* r.URL.Path *)
  QueryRegion : string   (* r.URL.Query().Get("region") *) }.

(** The values the handlers encode. *)
Inductive Body :=
| NoBody
| ErrorBody (Error Details : string)                 (* errorResponse *)
| ResourcesBody (v : Types.ServiceResources)
| SummaryBody (summaries : list Types.ResourceSummary).  (* ResourcesSummaryResponse *)

Record Response := { status : nat; body : Body }.

Definition StatusOK : nat := 200.
Definition StatusBadRequest : nat := 400.
Definition StatusNotFound : nat := 404.
Definition StatusMethodNotAllowed : nat := 405.
Definition StatusInternalServerError : nat := 500.

Section Handlers.

(** [s.resourceService.GetResources(ctx, service, region)] *)
Variable GetResources : string -> string -> Types.ServiceResources * option error.

Definition handleServiceResources (r : Request) : Response :=
  if negb (String.eqb (Method r) "GET")
  then {| status := StatusMethodNotAllowed; body := NoBody |}
  else
    let path := GoStrings.TrimPrefix (Path r) "/api/services/" in
    if String.eqb path ""
    then {| status := StatusBadRequest; body := ErrorBody "Service name is required" "" |}
    else
      let parts := GoStrings.Split (GoStrings.Trim path "/") "/" in
      match parts with
      | service :: second :: _ =>
          if negb (String.eqb second "resources")
          then {| status := StatusNotFound; body := ErrorBody "Not found" "" |}
          else
            match GetResources service (QueryRegion r) with
            | (_, Some e) =>
                {| status := StatusInternalServerError;
                   body := ErrorBody "Failed to fetch resources" e |}
            | (resources, None) =>
                {| status := StatusOK; body := ResourcesBody resources |}
            end
      | _ => {| status := StatusNotFound; body := ErrorBody "Not found" "" |}
      end.

Record svcDef := { Key : string; DisplayName : string; ResourceKey : string }.

Definition servicesToCheck : list svcDef :=
  [ {| Key := "ec2"; DisplayName := "EC2"; ResourceKey := "ec2Instances" |};
    {| Key := "vpc"; DisplayName := "VPC"; ResourceKey := "vpcs" |};
    {| Key := "eip"; DisplayName := "Elastic IPs"; ResourceKey := "elasticIps" |};
    {| Key := "s3"; DisplayName := "S3"; ResourceKey := "s3Buckets" |};
    {| Key := "rekognition"; DisplayName := "Rekognition";
       ResourceKey := "rekognitionCollections" |};
    {| Key := "rds"; DisplayName := "RDS"; ResourceKey := "rdsInstances" |} ].

(** [switch svc.ResourceKey { case "ec2Instances": count = len(res.EC2) ... }] *)
Definition countFor (resourceKey : string) (res : Types.ServiceResources) : nat :=
  if String.eqb resourceKey "ec2Instances" then length (Types.EC2 res)
  else if String.eqb resourceKey "vpcs" then length (Types.VPCs res)
  else if String.eqb resourceKey "elasticIps" then length (Types.ElasticIPs res)
  else if String.eqb resourceKey "s3Buckets" then length (Types.S3Buckets res)
  else if String.eqb resourceKey "rekognitionCollections"
       then length (Types.RekognitionCollections res)
  else if String.eqb resourceKey "rdsInstances" then length (Types.RDSInstances res)
  else 0.

(** [type result struct { Svc svcDef; Count int; Err error }], what the
    goroutine of one service sends on [resultsCh]. *)
Record result := { Svc : svcDef; Count : nat; Err : option error }.

(** The goroutine of one service: its one call
    [GetResources(ctx, svc.Key, "all")], logged, and the result it sends. *)
Definition fetchCount (svc : svcDef) : result * list (string * string) :=
  (match GetResources (Key svc) "all" with
   | (_, Some e) => {| Svc := svc; Count := 0; Err := Some e |}
   | (res, None) => {| Svc := svc; Count := countFor (ResourceKey svc) res; Err := None |}
   end,
   [(Key svc, "all")]).

(** The receiving loop: a result with an error is logged and skipped. *)
Fixpoint summarize (received : list result) : list Types.ResourceSummary :=
  match received with
  | [] => []
  | r :: rest =>
      match Err r with
      | Some _ => summarize rest
      | None =>
          {| Types.sum_Service := Key (Svc r);
             Types.sum_DisplayName := DisplayName (Svc r);
             Types.sum_ResourceType := ResourceKey (Svc r);
             Types.sum_Count := Count r |} :: summarize rest
      end
  end.

(** [handleResourcesSummary]: one goroutine per service sends its result on
    a channel with room for all of them, and the handler receives
    [len(servicesToCheck)] results.  [arrival] is the order in which the
    goroutines sent, a permutation of [servicesToCheck].  The second
    component is the calls the goroutines made to the resource service,
    listed in that order. *)
Definition handleResourcesSummary (r : Request) (arrival : list svcDef)
  : Response * list (string * string) :=
  if negb (String.eqb (Method r) "GET")
  then ({| status := StatusMethodNotAllowed; body := NoBody |}, [])
  else
    let sent := map fetchCount arrival in
    ({| status := StatusOK; body := SummaryBody (summarize (map fst sent)) |},
     flat_map snd sent).

(** The supported kinds as the specification has them: the service key,
    the display name, the resource type, and the list whose length is the
    count. *)
Record kind := {
  kind_Service : string;
  kind_DisplayName : string;
  kind_ResourceType : string;
  kind_count : Types.ServiceResources -> nat }.

Definition supportedKinds : list kind :=
  [ {| kind_Service := "ec2"; kind_DisplayName := "EC2"; kind_ResourceType := "ec2Instances";
       kind_count := fun res => length (Types.EC2 res) |};
    {| kind_Service := "vpc"; kind_DisplayName := "VPC"; kind_ResourceType := "vpcs";
       kind_count := fun res => length (Types.VPCs res) |};
    {| kind_Service := "eip"; kind_DisplayName := "Elastic IPs";
       kind_ResourceType := "elasticIps";
       kind_count := fun res => length (Types.ElasticIPs res) |};
    {| kind_Service := "s3"; kind_DisplayName := "S3"; kind_ResourceType := "s3Buckets";
       kind_count := fun res => length (Types.S3Buckets res) |};
    {| kind_Service := "rekognition"; kind_DisplayName := "Rekognition";
       kind_ResourceType := "rekognitionCollections";
       kind_count := fun res => length (Types.RekognitionCollections res) |};
    {| kind_Service := "rds"; kind_DisplayName := "RDS"; kind_ResourceType := "rdsInstances";
       kind_count := fun res => length (Types.RDSInstances res) |} ].

(** The summary of the kinds [order]: a count for each kind whose call
    succeeded, nothing for the others. *)
Definition countsOf (order : list kind) : list Types.ResourceSummary :=
  flat_map (fun k =>
              match GetResources (kind_Service k) "all" with
              | (res, None) =>
                  [ {| Types.sum_Service := kind_Service k;
                       Types.sum_DisplayName := kind_DisplayName k;
                       Types.sum_ResourceType := kind_ResourceType k;
                       Types.sum_Count := kind_count k res |} ]
              | (_, Some _) => []
              end) order.

(** What the code's table says of one service. *)
Definition kindOf (svc : svcDef) : kind :=
  {| kind_Service := Key svc; kind_DisplayName := DisplayName svc;
     kind_ResourceType := ResourceKey svc; kind_count := countFor (ResourceKey svc) |}.

Lemma servicesToCheck_kinds : map kindOf servicesToCheck = supportedKinds.
Proof. reflexivity. Qed.

Lemma summarize_countsOf (arrival : list svcDef) :
  summarize (map fst (map fetchCount arrival)) = countsOf (map kindOf arrival).
Proof.
  unfold countsOf. induction arrival as [|svc arrival IH]; [done|].
  cbn [map flat_map fst fetchCount kindOf kind_Service kind_DisplayName kind_ResourceType
       kind_count].
  destruct (GetResources (Key svc) "all") as [res [e|]]; cbn [summarize Err Svc Count app].
  - exact IH.
  - by rewrite IH.
Qed.

Lemma fetchCount_calls (arrival : list svcDef) :
  flat_map snd (map fetchCount arrival)
  = map (fun k => (kind_Service k, "all")) (map kindOf arrival).
Proof. induction arrival as [|svc arrival IH]; [done|]. cbn. by rewrite <- IH. Qed.

Lemma summarize_no_error (received : list result) :
  Forall (fun s => exists r, r ∈ received /\ Err r = None /\
            s = {| Types.sum_Service := Key (Svc r);
                   Types.sum_DisplayName := DisplayName (Svc r);
                   Types.sum_ResourceType := ResourceKey (Svc r);
                   Types.sum_Count := Count r |})
         (summarize received).
Proof.
  induction received as [|r rest IH]; simpl; [done|].
  assert (IH' : Forall (fun s => exists r0, r0 ∈ r :: rest /\ Err r0 = None /\
            s = {| Types.sum_Service := Key (Svc r0);
                   Types.sum_DisplayName := DisplayName (Svc r0);
                   Types.sum_ResourceType := ResourceKey (Svc r0);
                   Types.sum_Count := Count r0 |}) (summarize rest)).
  { eapply Forall_impl; [exact IH|]. intros s (r0 & Hin & He & ->).
    exists r0. split; [by right | done]. }
  destruct (Err r) eqn:He; [done|]. constructor; [|done].
  exists r. split; [by left | done].
Qed.

(** C8, as the code has it.  For a GET whose path parses to a service:
    the resources handler answers 200 with the resources when the call
    succeeds and 500 with [{error, details}], the details being the error's
    message, when it fails.  The summary handler asks the service exactly
    once per supported kind with the region ["all"] and always answers 200:
    for the order in which the kinds arrive, its body has, in that order,
    the service key, display name, resource type and number of records of
    each kind whose call succeeded, and nothing for a kind whose call
    failed. *)
Theorem resource_handlers_status (r : Request) (service : string) (rest : list string)
    (arrival : list svcDef) :
  Method r = "GET" ->
  GoStrings.TrimPrefix (Path r) "/api/services/" <> "" ->
  GoStrings.Split (GoStrings.Trim (GoStrings.TrimPrefix (Path r) "/api/services/") "/") "/"
    = service :: "resources" :: rest ->
  Permutation arrival servicesToCheck ->
  (forall res, GetResources service (QueryRegion r) = (res, None) ->
     handleServiceResources r = {| status := 200; body := ResourcesBody res |}) /\
  (forall res e, GetResources service (QueryRegion r) = (res, Some e) ->
     handleServiceResources r
       = {| status := 500; body := ErrorBody "Failed to fetch resources" e |}) /\
  (exists order,
     Permutation order supportedKinds /\
     handleResourcesSummary r arrival
       = ({| status := 200; body := SummaryBody (countsOf order) |},
          map (fun k => (kind_Service k, "all")) order)) /\
  Permutation (handleResourcesSummary r arrival).2
    [("ec2", "all"); ("vpc", "all"); ("eip", "all"); ("s3", "all");
     ("rekognition", "all"); ("rds", "all")].
Proof.
  intros Hm Hpath Hparts Hperm.
  assert (Hsum : handleResourcesSummary r arrival
                 = ({| status := 200; body := SummaryBody (countsOf (map kindOf arrival)) |},
                    map (fun k => (kind_Service k, "all")) (map kindOf arrival))).
  { unfold handleResourcesSummary. rewrite Hm. cbn [String.eqb Ascii.eqb Bool.eqb negb].
    cbv zeta. by rewrite summarize_countsOf, fetchCount_calls. }
  assert (Hkinds : Permutation (map kindOf arrival) supportedKinds).
  { rewrite <- servicesToCheck_kinds. by apply Permutation_map. }
  unfold handleServiceResources. rewrite Hm. simpl negb.
  cbv iota. rewrite Hparts.
  destruct (String.eqb_spec (GoStrings.TrimPrefix (Path r) "/api/services/") "");
    [done|].
  simpl. split; [|split; [|split]].
  - intros res ->. done.
  - intros res e ->. done.
  - by exists (map kindOf arrival).
  - rewrite Hsum. cbn [snd].
    change [("ec2", "all"); ("vpc", "all"); ("eip", "all"); ("s3", "all");
            ("rekognition", "all"); ("rds", "all")]
      with (map (fun k => (kind_Service k, "all")) supportedKinds).
    by apply Permutation_map.
Qed.

(** X14. Routing of the resources endpoint: for every service name that is
    not empty and has no ['/'], a GET of [/api/services/<service>/resources]
    asks the resource service for exactly that service and the [region]
    query parameter, and answers 200 with what it returns, or 500 with the
    error's message as details. *)
Theorem handleServiceResources_route (r : Request) (service : string) :
  Method r = "GET" ->
  Path r = "/api/services/" +:+ service +:+ "/resources" ->
  service <> "" ->
  GoStrings.Contains service "/" = false ->
  handleServiceResources r =
    match GetResources service (QueryRegion r) with
    | (_, Some e) => {| status := 500; body := ErrorBody "Failed to fetch resources" e |}
    | (resources, None) => {| status := 200; body := ResourcesBody resources |}
    end.
Proof.
  intros Hm Hp Hne Hslash. unfold handleServiceResources. rewrite Hm, Hp.
  rewrite GoPathFacts.TrimPrefix_app. cbn [String.eqb negb].
  destruct service as [|c service]; [done|].
  apply GoPathFacts.Contains_byte_cons in Hslash as Hc. destruct Hc as [Hc _].
  assert (Htrim : GoStrings.Trim (String c service +:+ "/resources") "/"
                  = String c service +:+ "/resources").
  { unfold GoStrings.Trim. rewrite GoPathFacts.append_cons. cbn [GoStrings.TrimLeft GoStrings.inCutset].
    apply Ascii.eqb_neq in Hc. rewrite Hc. cbn [orb].
    rewrite <- GoPathFacts.append_cons. by apply GoPathFacts.TrimRight_app. }
  rewrite Htrim.
  replace (String.eqb (String c service +:+ "/resources") "") with false
    by (by rewrite GoPathFacts.append_cons).
  unfold GoStrings.Split.
  rewrite (GoPathFacts.splitFrom_no_sep "/" (String c service) "resources" "") by done.
  rewrite GoPathFacts.append_nil_l. cbn.
  by destruct (GetResources (String c service) (QueryRegion r)) as [res [e|]].
Qed.


End Handlers.

End HttpServer.

(** ** Package commands: the configured and the raw CLI commands. *)
Module Commands.

Record Command := {
  ID : string;
  Label : string;
  Description : string;
  Service : string;
  Args : list string;
  SupportsRegion : bool }.

(** What [os.ReadFile(configPath)] gives. *)
Inductive file :=
| NotExist
| ReadError (e : error)
| Data (data : bytes).

(** [Manager]; its field [exec] is the parameter [RunJSON] below. *)
Record Manager := { commands : gmap string Command }.

Section Manager.

Variable RunJSON : list string -> bytes * option error.
Variable unmarshalCommands : bytes -> decoded (list Command).
(** [strings.TrimSpace] and [strconv.Quote] (the verb [%q]) *)
Variable TrimSpace : string -> string.
Variable Quote : string -> string.

(** One iteration of the loop of [LoadManager] over the decoded list. *)
Definition keep (commands : gmap string Command) (c : Command) : gmap string Command :=
  if String.eqb (ID c) "" || (length (Args c) =? 0)%nat
  then commands
  else <[ID c := c]> commands.

(** [LoadManager]: [None] is the nil [*Manager]. *)
Definition LoadManager (config : file) : option Manager * option error :=
  match config with
  | ReadError e => (None, Some (wrapError "failed to read command config" e))
  | NotExist => (Some {| commands := ∅ |}, None)
  | Data data =>
      match unmarshalCommands data with
      | DecodeError e => (None, Some (wrapError "failed to parse command config" e))
      | Decoded list => (Some {| commands := fold_left keep list ∅ |}, None)
      end
  end.

(** [Execute] *)
Definition Execute (m : Manager) (id region : string)
  : Exec (bytes * list string * option error) :=
  match commands m !! id with
  | None => mret ([], [], Some ("unknown command id " +:+ Quote id))
  | Some cmd =>
      let args :=
        if SupportsRegion cmd && negb (String.eqb (TrimSpace region) "")
        then Args cmd ++ ["--region"; region]
        else Args cmd in
      '(out, err) ← (RunJSON args, [args]);
      match err with
      | Some e => mret ([], [], Some e)
      | None => mret (out, args, None)
      end
  end.

(** [ExecuteRaw] *)
Definition ExecuteRaw (args : list string) : Exec (bytes * list string * option error) :=
  match args with
  | [] => mret ([], [], Some "no arguments provided")
  | _ =>
      '(out, err) ← (RunJSON args, [args]);
      match err with
      | Some e => mret ([], [], Some e)
      | None => mret (out, args, None)
      end
  end.

Lemma keep_lookup (list : list Command) (m : gmap string Command) (id : string)
    (c : Command) :
  fold_left keep list m !! id = Some c ->
  m !! id = Some c \/ (c ∈ list /\ ID c = id /\ id <> "" /\ Args c <> []).
Proof.
  revert m. induction list as [|c0 list IH]; intros m H; [by left|].
  simpl in H. apply IH in H as [H | (Hin & Hrest)].
  - unfold keep in H.
    destruct (String.eqb_spec (ID c0) "") as [|Hid]; cbn [orb] in H; [by left|].
    destruct (Args c0) as [|a0 args0] eqn:Hargs; cbn in H; [by left|].
    destruct (decide (ID c0 = id)) as [Heq | Hne].
    + rewrite Heq, lookup_insert_eq in H. injection H as <-. right.
      split; [by left|]. rewrite Hargs. by rewrite <- Heq.
    + rewrite lookup_insert_ne in H by done. by left.
  - right. split; [by right | done].
Qed.

(** X15. The configured runner executes nothing but the configuration: for
    a manager loaded from a configuration file, [Execute] makes no call for
    an identifier that is not configured, and otherwise makes exactly one
    call, whose argument vector is the [Args] of an entry of the file with
    that (non-empty) identifier and at least one argument, followed by
    [--region <region>] only for an entry that supports a region. *)
Theorem Execute_only_configured (config : file) (m : Manager) (id region : string) :
  LoadManager config = (Some m, None) ->
  (commands m !! id = None /\ (Execute m id region).2 = []) \/
  exists (c : Command) (listed : list Command),
    (config = NotExist \/ exists data, config = Data data /\ unmarshalCommands data = Decoded listed) /\
    c ∈ listed /\ ID c = id /\ id <> "" /\ Args c <> [] /\
    ((Execute m id region).2 = [Args c] \/
     (SupportsRegion c = true /\ (Execute m id region).2 = [Args c ++ ["--region"; region]])).
Proof.
  intros Hload. unfold Execute.
  destruct (commands m !! id) as [c|] eqn:Hm; [|by left]. right.
  assert (Hlisted : exists listed,
             (config = NotExist \/
              exists data, config = Data data /\ unmarshalCommands data = Decoded listed) /\
             commands m = fold_left keep listed ∅).
  { destruct config as [| e | data]; simpl in Hload.
    - injection Hload as <-. exists []. split; [by left | done].
    - done.
    - destruct (unmarshalCommands data) as [listed | e] eqn:Hd; [|done].
      injection Hload as <-. exists listed. split; [|done]. right. by exists data. }
  destruct Hlisted as (listed & Hcfg & Hcmds). rewrite Hcmds in Hm.
  apply keep_lookup in Hm as [Hm | (Hin & Hid & Hne & Hargs)]; [by rewrite lookup_empty in Hm|].
  exists c, listed. repeat split; try done.
  destruct (SupportsRegion c); cbn [andb].
  - destruct (negb _); cbn.
    + right. split; [done|]. by destruct (RunJSON _) as [out [e|]].
    + left. by destruct (RunJSON _) as [out [e|]].
  - left. cbn. by destruct (RunJSON _) as [out [e|]].
Qed.

End Manager.
End Commands.

(** ** [internal/httpserver]: the raw command endpoint and its filter. *)
Module HttpCommands.

(** The blocklist of [isSafeAWSArgs]. *)
Definition block : list string :=
  [ " delete-"; " delete";
    " terminate-"; " terminate";
    " stop-"; " stop ";
    " start-"; " start ";
    " reboot-"; " reboot";
    " destroy"; " drop-";
    " modify-"; " update-";
    " put-"; " create-";
    " attach-"; " detach-" ].

(** [isSafeAWSArgs] *)
Definition isSafeAWSArgs (unicodeLower : string -> string) (args : list string) : bool :=
  match args with
  | [] => false
  | _ =>
      let joined := GoStrings.ToLower unicodeLower (GoStrings.Join args " ") in
      forallb (fun b => negb (GoStrings.Contains joined b)) block
  end.

Inductive Body :=
| NoBody
| ErrorBody (Error Details : string)
| CommandBody (Command : string) (Output : bytes).

Record Response := { status : nat; body : Body }.

Section Handlers.

Variable unicodeLower : string -> string.
(** [strings.Fields] *)
Variable Fields : string -> list string.
Variable RunJSON : list string -> bytes * option error.
Variable TrimSpace : string -> string.
Variable Quote : string -> string.
(** [s.commandManager], [None] for the nil pointer. *)
Variable commandManager : option Commands.Manager.
(** Whether [encoding/json] encodes [json.RawMessage(out)]: it does when
    the bytes are valid JSON (and for the nil slice, as ["null"]). *)
Variable rawEncodes : bytes -> bool.

(** [writeJSON(w, http.StatusOK, res)] with the command and its output:
    the status is written first and the error of [Encode] is discarded, so
    output that does not encode leaves the status 200 with an empty body. *)
Definition writeResult (command : string) (out : bytes) : Response :=
  {| status := 200;
     body := if rawEncodes out then CommandBody command out else NoBody |}.

(** [handleExecuteRawCommand]; [decodedArgs] is what decoding the request
    body gives for its field [args]. *)
Definition handleExecuteRawCommand (method : string) (decodedArgs : decoded string)
  : Exec Response :=
  if negb (String.eqb method "POST")
  then mret {| status := 405; body := NoBody |}
  else
    match commandManager with
    | None =>
        mret {| status := 500;
                body := ErrorBody "Command execution is not configured on server" "" |}
    | Some _ =>
        match decodedArgs with
        | DecodeError e => mret {| status := 400; body := ErrorBody "Invalid request body" e |}
        | Decoded args =>
            let fields := Fields args in
            if (length fields =? 0)%nat
            then mret {| status := 400; body := ErrorBody "No command provided" "" |}
            else if negb (isSafeAWSArgs unicodeLower fields)
            then mret {| status := 400;
                         body := ErrorBody "Command blocked by safety filter"
                                   "Only read/list/describe operations are allowed from the dashboard." |}
            else
              '(out, args', err) ← Commands.ExecuteRaw RunJSON fields;
              match err with
              | Some msg =>
                  if GoStrings.Contains msg "usage: aws"
                     || GoStrings.Contains msg "argument command: Invalid choice"
                  then mret {| status := 400;
                               body := ErrorBody "Invalid AWS CLI syntax"
                                         "Use: <service> <operation> [parameters], e.g. 'ec2 describe-instances --region ap-south-1'." |}
                  else mret {| status := 400; body := ErrorBody "Failed to execute command" msg |}
              | None => mret (writeResult ("aws " +:+ GoStrings.Join args' " ") out)
              end
        end
    end.

(** [handleExecuteCommand]; [decodedBody] is the decoded [(id, region)]. *)
Definition handleExecuteCommand (method : string) (decodedBody : decoded (string * string))
  : Exec Response :=
  if negb (String.eqb method "POST")
  then mret {| status := 405; body := NoBody |}
  else
    match commandManager with
    | None =>
        mret {| status := 500;
                body := ErrorBody "Command execution is not configured on server" "" |}
    | Some m =>
        match decodedBody with
        | DecodeError e => mret {| status := 400; body := ErrorBody "Invalid request body" e |}
        | Decoded (id, region) =>
            '(out, args, err) ← Commands.Execute RunJSON TrimSpace Quote m id region;
            match err with
            | Some msg =>
                if GoStrings.Contains msg "usage: aws"
                   || GoStrings.Contains msg "argument command: Invalid choice"
                then mret {| status := 400;
                             body := ErrorBody "Invalid AWS command configuration"
                                       "The configured command is not a valid aws CLI command. Please check command-config.json." |}
                else mret {| status := 400; body := ErrorBody "Failed to execute command" msg |}
            | None => mret (writeResult ("aws " +:+ GoStrings.Join args " ") out)
            end
        end
    end.

End Handlers.

(** *** Lower-casing and joining, piece by piece. *)

Lemma isASCII_app (a b : string) :
  GoStrings.isASCII (a +:+ b) = GoStrings.isASCII a && GoStrings.isASCII b.
Proof.
  induction a as [|c a IH]; [done|].
  rewrite GoPathFacts.append_cons. cbn [GoStrings.isASCII]. by rewrite IH, andb_assoc.
Qed.

Lemma mapBytes_app (f : ascii -> ascii) (a b : string) :
  GoStrings.mapBytes f (a +:+ b) = GoStrings.mapBytes f a +:+ GoStrings.mapBytes f b.
Proof.
  induction a as [|c a IH]; [done|].
  rewrite GoPathFacts.append_cons. cbn [GoStrings.mapBytes]. by rewrite IH.
Qed.

Lemma Join_head (args : list string) (a sep : string) :
  args !! 0%nat = Some a -> exists post, GoStrings.Join args sep = a +:+ post.
Proof.
  destruct args as [|x [|y rest]]; intros [= <-].
  - exists "". by rewrite GoPathFacts.append_nil_r.
  - by eexists.
Qed.

Lemma Join_lookup (args : list string) (i : nat) (a sep : string) :
  args !! i = Some a -> (0 < i)%nat ->
  exists pre post, GoStrings.Join args sep = pre +:+ sep +:+ a +:+ post.
Proof.
  revert i. induction args as [|x rest IH]; intros i Hi Hpos; [done|].
  destruct i as [|i]; [lia|]. simpl in Hi.
  assert (Hjoin : GoStrings.Join (x :: rest) sep = x +:+ sep +:+ GoStrings.Join rest sep).
  { destruct rest; [done | reflexivity]. }
  rewrite Hjoin. destruct i as [|i].
  - destruct (Join_head rest a sep Hi) as (post & ->). by exists x, post.
  - destruct (IH (S i) Hi ltac:(lia)) as (pre & post & ->).
    exists (x +:+ sep +:+ pre), post. by rewrite !GoPathFacts.append_assoc.
Qed.

(** X16. The safety filter refuses every command line that has a blocked
    verb at the start of any argument after the first: when the joined
    arguments are ASCII and the lower-cased argument at a position [i > 0]
    begins with what follows the blank of a blocklist entry ([delete],
    [terminate], [reboot], [destroy], [stop-], [start-], [drop-], [modify-],
    [update-], [put-], [create-], [attach-], [detach-]), the arguments are
    not safe - in any letter case and whatever the other arguments are. *)
Theorem isSafeAWSArgs_blocks (unicodeLower : string -> string) (args : list string)
    (i : nat) (a verb : string) :
  args !! i = Some a ->
  (0 < i)%nat ->
  GoStrings.isASCII (GoStrings.Join args " ") = true ->
  In (" " +:+ verb) block ->
  GoStrings.HasPrefix (GoStrings.ToLower unicodeLower a) verb = true ->
  isSafeAWSArgs unicodeLower args = false.
Proof.
  intros Hi Hpos Hascii Hb Hpre. unfold isSafeAWSArgs.
  destruct args as [|x rest] eqn:Hargs; [done|]. rewrite <- Hargs in *.
  destruct (Join_lookup args i a " " Hi Hpos) as (pre & post & Hjoin).
  rewrite Hjoin in Hascii |- *.
  rewrite !isASCII_app, !andb_true_iff in Hascii. destruct Hascii as (Hp & _ & Ha & Hpost).
  unfold GoStrings.ToLower in Hpre |- *. rewrite Ha in Hpre.
  rewrite !isASCII_app, Hp, Ha, Hpost. cbn [GoStrings.isASCII andb negb GoStrings.isRuneSelf].
  replace (128 <=? nat_of_ascii " ")%nat with false by reflexivity. cbn [negb andb].
  rewrite !mapBytes_app.
  apply GoStringsFacts.HasPrefix_spec in Hpre as (t & Ht). rewrite Ht.
  apply not_true_iff_false. intros Hall.
  rewrite forallb_forall in Hall. specialize (Hall _ Hb).
  apply negb_true_iff, GoStringsFacts.Contains_false in Hall. apply Hall.
  exists (GoStrings.mapBytes GoStrings.lowerByte pre),
         (t +:+ GoStrings.mapBytes GoStrings.lowerByte post).
  change (GoStrings.mapBytes GoStrings.lowerByte " ") with " ".
  by rewrite !GoPathFacts.append_assoc.
Qed.

(** X17. The raw endpoint hands the executor nothing the filter refused:
    every call it makes is for a POST with a configured command manager and
    a body that decoded, and its argument vector is the fields of the
    body's [args], non-empty and accepted by [isSafeAWSArgs]; there is at
    most one call.  A command line the filter refuses is answered 400
    ["Command blocked by safety filter"] with no call at all. *)
Theorem handleExecuteRawCommand_filtered (unicodeLower : string -> string)
    (Fields : string -> list string) (RunJSON : list string -> bytes * option error)
    (commandManager : option Commands.Manager) (rawEncodes : bytes -> bool)
    (method : string) (decodedArgs : decoded string) :
  let r := handleExecuteRawCommand unicodeLower Fields RunJSON commandManager rawEncodes
             method decodedArgs in
  (r.2 = [] \/
   exists args, r.2 = [Fields args] /\ method = "POST" /\ is_Some commandManager /\
     decodedArgs = Decoded args /\ Fields args <> [] /\
     isSafeAWSArgs unicodeLower (Fields args) = true) /\
  (forall args, method = "POST" -> is_Some commandManager -> decodedArgs = Decoded args ->
     Fields args <> [] -> isSafeAWSArgs unicodeLower (Fields args) = false ->
     r = ({| status := 400;
             body := ErrorBody "Command blocked by safety filter"
                       "Only read/list/describe operations are allowed from the dashboard." |},
          [])).
Proof.
  intros r. subst r. unfold handleExecuteRawCommand. split.
  - destruct (String.eqb_spec method "POST") as [-> | Hm]; cbn [negb]; [|by left].
    destruct commandManager as [m|]; [|by left].
    destruct decodedArgs as [args | e]; [|by left].
    destruct (Fields args) as [|f fields] eqn:Hf; [by left|]. cbn [length Nat.eqb].
    destruct (isSafeAWSArgs unicodeLower (f :: fields)) eqn:Hsafe; cbn [negb]; [|by left].
    right. exists args. rewrite Hf. repeat split; try done.
    unfold Commands.ExecuteRaw. cbn.
    destruct (RunJSON (f :: fields)) as [out [e|]]; cbn; [|done].
    by destruct (_ || _).
  - intros args -> [m ->] -> Hne Hsafe. cbn [String.eqb Ascii.eqb Bool.eqb negb].
    destruct (Fields args) as [|f fields]; [done|]. cbn [length Nat.eqb].
    by rewrite Hsafe.
Qed.

(** X26. The configured endpoint answers 200 exactly when it ran a
    configured command and the run succeeded.  It makes no executor call
    unless the request is a POST whose body decodes to an identifier the
    manager has, and then makes the one call [Execute] makes for it; the
    status is 200 if and only if that call was made and succeeded.  The
    body then shows ["aws "] followed by the arguments that were run and
    the output of the run when that output encodes as JSON, and is empty
    when it does not. *)
Theorem handleExecuteCommand_status (RunJSON : list string -> bytes * option error)
    (TrimSpace Quote : string -> string) (commandManager : option Commands.Manager)
    (rawEncodes : bytes -> bool) (method : string)
    (decodedBody : decoded (string * string)) :
  let r := handleExecuteCommand RunJSON TrimSpace Quote commandManager rawEncodes
             method decodedBody in
  (r.2 = [] \/
   exists m id region c,
     method = "POST" /\ commandManager = Some m /\ decodedBody = Decoded (id, region) /\
     Commands.commands m !! id = Some c /\
     (r.2 = [Commands.Args c] \/
      (Commands.SupportsRegion c = true /\ r.2 = [Commands.Args c ++ ["--region"; region]]))) /\
  (status r.1 = 200 <->
   exists args out, r.2 = [args] /\ RunJSON args = (out, None) /\
     (rawEncodes out = true ->
        body r.1 = CommandBody ("aws " +:+ GoStrings.Join args " ") out) /\
     (rawEncodes out = false -> body r.1 = NoBody)).
Proof.
  intros r. subst r. unfold handleExecuteCommand.
  destruct (String.eqb_spec method "POST") as [-> | Hm]; cbn [negb].
  2:{ cbn. split; [by left | split; [done | by intros (? & ? & ? & _)]]. }
  destruct commandManager as [m|].
  2:{ cbn. split; [by left | split; [done | by intros (? & ? & ? & _)]]. }
  destruct decodedBody as [[id region] | e].
  2:{ cbn. split; [by left | split; [done | by intros (? & ? & ? & _)]]. }
  unfold Commands.Execute.
  destruct (Commands.commands m !! id) as [c|] eqn:Hc.
  2:{ cbn. destruct (_ || _); cbn;
        (split; [by left | split; [done | by intros (? & ? & ? & _)]]). }
  set (args := if Commands.SupportsRegion c && negb (String.eqb (TrimSpace region) "")
               then Commands.Args c ++ ["--region"; region] else Commands.Args c).
  assert (Hargs : args = Commands.Args c \/
                  (Commands.SupportsRegion c = true /\
                   args = Commands.Args c ++ ["--region"; region])).
  { subst args. destruct (Commands.SupportsRegion c); cbn [andb]; [|by left].
    destruct (negb _); [by right | by left]. }
  clearbody args.
  assert (Hcall : forall calls : list (list string), calls = [args] ->
            calls = [] \/
            exists m0 id0 region0 c0,
              "POST" = "POST" /\ Some m = Some m0 /\
              @Decoded (string * string) (id, region) = Decoded (id0, region0) /\
              Commands.commands m0 !! id0 = Some c0 /\
              (calls = [Commands.Args c0] \/
               (Commands.SupportsRegion c0 = true /\
                calls = [Commands.Args c0 ++ ["--region"; region0]]))).
  { intros calls ->. right. exists m, id, region, c. repeat split; try done.
    destruct Hargs as [-> | [Hs ->]]; [by left | by right]. }
  cbn. destruct (RunJSON args) as [out [e|]] eqn:Hrun; cbn.
  - destruct (_ || _); cbn; (split; [by apply Hcall|]); (split; [done|]);
      intros (args0 & out0 & [= <-] & Hrun0 & _); by rewrite Hrun in Hrun0.
  - split; [by apply Hcall|]. split; [|done]. intros _. exists args, out.
    split; [done|]. split; [done|]. unfold writeResult. cbn [body].
    split; intros ->; done.
Qed.


End HttpCommands.


(** ** Package profiles: the profile manager and its store file. *)
Module ProfileManager.

Record Profile := {
  ID : string;
  Name : string;
  AccessKeyID : string;
  SecretAccessKey : string;
  SessionToken : string;
  Region : string;
  Source : string }.

#[global] Instance Profile_eq_dec : EqDecision Profile.
Proof. solve_decision. Defined.

Definition SourceSystem : string := "system".
Definition SourceCustom : string := "custom".

Definition emptyProfile : Profile :=
  {| ID := ""; Name := ""; AccessKeyID := ""; SecretAccessKey := "";
     SessionToken := ""; Region := ""; Source := "" |}.

Record PublicProfile := { pub_ID : string; pub_Name : string; pub_Source : string }.

Record Status := {
  st_SystemAvailable : bool;
  st_ActiveID : string;
  st_Profiles : list PublicProfile }.

Record Manager := {
  profiles : gmap string Profile;
  activeID : string;
  systemAvailable : bool;
  nextID : Z;             (* int64 *)
  storePath : string }.

(** The anonymous struct that [saveLocked] writes and [loadFromDisk] reads. *)
Record state := { s_NextID : Z; s_ActiveID : string; s_Profiles : list Profile }.

(** What reading the store file gives: no such file, another read error, or
    data, with what [json.Unmarshal] makes of it. *)
Inductive file :=
| NotExist
| ReadError (e : error)
| Data (parsed : decoded state).

(** [m.nextID++] on an int64 *)
Definition incr64 (n : Z) : Z :=
  if (n =? 9223372036854775807)%Z then (-9223372036854775808)%Z else (n + 1)%Z.

(** [strconv.FormatInt(n, 10)] *)
Definition FormatInt (n : Z) : string := NilZero.string_of_int (Z.to_int n).

Section WithAWS.

(** [checkCredentialsWithEnv(ctx, env)]: the [sts get-caller-identity] probe
    under the given overrides ([None] for nil). *)
Variable checkCredentialsWithEnv : option (list string) -> bool.
(** [strings.TrimSpace] *)
Variable TrimSpace : string -> string.
(** [strconv.Quote], for the verb [%q] *)
Variable Quote : string -> string.

(** [ActiveID] *)
Definition ActiveID (m : Manager) : string :=
  if String.eqb (activeID m) "" && systemAvailable m then "system" else activeID m.

(** [ActiveEnv] *)
Definition ActiveEnv (m : Manager) : list string :=
  if String.eqb (activeID m) "" || String.eqb (activeID m) "system" then []
  else
    match profiles m !! activeID m with
    | None => []
    | Some p =>
        (if String.eqb (AccessKeyID p) "" then [] else ["AWS_ACCESS_KEY_ID=" +:+ AccessKeyID p])
        ++ (if String.eqb (SecretAccessKey p) "" then []
            else ["AWS_SECRET_ACCESS_KEY=" +:+ SecretAccessKey p])
        ++ (if String.eqb (SessionToken p) "" then []
            else ["AWS_SESSION_TOKEN=" +:+ SessionToken p])
        ++ (if String.eqb (Region p) "" then [] else ["AWS_DEFAULT_REGION=" +:+ Region p])
        ++ ["AWS_EC2_METADATA_DISABLED=true"]
    end.

(** [Status]; [order] is the order in which [range m.profiles] yields the
    profiles. *)
Definition GetStatus (m : Manager) (order : list Profile) : Status :=
  {| st_SystemAvailable := systemAvailable m;
     st_ActiveID := ActiveID m;
     st_Profiles := map (fun p => {| pub_ID := ID p; pub_Name := Name p;
                                     pub_Source := Source p |}) order |}.

(** [saveLocked]: the state handed to [os.WriteFile], [None] when nothing
    is written; [order] is the order of [range m.profiles]. *)
Definition saveLocked (m : Manager) (order : list Profile) : option state :=
  if String.eqb (storePath m) "" then None
  else Some {| s_NextID := nextID m; s_ActiveID := activeID m; s_Profiles := order |}.

(** The environment [AddAndActivateProfile] validates. *)
Definition candidateEnv (accessKey secretKey sessionToken region : string) : list string :=
  ["AWS_ACCESS_KEY_ID=" +:+ accessKey; "AWS_SECRET_ACCESS_KEY=" +:+ secretKey]
  ++ (if String.eqb sessionToken "" then [] else ["AWS_SESSION_TOKEN=" +:+ sessionToken])
  ++ (if String.eqb region "" then [] else ["AWS_DEFAULT_REGION=" +:+ region])
  ++ ["AWS_EC2_METADATA_DISABLED=true"].

(** What a mutating method leaves behind: the manager afterwards, the error
    returned and the state written to the store file, if any. *)
Record outcome := { manager : Manager; err : option error; written : option state }.

(** [AddAndActivateProfile]; the [Profile] returned is the second
    component. *)
Definition AddAndActivateProfile (m : Manager)
    (name accessKey secretKey sessionToken region : string) (order : list Profile)
  : outcome * Profile :=
  if String.eqb (TrimSpace name) ""
  then ({| manager := m; err := Some "profile name is required"; written := None |},
        emptyProfile)
  else if String.eqb accessKey "" || String.eqb secretKey ""
  then ({| manager := m; err := Some "access key id and secret access key are required";
           written := None |}, emptyProfile)
  else if negb (checkCredentialsWithEnv
                  (Some (candidateEnv accessKey secretKey sessionToken region)))
  then ({| manager := m;
           err := Some "unable to validate credentials with AWS (sts get-caller-identity failed)";
           written := None |}, emptyProfile)
  else
    let id := FormatInt (nextID m) in
    let p := {| ID := id; Name := name; AccessKeyID := accessKey;
                SecretAccessKey := secretKey; SessionToken := sessionToken;
                Region := region; Source := SourceCustom |} in
    let m' := {| profiles := <[id := p]> (profiles m);
                 activeID := id;
                 systemAvailable := systemAvailable m;
                 nextID := incr64 (nextID m);
                 storePath := storePath m |} in
    ({| manager := m'; err := None; written := saveLocked m' order |}, p).

(** [SetActiveProfile] *)
Definition SetActiveProfile (m : Manager) (id : string) (order : list Profile) : outcome :=
  if String.eqb id "system"
  then
    if negb (systemAvailable m)
    then {| manager := m; err := Some "system AWS credentials are not available";
            written := None |}
    else {| manager := {| profiles := profiles m; activeID := "system";
                          systemAvailable := systemAvailable m; nextID := nextID m;
                          storePath := storePath m |};
            err := None; written := None |}
  else
    match profiles m !! id with
    | None => {| manager := m; err := Some ("profile " +:+ Quote id +:+ " not found");
                 written := None |}
    | Some _ =>
        let m' := {| profiles := profiles m; activeID := id;
                     systemAvailable := systemAvailable m; nextID := nextID m;
                     storePath := storePath m |} in
        {| manager := m'; err := None; written := saveLocked m' order |}
    end.

(** One iteration of the loop of [loadFromDisk] over [state.Profiles]. *)
Definition restore (acc : gmap string Profile) (p : Profile) : gmap string Profile :=
  if String.eqb (AccessKeyID p) "" || String.eqb (SecretAccessKey p) ""
  then acc
  else <[ID p := p]> acc.

(** [loadFromDisk] *)
Definition loadFromDisk (m : Manager) (f : file) : Manager * option error :=
  if String.eqb (storePath m) "" then (m, None)
  else
    match f with
    | NotExist => (m, None)
    | ReadError e => (m, Some e)
    | Data (DecodeError e) => (m, Some e)
    | Data (Decoded st) =>
        ({| profiles := fold_left restore (s_Profiles st) ∅;
            activeID := if String.eqb (s_ActiveID st) "" then activeID m else s_ActiveID st;
            systemAvailable := systemAvailable m;
            nextID := if (0 <? s_NextID st)%Z then s_NextID st else nextID m;
            storePath := storePath m |}, None)
    end.

(** [NewManager]; [envStorePath] is [os.Getenv("PROFILE_STORE_PATH")]. *)
Definition NewManager (envStorePath : string) (f : file) : Manager :=
  let storePath0 :=
    if String.eqb envStorePath "" then ".aws-local-dashboard-profiles.json"
    else envStorePath in
  let available := checkCredentialsWithEnv None in
  let m := {| profiles := ∅;
              activeID := if available then "system" else "";
              systemAvailable := available;
              nextID := 1;
              storePath := storePath0 |} in
  (loadFromDisk m f).1.

(** The calls that change a manager. *)
Inductive op :=
| OpAdd (name accessKey secretKey sessionToken region : string) (order : list Profile)
| OpSelect (id : string) (order : list Profile).

Definition step (m : Manager) (o : op) : outcome :=
  match o with
  | OpAdd name accessKey secretKey sessionToken region order =>
      (AddAndActivateProfile m name accessKey secretKey sessionToken region order).1
  | OpSelect id order => SetActiveProfile m id order
  end.

Definition rangeOrder (o : op) : list Profile :=
  match o with
  | OpAdd _ _ _ _ _ order => order
  | OpSelect _ order => order
  end.

(** A manager as it is after start-up and any calls. *)
Definition after (envStorePath : string) (f : file) (ops : list op) : Manager :=
  fold_left (fun m o => manager (step m o)) ops (NewManager envStorePath f).

(** Every profile is filed under its own identifier and has both
    credentials. *)
Definition usable (ps : gmap string Profile) : Prop :=
  forall id p, ps !! id = Some p ->
    ID p = id /\ AccessKeyID p <> "" /\ SecretAccessKey p <> "".

Lemma FormatInt_first (n : Z) :
  exists c s, FormatInt n = String c s /\ c <> "s"%char.
Proof.
  unfold FormatInt. destruct (Z.to_int n) as [d | d]; cbn.
  - unfold NilZero.string_of_uint. destruct d; cbn; eexists _, _; (split; [reflexivity | done]).
  - eexists _, _. split; [reflexivity | done].
Qed.

Lemma FormatInt_not_reserved (n : Z) : FormatInt n <> "" /\ FormatInt n <> "system".
Proof.
  destruct (FormatInt_first n) as (c & s & -> & Hc). split; [done|].
  intros [= -> _]. done.
Qed.

Lemma restore_lookup (l : list Profile) (acc : gmap string Profile) (id : string)
    (p : Profile) :
  fold_left restore l acc !! id = Some p ->
  acc !! id = Some p \/
  (p ∈ l /\ ID p = id /\ AccessKeyID p <> "" /\ SecretAccessKey p <> "").
Proof.
  revert acc. induction l as [|q l IH]; intros acc H; [by left|].
  simpl in H. apply IH in H as [H | (Hin & Hrest)].
  - unfold restore in H.
    destruct (String.eqb_spec (AccessKeyID q) "") as [|Hak]; cbn [orb] in H; [by left|].
    destruct (String.eqb_spec (SecretAccessKey q) "") as [|Hsk]; [by left|].
    destruct (decide (ID q = id)) as [Heq | Hne].
    + rewrite Heq, lookup_insert_eq in H. injection H as <-. right.
      split; [by left | done].
    + rewrite lookup_insert_ne in H by done. by left.
  - right. split; [by right | done].
Qed.

Lemma restore_keeps (l : list Profile) (acc : gmap string Profile) (p : Profile) :
  acc !! ID p = Some p \/ p ∈ l ->
  AccessKeyID p <> "" -> SecretAccessKey p <> "" ->
  (forall q, q ∈ l -> ID q = ID p -> q = p) ->
  fold_left restore l acc !! ID p = Some p.
Proof.
  intros H Hak Hsk. revert acc H. induction l as [|q l IH]; intros acc H Huniq.
  - destruct H as [H | H]; [done | by apply elem_of_nil in H].
  - simpl. apply IH; [|intros q' Hq'; apply Huniq; by right].
    destruct (decide (q = p)) as [-> | Hqp].
    + left. unfold restore.
      destruct (String.eqb_spec (AccessKeyID p) ""); [done|].
      destruct (String.eqb_spec (SecretAccessKey p) ""); [done|].
      cbn [orb]. by rewrite lookup_insert_eq.
    + destruct H as [H | H].
      * left. unfold restore. destruct (_ || _); [done|].
        destruct (decide (ID q = ID p)) as [Heq | Hne].
        -- exfalso. apply Hqp, Huniq; [by left | done].
        -- by rewrite lookup_insert_ne.
      * apply elem_of_cons in H as [-> | H]; [done | by right].
Qed.

Lemma restore_usable (l : list Profile) : usable (fold_left restore l ∅).
Proof.
  intros id p H. apply restore_lookup in H as [H | (_ & H)]; [|done].
  by rewrite lookup_empty in H.
Qed.

Lemma NewManager_usable (envStorePath : string) (f : file) :
  usable (profiles (NewManager envStorePath f)).
Proof.
  assert (He : usable ∅) by (by intros ? ? ?%lookup_empty_Some).
  unfold NewManager, loadFromDisk. cbn [storePath].
  destruct (String.eqb _ ""); [done|].
  destruct f as [| e | [st | e]]; try done.
  apply restore_usable.
Qed.

Lemma step_usable (m : Manager) (o : op) :
  usable (profiles m) -> usable (profiles (manager (step m o))).
Proof.
  intros Hm. destruct o as [name ak sk tok rg order | id order]; cbn [step].
  - unfold AddAndActivateProfile.
    destruct (String.eqb (TrimSpace name) ""); [done|].
    destruct (String.eqb_spec ak ""); [done|].
    destruct (String.eqb_spec sk ""); [done|]. cbn [orb].
    destruct (negb _); [done|]. cbn.
    intros id p Hp. destruct (decide (FormatInt (nextID m) = id)) as [<- | Hne].
    + rewrite lookup_insert_eq in Hp. by injection Hp as <-.
    + rewrite lookup_insert_ne in Hp by done. by apply Hm.
  - unfold SetActiveProfile.
    destruct (String.eqb id "system"); [by destruct (negb _)|].
    by destruct (profiles m !! id).
Qed.

Lemma after_usable (envStorePath : string) (f : file) (ops : list op) :
  usable (profiles (after envStorePath f ops)).
Proof.
  unfold after. generalize (NewManager_usable envStorePath f).
  generalize (NewManager envStorePath f). induction ops as [|o ops IH]; intros m Hm; [done|].
  simpl. apply IH. by apply step_usable.
Qed.

(** X18. Every profile a manager holds can be used: after start-up from any
    store file and any sequence of [AddAndActivateProfile] and
    [SetActiveProfile] calls, each stored profile is filed under its own
    identifier and has an access key and a secret; so whenever a stored
    profile is the active one (under an identifier other than the empty one
    and ["system"]), the environment handed to the CLI starts with its two
    credentials and ends by switching the metadata service off. *)
Theorem stored_profiles_usable (envStorePath : string) (f : file) (ops : list op) :
  let m := after envStorePath f ops in
  usable (profiles m) /\
  (forall p, activeID m <> "" -> activeID m <> "system" ->
     profiles m !! activeID m = Some p ->
     exists optional,
       ActiveEnv m = ["AWS_ACCESS_KEY_ID=" +:+ AccessKeyID p;
                      "AWS_SECRET_ACCESS_KEY=" +:+ SecretAccessKey p]
                     ++ optional ++ ["AWS_EC2_METADATA_DISABLED=true"]).
Proof.
  intros m. pose proof (after_usable envStorePath f ops) as Hu. fold m in Hu.
  split; [done|]. intros p Hempty Hsys Hp. unfold ActiveEnv.
  destruct (Hu _ _ Hp) as (Hid & Hak & Hsk).
  apply String.eqb_neq in Hsys as ->. apply String.eqb_neq in Hempty as ->.
  cbn [orb]. rewrite Hp.
  apply String.eqb_neq in Hak as ->. apply String.eqb_neq in Hsk as ->.
  exists ((if String.eqb (SessionToken p) "" then []
           else ["AWS_SESSION_TOKEN=" +:+ SessionToken p])
          ++ (if String.eqb (Region p) "" then [] else ["AWS_DEFAULT_REGION=" +:+ Region p])).
  cbn [app]. by rewrite <- app_assoc.
Qed.

(** X19. The credentials in force after adding a profile are the ones that
    were validated: when [AddAndActivateProfile] returns no error, the
    profile returned is stored under its identifier with the credentials
    given, it is the active one, and the environment [ActiveEnv] now hands
    to the CLI is exactly the environment the [sts get-caller-identity]
    probe accepted. *)
Theorem AddAndActivateProfile_env_validated (m : Manager)
    (name accessKey secretKey sessionToken region : string) (order : list Profile) :
  let r := AddAndActivateProfile m name accessKey secretKey sessionToken region order in
  err r.1 = None ->
  ActiveEnv (manager r.1) = candidateEnv accessKey secretKey sessionToken region /\
  checkCredentialsWithEnv (Some (ActiveEnv (manager r.1))) = true /\
  ActiveID (manager r.1) = ID r.2 /\
  profiles (manager r.1) !! ID r.2 = Some r.2 /\
  AccessKeyID r.2 = accessKey /\ SecretAccessKey r.2 = secretKey /\
  SessionToken r.2 = sessionToken /\ Region r.2 = region.
Proof.
  intros r. subst r. unfold AddAndActivateProfile.
  destruct (String.eqb (TrimSpace name) ""); [done|].
  destruct (String.eqb_spec accessKey "") as [|Hak]; [done|].
  destruct (String.eqb_spec secretKey "") as [|Hsk]; [done|]. cbn [orb].
  destruct (checkCredentialsWithEnv _) eqn:Hcheck; [|done]. cbn [negb fst snd manager err].
  intros _.
  destruct (FormatInt_not_reserved (nextID m)) as [Hne Hsys].
  assert (Henv : ActiveEnv
                   {| profiles := <[FormatInt (nextID m) :=
                                      {| ID := FormatInt (nextID m); Name := name;
                                         AccessKeyID := accessKey;
                                         SecretAccessKey := secretKey;
                                         SessionToken := sessionToken; Region := region;
                                         Source := SourceCustom |}]> (profiles m);
                      activeID := FormatInt (nextID m);
                      systemAvailable := systemAvailable m;
                      nextID := incr64 (nextID m);
                      storePath := storePath m |}
                 = candidateEnv accessKey secretKey sessionToken region).
  { unfold ActiveEnv, candidateEnv. cbn [activeID profiles].
    apply String.eqb_neq in Hne as Hne'. apply String.eqb_neq in Hsys as Hsys'.
    rewrite Hne', Hsys'. cbn [orb]. rewrite lookup_insert_eq.
    cbn [AccessKeyID SecretAccessKey SessionToken Region].
    apply String.eqb_neq in Hak as ->. apply String.eqb_neq in Hsk as ->. done. }
  rewrite Henv. repeat split; try done.
  - unfold ActiveID. cbn [activeID ID]. apply String.eqb_neq in Hne as ->. done.
  - cbn [profiles ID]. by rewrite lookup_insert_eq.
Qed.

Lemma restore_values (ps : gmap string Profile) (order : list Profile) :
  usable ps -> Permutation order (map_to_list ps).*2 ->
  fold_left restore order ∅ = ps.
Proof.
  intros Hu Hperm.
  assert (Hin : forall p, p ∈ order <-> ps !! ID p = Some p).
  { intros p. rewrite Hperm, list_elem_of_fmap. split.
    - intros ([id q] & -> & Hq). apply elem_of_map_to_list in Hq.
      cbn. destruct (Hu _ _ Hq) as (-> & _). done.
    - intros Hp. exists (ID p, p). split; [done|]. by apply elem_of_map_to_list. }
  apply map_eq. intros id.
  destruct (ps !! id) as [p|] eqn:Hp.
  - destruct (Hu _ _ Hp) as (<- & Hak & Hsk).
    apply restore_keeps; try done.
    + right. by apply Hin.
    + intros q Hq Heq. apply Hin in Hq. rewrite Heq, Hp in Hq. by injection Hq.
  - destruct (fold_left restore order ∅ !! id) as [q|] eqn:Hq; [|done].
    apply restore_lookup in Hq as [Hq | (Hq & <- & _)]; [by rewrite lookup_empty in Hq|].
    apply Hin in Hq. by rewrite Hp in Hq.
Qed.

Lemma restart_of_saved (envStorePath : string) (m : Manager) (order : list Profile)
    (st : state) :
  usable (profiles m) ->
  saveLocked m order = Some st ->
  Permutation order (map_to_list (profiles m)).*2 ->
  (0 < nextID m)%Z ->
  activeID m <> "" ->
  let m2 := NewManager envStorePath (Data (Decoded st)) in
  profiles m2 = profiles m /\ activeID m2 = activeID m /\ nextID m2 = nextID m.
Proof.
  intros Hu Hsave Hperm Hnext Hact m2. subst m2.
  unfold saveLocked in Hsave. destruct (String.eqb (storePath m) ""); [done|].
  injection Hsave as <-. unfold NewManager, loadFromDisk. cbn [storePath].
  assert (Hpath : String.eqb (if String.eqb envStorePath ""
                              then ".aws-local-dashboard-profiles.json" else envStorePath) ""
                  = false).
  { destruct (String.eqb_spec envStorePath ""); [done | by apply String.eqb_neq]. }
  rewrite Hpath. cbn.
  apply String.eqb_neq in Hact as ->.
  destruct (Z.ltb_spec 0 (nextID m)); [|lia].
  split; [|done]. by apply restore_values.
Qed.

Lemma step_saved (m : Manager) (o : op) (st : state) :
  written (step m o) = Some st ->
  saveLocked (manager (step m o)) (rangeOrder o) = Some st /\
  activeID (manager (step m o)) <> "system".
Proof.
  destruct o as [name ak sk tok rg order | id order]; cbn [step rangeOrder].
  - unfold AddAndActivateProfile.
    destruct (String.eqb (TrimSpace name) ""); [done|].
    destruct (_ || _); [done|]. destruct (negb _); [done|]. cbn.
    intros H. split; [done|]. apply FormatInt_not_reserved.
  - unfold SetActiveProfile.
    destruct (String.eqb_spec id "system") as [|Hsys]; [by destruct (negb _)|].
    destruct (profiles m !! id); [|done]. cbn. done.
Qed.

(** X20. A restart brings back what was saved: when a call on a manager
    (as it is after start-up and any earlier calls) wrote the store file,
    a manager started from that file has the same profiles, the same active
    identifier and the same next identifier - whatever the order in which
    the profiles were written, as long as the next identifier is positive
    and the active identifier is not the empty one. *)
Theorem restart_restores (envStorePath envStorePath' : string) (f : file) (ops : list op)
    (o : op) (st : state) :
  let m' := manager (step (after envStorePath f ops) o) in
  written (step (after envStorePath f ops) o) = Some st ->
  Permutation (rangeOrder o) (map_to_list (profiles m')).*2 ->
  (0 < nextID m')%Z ->
  activeID m' <> "" ->
  let m2 := NewManager envStorePath' (Data (Decoded st)) in
  profiles m2 = profiles m' /\ activeID m2 = activeID m' /\ nextID m2 = nextID m'.
Proof.
  intros m' Hw Hperm Hnext Hact. apply step_saved in Hw as [Hsave _].
  apply (restart_of_saved envStorePath' m' (rangeOrder o) st); try done.
  apply step_usable, after_usable.
Qed.

(** X21. Going back to the system credentials is not saved: a successful
    [SetActiveProfile("system")] makes ["system"] the active profile and
    writes nothing, so a manager started afterwards from the store file, as
    the last saving call left it, has that call's profile as the active one
    again, not ["system"]. *)
Theorem system_selection_not_persisted (envStorePath envStorePath' : string) (f : file)
    (ops : list op) (o : op) (st : state) (order : list Profile) :
  let m := manager (step (after envStorePath f ops) o) in
  written (step (after envStorePath f ops) o) = Some st ->
  Permutation (rangeOrder o) (map_to_list (profiles m)).*2 ->
  (0 < nextID m)%Z ->
  activeID m <> "" ->
  systemAvailable m = true ->
  let r := SetActiveProfile m "system" order in
  err r = None /\ ActiveID (manager r) = "system" /\ written r = None /\
  ActiveID (NewManager envStorePath' (Data (Decoded st))) = activeID m /\
  activeID m <> "system".
Proof.
  intros m Hw Hperm Hnext Hact Hsys r. subst r.
  apply step_saved in Hw as [Hsave Hnot]. fold m in Hsave, Hnot.
  destruct (restart_of_saved envStorePath' m (rangeOrder o) st) as (_ & Ha & _); try done.
  { apply step_usable, after_usable. }
  unfold SetActiveProfile. cbn [String.eqb Ascii.eqb Bool.eqb]. rewrite Hsys. cbn.
  repeat split; try done.
  unfold ActiveID. rewrite Ha. apply String.eqb_neq in Hact as ->. done.
Qed.


(** *** Identifiers handed out by a manager that started without a store. *)

Lemma to_int_proper (z : Z) : Z.to_int z <> Decimal.Pos Decimal.Nil /\
                              Z.to_int z <> Decimal.Neg Decimal.Nil.
Proof.
  pose proof (DecimalZ.to_of (Z.to_int z)) as H. rewrite DecimalZ.of_to in H.
  split; intros Heq; rewrite Heq in H; discriminate H.
Qed.

Lemma FormatInt_inj (a b : Z) : FormatInt a = FormatInt b -> a = b.
Proof.
  unfold FormatInt. intros H. apply DecimalZ.to_int_inj.
  destruct (to_int_proper a) as [Ha1 Ha2]. destruct (to_int_proper b) as [Hb1 Hb2].
  pose proof (NilZero.isi _ Ha1 Ha2) as Ia. pose proof (NilZero.isi _ Hb1 Hb2) as Ib.
  rewrite H, Ib in Ia. by injection Ia.
Qed.

(** The identifiers in use are the decimal numerals below [nextID]. *)
Definition fresh (m : Manager) : Prop :=
  (0 < nextID m)%Z /\
  forall id p, profiles m !! id = Some p -> exists k, (0 < k < nextID m)%Z /\ id = FormatInt k.

Lemma step_fresh (m : Manager) (o : op) :
  fresh m -> (nextID m < 9223372036854775807)%Z ->
  fresh (manager (step m o)) /\ (nextID (manager (step m o)) <= nextID m + 1)%Z.
Proof.
  intros [Hpos Hids] Hmax. destruct o as [name ak sk tok rg order | id order]; cbn [step].
  - unfold AddAndActivateProfile.
    destruct (String.eqb (TrimSpace name) ""); [cbn; split; [done | lia]|].
    destruct (_ || _); [cbn; split; [done | lia]|].
    destruct (negb _); [cbn; split; [done | lia]|]. cbn.
    unfold incr64. destruct (Z.eqb_spec (nextID m) 9223372036854775807); [lia|].
    split; [|lia]. split; [cbn; lia|]. cbn. intros id p Hp.
    destruct (decide (FormatInt (nextID m) = id)) as [<- | Hne].
    + exists (nextID m). split; [lia | done].
    + rewrite lookup_insert_ne in Hp by done.
      destruct (Hids _ _ Hp) as (k & Hk & ->). exists k. split; [lia | done].
  - unfold SetActiveProfile.
    destruct (String.eqb id "system").
    + destruct (negb _); cbn; (split; [done | lia]).
    + destruct (profiles m !! id); cbn; (split; [done | lia]).
Qed.

Lemma NewManager_fresh (envStorePath : string) (f : file) :
  (forall st, f <> Data (Decoded st)) ->
  fresh (NewManager envStorePath f) /\ nextID (NewManager envStorePath f) = 1%Z.
Proof.
  intros Hf. unfold NewManager, loadFromDisk. cbn [storePath].
  assert (He : forall m, profiles m = ∅ -> nextID m = 1%Z -> fresh m /\ nextID m = 1%Z).
  { intros m Hp Hn. split; [|done]. split; [lia|]. intros id p H.
    by rewrite Hp, lookup_empty in H. }
  destruct (String.eqb _ ""); [by apply He|].
  destruct f as [| e | [st | e]]; try (by apply He). by destruct (Hf st).
Qed.

Lemma after_fresh (envStorePath : string) (f : file) (ops : list op) :
  (forall st, f <> Data (Decoded st)) ->
  (Z.of_nat (length ops) < 9223372036854775806)%Z ->
  fresh (after envStorePath f ops) /\
  (nextID (after envStorePath f ops) <= 1 + Z.of_nat (length ops))%Z.
Proof.
  intros Hf. unfold after.
  destruct (NewManager_fresh envStorePath f Hf) as [H0 H1].
  assert (Hgen : forall (ops : list op) (m : Manager) (n : Z),
             fresh m -> (nextID m <= n)%Z ->
             (n + Z.of_nat (length ops) < 9223372036854775807)%Z ->
             fresh (fold_left (fun m o => manager (step m o)) ops m) /\
             (nextID (fold_left (fun m o => manager (step m o)) ops m)
              <= n + Z.of_nat (length ops))%Z).
  { clear. induction ops as [|o ops IH]; intros m n Hm Hn Hlen.
    - simpl in *. split; [done | lia].
    - cbn [fold_left]. cbn [length] in Hlen |- *.
      destruct (step_fresh m o Hm ltac:(lia)) as [Hm' Hn'].
      destruct (IH (manager (step m o)) (n + 1)%Z Hm' ltac:(lia) ltac:(lia)) as [Hr Hb].
      split; [done | lia]. }
  intros Hlen. apply Hgen; [done | lia | lia].
Qed.

(** X22. A manager that started without a usable store file never
    overwrites a profile: after any calls (fewer than 2^63 - 2 of them), a
    successful [AddAndActivateProfile] files the new profile under an
    identifier that was not in use, and every profile stored before is
    still stored, unchanged, under its identifier. *)
Theorem AddAndActivateProfile_never_overwrites (envStorePath : string) (f : file)
    (ops : list op) (name accessKey secretKey sessionToken region : string)
    (order : list Profile) :
  (forall st, f <> Data (Decoded st)) ->
  (Z.of_nat (length ops) < 9223372036854775806)%Z ->
  let m := after envStorePath f ops in
  let r := AddAndActivateProfile m name accessKey secretKey sessionToken region order in
  err r.1 = None ->
  profiles m !! ID r.2 = None /\
  profiles (manager r.1) !! ID r.2 = Some r.2 /\
  forall id p, profiles m !! id = Some p -> profiles (manager r.1) !! id = Some p.
Proof.
  intros Hf Hlen m r. destruct (after_fresh envStorePath f ops Hf Hlen) as [[Hpos Hids] Hn].
  fold m in Hpos, Hids, Hn. subst r. unfold AddAndActivateProfile.
  destruct (String.eqb (TrimSpace name) ""); [done|].
  destruct (_ || _); [done|]. destruct (negb _); [done|]. cbn. intros _.
  assert (Hnew : profiles m !! FormatInt (nextID m) = None).
  { destruct (profiles m !! FormatInt (nextID m)) as [p|] eqn:Hp; [|done].
    destruct (Hids _ _ Hp) as (k & Hk & Heq). apply FormatInt_inj in Heq. lia. }
  split; [done|]. split; [by rewrite lookup_insert_eq|].
  intros id p Hp. rewrite lookup_insert_ne; [done|]. intros <-. by rewrite Hnew in Hp.
Qed.


(** X27. A call that fails changes nothing: whenever
    [AddAndActivateProfile] or [SetActiveProfile] returns an error - a blank
    name, a missing key, credentials the probe refuses, an unknown
    identifier, ["system"] without system credentials - the manager is what
    it was and nothing is written to the store file; and a call that
    succeeds never changes whether system credentials are available or
    where the store file is. *)
Theorem failed_calls_change_nothing (m : Manager) (o : op) :
  (err (step m o) <> None -> manager (step m o) = m /\ written (step m o) = None) /\
  systemAvailable (manager (step m o)) = systemAvailable m /\
  storePath (manager (step m o)) = storePath m.
Proof.
  destruct o as [name ak sk tok rg order | id order]; cbn [step].
  - unfold AddAndActivateProfile.
    destruct (String.eqb (TrimSpace name) ""); [done|].
    destruct (_ || _); [done|]. by destruct (negb _).
  - unfold SetActiveProfile.
    destruct (String.eqb id "system"); [by destruct (negb _)|].
    by destruct (profiles m !! id).
Qed.


End WithAWS.
End ProfileManager.


(** ** Package awscli: the executor that runs the [aws] binary. *)
Module CLIExecutor.
Section Run.

Variable unicodeLower : string -> string.
(** [os.Environ()] *)
Variable Environ : list string.
(** [cmd.Run()] of [aws] with the given arguments and environment ([None]:
    the process's own): what was written to stdout and stderr and the error
    of [Run]. *)
Variable runAWS : list string -> option (list string) -> bytes * string * option error.
(** [strings.TrimSpace] *)
Variable TrimSpace : string -> string.

(** [CLIExecutor.RunJSON] *)
Definition RunJSON (profileManager : option ProfileManager.Manager) (args : list string)
  : bytes * option error :=
  let args' := args ++ ["--output"; "json"] in
  let env :=
    match profileManager with
    | None => None
    | Some m =>
        match ProfileManager.ActiveEnv m with
        | [] => None
        | envOverrides => Some (Environ ++ envOverrides)
        end
    end in
  match runAWS args' env with
  | (_, stderr, Some e) =>
      let errMsg := TrimSpace stderr in
      ([], Some ("aws cli error: " +:+ (if String.eqb errMsg "" then e else errMsg)))
  | (stdout, _, None) => (stdout, None)
  end.

Lemma isAuthError_prefixed (msg : string) :
  GoStrings.isASCII msg = true ->
  isAuthError unicodeLower (Some ("aws cli error: " +:+ msg))
    = isAuthError unicodeLower (Some msg).
Proof.
  intros Hascii. unfold isAuthError, GoStrings.ToLower.
  cbv [String.append]. cbn [GoStrings.isASCII]. rewrite Hascii.
  reflexivity.
Qed.

(** X23. The executor's wrapping of a failure never changes whether it is
    skippable.  [RunJSON] runs [aws] once with the arguments followed by
    [--output json]: under the process's own environment when there is no
    profile manager or the active profile gives no overrides, and otherwise
    under the process environment followed by exactly those overrides.
    When the run fails the error is ["aws cli error: "] followed by the
    trimmed stderr (or by the run's error when stderr is blank), and for an
    ASCII message [isAuthError] says of the wrapped error what it says of
    the message itself. *)
Theorem RunJSON_wraps_error (profileManager : option ProfileManager.Manager)
    (args : list string) :
  let overrides :=
    match profileManager with
    | Some m => ProfileManager.ActiveEnv m
    | None => []
    end in
  exists env stdout stderr runErr,
    runAWS (args ++ ["--output"; "json"]) env = (stdout, stderr, runErr) /\
    (overrides = [] -> env = None) /\
    (overrides <> [] -> env = Some (Environ ++ overrides)) /\
    match runErr with
    | None => RunJSON profileManager args = (stdout, None)
    | Some e0 =>
        let msg := if String.eqb (TrimSpace stderr) "" then e0 else TrimSpace stderr in
        RunJSON profileManager args = ([], Some ("aws cli error: " +:+ msg)) /\
        (GoStrings.isASCII msg = true ->
         isAuthError unicodeLower (RunJSON profileManager args).2
           = isAuthError unicodeLower (Some msg))
    end.
Proof.
  intros overrides. unfold RunJSON.
  set (env := match profileManager with
              | None => None
              | Some m =>
                  match ProfileManager.ActiveEnv m with
                  | [] => None
                  | envOverrides => Some (Environ ++ envOverrides)
                  end
              end).
  assert (Henv : (overrides = [] -> env = None) /\
                 (overrides <> [] -> env = Some (Environ ++ overrides))).
  { subst env overrides. destruct profileManager as [m|]; [|done].
    by destruct (ProfileManager.ActiveEnv m) as [|x l]. }
  destruct Henv as [Hnone Hsome].
  destruct (runAWS (args ++ ["--output"; "json"]) env) as [[stdout stderr] [e0|]] eqn:Hrun.
  - exists env, stdout, stderr, (Some e0). repeat split; try done.
    intros Hascii. cbn [snd]. by apply isAuthError_prefixed.
  - exists env, stdout, stderr, None. by repeat split.
Qed.


End Run.
End CLIExecutor.


(** ** Package awscli: the cost service. *)
Module CostWire.

Record Metric := { Amount : string; Unit : string }.

Record Group := { Keys : list string; Metrics : gmap string Metric }.

Record ResultByTime := { Groups : list Group; Total : gmap string Metric }.

Record ceResponse := { ResultsByTime : list ResultByTime }.

Record RecordTypeResult := { rt_Groups : list Group }.

Record recordTypeResponse := { rt_ResultsByTime : list RecordTypeResult }.

End CostWire.

(** [CachedCost] *)
Record CachedCost := { Overview : Types.CostOverview; Services : list Types.ServiceCost }.

Definition emptyOverview : Types.CostOverview :=
  {| Types.Total := F64.zero; Types.NetTotal := F64.zero;
     Types.CreditsApplied := F64.zero; Types.Currency := "";
     Types.Start := ""; Types.End_ := "" |}.

Definition emptyCachedCost : CachedCost := {| Overview := emptyOverview; Services := [] |}.

(** [services.ErrCostExplorerDisabled] *)
Definition ErrCostExplorerDisabled : error :=
  "aws cost explorer is not enabled for this account".

(** [internal/httpserver]: [handleCost], over the cost service it is given.
    An error reaches the handler as its message; [err ==
    services.ErrCostExplorerDisabled] is the comparison with that value's
    message, which the cost service returns for no other error
    ([fetchFromAWS_disabled] below). *)
Module HttpCost.

Inductive Body :=
| NoBody
| ErrorBody (Error Details : string)
| CostBody (overview : Types.CostOverview).      (* types.CostResponse *)

Record Response := { status : nat; body : Body }.

(** [encoding/json] refuses a float64 that is a NaN or an infinity. *)
Definition finite (x : F64.float64) : bool :=
  match x with
  | S754_zero _ | S754_finite _ _ _ => true
  | S754_infinity _ | S754_nan => false
  end.

(** Whether [json.NewEncoder(w).Encode(types.CostResponse{Overview: o})]
    succeeds: the strings always encode, the three amounts when finite. *)
Definition encodes (o : Types.CostOverview) : bool :=
  finite (Types.Total o) && finite (Types.NetTotal o) && finite (Types.CreditsApplied o).

(** [writeJSON(w, http.StatusOK, types.CostResponse{Overview: o})]: the
    status is written first and the error of [Encode] is discarded, so an
    overview that does not encode leaves the status 200 with an empty
    body. *)
Definition writeOverview (o : Types.CostOverview) : Response :=
  {| status := 200; body := if encodes o then CostBody o else NoBody |}.

Definition handleCost
    (GetCostOverview : string -> string -> Types.CostOverview * option error)
    (method start end_ : string) : Response :=
  if negb (String.eqb method "GET")
  then {| status := 405; body := NoBody |}
  else
    match GetCostOverview start end_ with
    | (_, Some e) =>
        if String.eqb e ErrCostExplorerDisabled
        then {| status := 503;
                body := ErrorBody "Cost Explorer not enabled"
                          "AWS Cost Explorer is not enabled for this account. Enable it in the AWS console to view cost data." |}
        else {| status := 500; body := ErrorBody "Failed to fetch cost overview" e |}
    | (overview, None) => writeOverview overview
    end.

End HttpCost.

(** What one call of [getOrFetch] leaves behind: the value returned, the
    cache afterwards and the CLI calls made. *)
Record fetched := {
  cost_out : CachedCost * option error;
  cost_store : Cache.Cache CachedCost;
  cost_calls : list (list string) }.


Section CostService.

Variable unicodeLower : string -> string.
Variable RunJSON : list string -> bytes * option error.
Variable unmarshalCost : bytes -> decoded CostWire.ceResponse.
Variable unmarshalRecordTypes : bytes -> decoded CostWire.recordTypeResponse.
(** [strconv.ParseFloat(s, 64)]: the value, or [None] when [err != nil]. *)
Variable ParseFloat : string -> option F64.float64.

Definition costArgs (start end_ groupBy : string) : list string :=
  [ "ce"; "get-cost-and-usage";
    "--time-period"; "Start=" +:+ start +:+ ",End=" +:+ end_;
    "--granularity"; "MONTHLY";
    "--metrics"; "UnblendedCost";
    "--group-by"; groupBy ].

(** [normalizeServiceName] *)
Definition normalizeServiceName (name : string) : string * string :=
  let lower := GoStrings.ToLower unicodeLower name in
  if GoStrings.Contains lower "elastic compute cloud" || GoStrings.HasPrefix lower "ec2"
  then ("EC2", "ec2")
  else if GoStrings.Contains lower "virtual private cloud" then ("VPC", "vpc")
  else if GoStrings.Contains lower "elastic ip" then ("Elastic IPs", "eip")
  else if GoStrings.Contains lower "rekognition" then ("Rekognition", "rekognition")
  else if GoStrings.Contains lower "simple storage service" || GoStrings.Contains lower "s3"
  then ("Amazon S3", "s3")
  else if GoStrings.Contains lower "relational database service" then ("RDS", "rds")
  else (name, "").

(** The amount a credit adds: [if amount < 0 { credits += -amount } else
    { credits += amount }]. *)
Definition magnitude (amount : F64.float64) : F64.float64 :=
  if F64.lt amount F64.zero then F64.neg amount else amount.

(** One iteration of the loop of [fetchRecordTypeTotals] over [r.Groups]. *)
Definition recordTypeStep (acc : F64.float64 * F64.float64 * string) (g : CostWire.Group)
  : F64.float64 * F64.float64 * string :=
  let '(usage, credits, currency) := acc in
  match CostWire.Keys g with
  | [] => acc
  | k0 :: _ =>
      let recordType := GoStrings.ToLower unicodeLower k0 in
      match CostWire.Metrics g !! "UnblendedCost" with
      | None => acc
      | Some metric =>
          match ParseFloat (CostWire.Amount metric) with
          | None => acc
          | Some amount =>
              let currency' := CostWire.Unit metric in
              if String.eqb recordType "usage"
              then (F64.add usage amount, credits, currency')
              else if String.eqb recordType "credit"
              then (usage, F64.add credits (magnitude amount), currency')
              else (usage, credits, currency')
          end
      end
  end.

Definition fetchRecordTypeTotals (start end_ : string)
  : Exec (F64.float64 * F64.float64 * string * option error) :=
  '(out, execErr) ← (RunJSON (costArgs start end_ "Type=DIMENSION,Key=RECORD_TYPE"),
                     [costArgs start end_ "Type=DIMENSION,Key=RECORD_TYPE"]);
  match execErr with
  | Some e => mret (F64.zero, F64.zero, "", Some e)
  | None =>
      match unmarshalRecordTypes out with
      | DecodeError e =>
          mret (F64.zero, F64.zero, "",
                Some (wrapError "failed to parse cost explorer RECORD_TYPE response" e))
      | Decoded resp =>
          match CostWire.rt_ResultsByTime resp with
          | [] => mret (F64.zero, F64.zero, "",
                        Some "no cost data returned from cost explorer for RECORD_TYPE breakdown")
          | r :: _ =>
              let '(usage, credits, currency) :=
                fold_left recordTypeStep (CostWire.rt_Groups r) (F64.zero, F64.zero, "USD") in
              mret (usage, credits, currency, None)
          end
      end
  end.

(** The loop of [fetchFromAWS] that builds [servicesCosts]. *)
Definition serviceCostOf (g : CostWire.Group) : list Types.ServiceCost :=
  match CostWire.Keys g with
  | [] => []
  | name :: _ =>
      match CostWire.Metrics g !! "UnblendedCost" with
      | None => []
      | Some metric =>
          match ParseFloat (CostWire.Amount metric) with
          | None => []
          | Some amount =>
              [ {| Types.cost_Service := name;
                   Types.cost_DisplayName := (normalizeServiceName name).1;
                   Types.cost_DrilldownKey := (normalizeServiceName name).2;
                   Types.Cost := amount;
                   Types.cost_Currency := CostWire.Unit metric |} ]
          end
      end
  end.

Definition withEIP (costs : list Types.ServiceCost) : list Types.ServiceCost :=
  if existsb (fun sc => String.eqb (Types.cost_DrilldownKey sc) "eip") costs
  then costs
  else costs ++ [ {| Types.cost_Service := "Elastic IPs";
                     Types.cost_DisplayName := "Elastic IPs";
                     Types.cost_DrilldownKey := "eip";
                     Types.Cost := F64.zero;
                     Types.cost_Currency := "USD" |} ].

(** [netTotal := usageTotal - creditsApplied; if math.Abs(netTotal) <
    0.0000001 { netTotal = 0 }] *)
Definition netOf (usageTotal creditsApplied : F64.float64) : F64.float64 :=
  let netTotal := F64.sub usageTotal creditsApplied in
  if F64.lt (F64.Abs netTotal) F64.tenMillionth then F64.zero else netTotal.

Definition fetchFromAWS (ceStart ceEnd displayStart displayEnd : string)
  : Exec (CachedCost * option error) :=
  '(out, err) ← (RunJSON (costArgs ceStart ceEnd "Type=DIMENSION,Key=SERVICE"),
                 [costArgs ceStart ceEnd "Type=DIMENSION,Key=SERVICE"]);
  match err with
  | Some e =>
      let lower := GoStrings.ToLower unicodeLower e in
      if GoStrings.Contains lower "cost explorer" && GoStrings.Contains lower "enable"
      then mret (emptyCachedCost, Some ErrCostExplorerDisabled)
      else mret (emptyCachedCost, Some e)
  | None =>
      match unmarshalCost out with
      | DecodeError e =>
          mret (emptyCachedCost, Some (wrapError "failed to parse cost explorer response" e))
      | Decoded resp =>
          match CostWire.ResultsByTime resp with
          | [] => mret (emptyCachedCost, Some "no cost data returned from cost explorer")
          | r :: _ =>
              let servicesCosts := withEIP (flat_map serviceCostOf (CostWire.Groups r)) in
              '(usage, credits, currencyForTotals, err2) ← fetchRecordTypeTotals ceStart ceEnd;
              let '(usageTotal, currency) :=
                match err2 with
                | Some _ =>
                    (* fall back on the overall UnblendedCost total *)
                    match CostWire.Total r !! "UnblendedCost" with
                    | Some t =>
                        match ParseFloat (CostWire.Amount t) with
                        | Some v => (v, CostWire.Unit t)
                        | None => (usage, "USD")
                        end
                    | None => (usage, "USD")
                    end
                | None => (usage, currencyForTotals)
                end in
              mret ({| Overview :=
                         {| Types.Total := usageTotal;
                            Types.NetTotal := netOf usageTotal credits;
                            Types.CreditsApplied := credits;
                            Types.Currency := currency;
                            Types.Start := displayStart;
                            Types.End_ := displayEnd |};
                       Services := servicesCosts |}, None)
          end
      end
  end.

(** The amounts of the groups of record type [kind]: the groups with a key
    that lower-cases to [kind], an [UnblendedCost] metric and an amount
    that parses. *)
Definition amountsOf (kind : string) (groups : list CostWire.Group) : list F64.float64 :=
  omap (fun g =>
          match CostWire.Keys g with
          | [] => None
          | k0 :: _ =>
              if String.eqb (GoStrings.ToLower unicodeLower k0) kind
              then metric ← CostWire.Metrics g !! "UnblendedCost";
                   ParseFloat (CostWire.Amount metric)
              else None
          end) groups.

(** *** Facts about the float arithmetic of the derivation. *)

Lemma nonneg_add (x y : F64.float64) :
  F64.nonneg x -> F64.nonneg y -> F64.nonneg (F64.add x y).
Proof.
  unfold F64.add, F64.nonneg.
  destruct x as [sx | sx | | sx mx ex], y as [sy | sy | | sy my ey]; simpl;
    try done; try (by intros -> ->).
  intros -> ->. cbn [cond_Zopp].
  set (ez := Z.min ex ey).
  destruct (Z.add (Zpos (shl_align mx ex ez).1) (Zpos (shl_align my ey ez).1)) as [|m|m] eqn:Hm;
    simpl; [done | | lia].
  unfold binary_round. destruct (shl_align m ez _) as [mz ez'].
  unfold binary_round_aux.
  destruct (shr_fexp 53 1024 (Z.pos mz) ez' loc_Exact) as [mrs' e'].
  destruct (shr_fexp 53 1024 _ e' loc_Exact) as [mrs'' e''].
  destruct (shr_m mrs''); [done | | done].
  by destruct (e'' <=? 1024 - 53)%Z.
Qed.

Lemma nonneg_Abs (a : F64.float64) : F64.nonneg (F64.Abs a).
Proof. by destruct a. Qed.

(** Adding the magnitude is adding the absolute value: the two differ only
    on the negative zero, which adds nothing to a sum that is not itself the
    negative zero. *)
Lemma add_magnitude (c a : F64.float64) :
  F64.nonneg c -> F64.add c (magnitude a) = F64.add c (F64.Abs a).
Proof.
  unfold magnitude, F64.add, F64.lt, F64.zero, F64.neg, F64.Abs, F64.nonneg.
  destruct a as [[|] | [|] | | [|] ma ea]; simpl; try done.
  by destruct c as [sc | sc | | sc mc ec]; simpl; try done; intros ->.
Qed.

Lemma fold_magnitude (l : list F64.float64) (c : F64.float64) :
  F64.nonneg c ->
  fold_left (fun c a => F64.add c (magnitude a)) l c
    = fold_left F64.add (map F64.Abs l) c.
Proof.
  revert c. induction l as [|a l IH]; intros c Hc; simpl; [done|].
  rewrite add_magnitude by done. apply IH. apply nonneg_add; [done | apply nonneg_Abs].
Qed.

Lemma recordTypeStep_fold (groups : list CostWire.Group) (u c : F64.float64) (cur : string) :
  exists cur',
    fold_left recordTypeStep groups (u, c, cur)
    = (fold_left F64.add (amountsOf "usage" groups) u,
       fold_left (fun c a => F64.add c (magnitude a)) (amountsOf "credit" groups) c,
       cur').
Proof.
  revert u c cur. induction groups as [|g groups IH]; intros u c cur; simpl.
  - by exists cur.
  - unfold amountsOf. cbn [omap list_omap]. fold (amountsOf "usage" groups).
    fold (amountsOf "credit" groups).
    destruct (CostWire.Keys g) as [|k0 ks]; [apply IH|].
    destruct (CostWire.Metrics g !! "UnblendedCost") as [metric|] eqn:Hmet; cbn.
    2:{ destruct (String.eqb _ "usage"), (String.eqb _ "credit"); cbn; apply IH. }
    destruct (ParseFloat (CostWire.Amount metric)) as [amount|] eqn:Hp; cbn.
    2:{ destruct (String.eqb _ "usage"), (String.eqb _ "credit"); cbn; apply IH. }
    destruct (String.eqb_spec (GoStrings.ToLower unicodeLower k0) "usage") as [Hu | Hu].
    + rewrite Hu. cbn. apply IH.
    + destruct (String.eqb_spec (GoStrings.ToLower unicodeLower k0) "credit"); cbn; apply IH.
Qed.

(** C6. When both cost queries succeed, the overview has: as total, the sum
    of the amounts of the groups whose record type lower-cases to ["usage"];
    as credits applied, the sum of the absolute values of the amounts of the
    ["credit"] groups; as net total, usage minus credits, replaced by zero
    when its absolute value is below 1e-7.  Sums are float64 sums in group
    order, from zero. *)
Theorem fetchFromAWS_totals (ceStart ceEnd displayStart displayEnd : string)
    (out1 out2 : bytes) (resp1 : CostWire.ceResponse) (r1 : CostWire.ResultByTime)
    (rest1 : list CostWire.ResultByTime) (resp2 : CostWire.recordTypeResponse)
    (r2 : CostWire.RecordTypeResult) (rest2 : list CostWire.RecordTypeResult) :
  RunJSON (costArgs ceStart ceEnd "Type=DIMENSION,Key=SERVICE") = (out1, None) ->
  unmarshalCost out1 = Decoded resp1 ->
  CostWire.ResultsByTime resp1 = r1 :: rest1 ->
  RunJSON (costArgs ceStart ceEnd "Type=DIMENSION,Key=RECORD_TYPE") = (out2, None) ->
  unmarshalRecordTypes out2 = Decoded resp2 ->
  CostWire.rt_ResultsByTime resp2 = r2 :: rest2 ->
  let usage := F64.sum (amountsOf "usage" (CostWire.rt_Groups r2)) in
  let credits := F64.sum (map F64.Abs (amountsOf "credit" (CostWire.rt_Groups r2))) in
  let net := F64.sub usage credits in
  exists cached,
    (fetchFromAWS ceStart ceEnd displayStart displayEnd).1 = (cached, None) /\
    Types.Total (Overview cached) = usage /\
    Types.CreditsApplied (Overview cached) = credits /\
    Types.NetTotal (Overview cached)
      = (if F64.lt (F64.Abs net) F64.tenMillionth then F64.zero else net).
Proof.
  intros H1 H2 H3 H4 H5 H6 usage credits net.
  unfold fetchFromAWS, fetchRecordTypeTotals. rewrite H1. cbn.
  rewrite H2, H3, H4. cbn. rewrite H5, H6.
  destruct (recordTypeStep_fold (CostWire.rt_Groups r2) F64.zero F64.zero "USD")
    as (cur' & Hfold).
  rewrite Hfold, fold_magnitude by done. cbn.
  eexists. split; [reflexivity|]. cbn. done.
Qed.

(** *** Beyond the totals: signs, drilldown keys, failures. *)

Lemma nonneg_fold_add (l : list F64.float64) (c : F64.float64) :
  F64.nonneg c -> Forall F64.nonneg l -> F64.nonneg (fold_left F64.add l c).
Proof.
  revert c. induction l as [|a l IH]; intros c Hc Hl; simpl; [done|].
  inversion Hl; subst. apply IH; [by apply nonneg_add | done].
Qed.

Lemma fetchRecordTypeTotals_credits (start end_ : string) :
  F64.nonneg (fetchRecordTypeTotals start end_).1.1.1.2.
Proof.
  unfold fetchRecordTypeTotals. cbn.
  destruct (RunJSON _) as [out [e|]]; cbn; [done|].
  destruct (unmarshalRecordTypes out) as [resp | e]; cbn; [|done].
  destruct (CostWire.rt_ResultsByTime resp) as [|r rest]; cbn; [done|].
  destruct (recordTypeStep_fold (CostWire.rt_Groups r) F64.zero F64.zero "USD")
    as (cur' & ->). cbn.
  rewrite fold_magnitude by done.
  apply nonneg_fold_add; [done|].
  apply Forall_forall. intros x Hx. apply list_elem_of_fmap in Hx as (a & -> & _).
  apply nonneg_Abs.
Qed.

(** X10. The credits of an overview never carry a minus sign: whatever the
    two queries return, also with credit amounts of either sign and when a
    query fails, [CreditsApplied] is a float with a clear sign bit (or a NaN,
    when an amount parsed to one). *)
Theorem fetchFromAWS_credits_nonneg (ceStart ceEnd displayStart displayEnd : string) :
  F64.nonneg
    (Types.CreditsApplied (Overview (fetchFromAWS ceStart ceEnd displayStart displayEnd).1.1)).
Proof.
  unfold fetchFromAWS.
  pose proof (fetchRecordTypeTotals_credits ceStart ceEnd) as Hc.
  destruct (fetchRecordTypeTotals ceStart ceEnd) as [[[[usage credits] cur] err2] log2].
  cbn in Hc |- *.
  destruct (RunJSON (costArgs ceStart ceEnd "Type=DIMENSION,Key=SERVICE")) as [out [e|]]; cbn.
  { by destruct (_ && _). }
  destruct (unmarshalCost out) as [resp | e]; cbn; [|done].
  destruct (CostWire.ResultsByTime resp) as [|r rest]; cbn; [done|].
  destruct err2 as [e2|]; cbn; [|done].
  destruct (CostWire.Total r !! "UnblendedCost") as [t|]; [|done].
  by destruct (ParseFloat (CostWire.Amount t)).
Qed.







Lemma fetchRecordTypeTotals_error (start end_ : string) (e : error) :
  (fetchRecordTypeTotals start end_).1.2 = Some e ->
  (fetchRecordTypeTotals start end_).1.1 = (F64.zero, F64.zero, "").
Proof.
  unfold fetchRecordTypeTotals. cbn.
  destruct (RunJSON _) as [out [e0|]]; cbn; [done|].
  destruct (unmarshalRecordTypes out) as [resp | e0]; cbn; [|done].
  destruct (CostWire.rt_ResultsByTime resp) as [|r rest]; cbn; [done|].
  by destruct (fold_left _ _ _) as [[? ?] ?].
Qed.

(** X12. A failure of the RECORD_TYPE query never fails the cost request.
    When the SERVICE query gave a result and the second query fails - the
    executor's error, an output that does not parse, or no result - the
    overview comes back without error, with no credits, and with the parsed
    overall [UnblendedCost] total and its unit as total and currency, or 0
    and ["USD"] when that total is missing or does not parse. *)
Theorem fetchFromAWS_record_type_fallback (ceStart ceEnd displayStart displayEnd : string)
    (out1 : bytes) (resp1 : CostWire.ceResponse) (r1 : CostWire.ResultByTime)
    (rest1 : list CostWire.ResultByTime) (e2 : error) :
  RunJSON (costArgs ceStart ceEnd "Type=DIMENSION,Key=SERVICE") = (out1, None) ->
  unmarshalCost out1 = Decoded resp1 ->
  CostWire.ResultsByTime resp1 = r1 :: rest1 ->
  (fetchRecordTypeTotals ceStart ceEnd).1.2 = Some e2 ->
  exists cached,
    (fetchFromAWS ceStart ceEnd displayStart displayEnd).1 = (cached, None) /\
    Types.CreditsApplied (Overview cached) = F64.zero /\
    (Types.Total (Overview cached), Types.Currency (Overview cached))
      = default (F64.zero, "USD")
          (t ← CostWire.Total r1 !! "UnblendedCost";
           v ← ParseFloat (CostWire.Amount t);
           Some (v, CostWire.Unit t)) /\
    Types.NetTotal (Overview cached) = netOf (Types.Total (Overview cached)) F64.zero /\
    Types.Start (Overview cached) = displayStart /\
    Types.End_ (Overview cached) = displayEnd.
Proof.
  intros H1 H2 H3 H4. unfold fetchFromAWS.
  pose proof (fetchRecordTypeTotals_error ceStart ceEnd e2 H4) as H0.
  destruct (fetchRecordTypeTotals ceStart ceEnd) as [[[[usage credits] cur] err2] log2].
  cbn in H4, H0. subst err2. injection H0 as -> -> ->.
  rewrite H1. cbn. rewrite H2, H3. cbn.
  destruct (CostWire.Total r1 !! "UnblendedCost") as [t|]; cbn.
  - destruct (ParseFloat (CostWire.Amount t)) as [v|]; cbn;
      (eexists; split; [reflexivity|]; done).
  - eexists; split; [reflexivity|]; done.
Qed.

(** X13. What a cost fetch costs and how it fails.  An error comes only
    from the SERVICE stage: the value is then the zero [CachedCost] and the
    one SERVICE call is the only call made; a fetch without error made
    exactly the SERVICE and the RECORD_TYPE call, in this order.  An
    executor error whose lower-cased message has both ["cost explorer"] and
    ["enable"] is replaced by [ErrCostExplorerDisabled]; any other one is
    returned as it is. *)
Theorem fetchFromAWS_calls_and_errors (ceStart ceEnd displayStart displayEnd : string) :
  let r := fetchFromAWS ceStart ceEnd displayStart displayEnd in
  let service := costArgs ceStart ceEnd "Type=DIMENSION,Key=SERVICE" in
  let recordType := costArgs ceStart ceEnd "Type=DIMENSION,Key=RECORD_TYPE" in
  (forall e, r.1.2 = Some e -> r.1.1 = emptyCachedCost /\ r.2 = [service]) /\
  (r.1.2 = None -> r.2 = [service; recordType]) /\
  (forall e, (RunJSON service).2 = Some e ->
     let lower := GoStrings.ToLower unicodeLower e in
     r.1.2 = Some (if GoStrings.Contains lower "cost explorer" && GoStrings.Contains lower "enable"
                   then ErrCostExplorerDisabled else e)).
Proof.
  intros r service recordType. subst r. unfold fetchFromAWS.
  assert (Hlog : (fetchRecordTypeTotals ceStart ceEnd).2 = [recordType]).
  { unfold fetchRecordTypeTotals. cbn.
    destruct (RunJSON _) as [out [e0|]]; cbn; [done|].
    destruct (unmarshalRecordTypes out) as [resp | e0]; cbn; [|done].
    destruct (CostWire.rt_ResultsByTime resp) as [|r rest]; cbn; [done|].
    by destruct (fold_left _ _ _) as [[? ?] ?]. }
  destruct (fetchRecordTypeTotals ceStart ceEnd) as [[[[usage credits] cur] err2] log2].
  cbn in Hlog. subst log2. fold service. clearbody service recordType. cbn.
  destruct (RunJSON service) as [out [e|]]; cbn.
  { split; [|split].
    - intros e0 _. by destruct (_ && _).
    - by destruct (_ && _).
    - intros e0 [= <-]. by destruct (_ && _). }
  destruct (unmarshalCost out) as [resp | e]; cbn; [|by repeat split].
  destruct (CostWire.ResultsByTime resp) as [|r rest]; cbn; [by repeat split|].
  destruct err2 as [e2|]; cbn.
  - destruct (CostWire.Total r !! "UnblendedCost") as [t|]; cbn.
    + destruct (ParseFloat (CostWire.Amount t)); cbn; by repeat split.
    + by repeat split.
  - by repeat split.
Qed.

(** *** The cached front of the cost service and the cost endpoint. *)

(** [time.Time] and the operations of the [time] package that
    [normalizeDateRange] uses, with the layout ["2006-01-02"]. *)
Variable Time : Type.
Variable Parse : string -> option Time.        (* time.Parse(layout, s) *)
Variable Format : Time -> string.              (* t.Format(layout) *)
Variable AddDays : Time -> Z -> Time.          (* t.AddDate(0, 0, n) *)
Variable Before : Time -> Time -> bool.        (* t.Before(u) *)
Variable monthStart : Time -> Time.  (* time.Date(t.Year(), t.Month(), 1, 0, 0, 0, 0, time.UTC) *)
Variable TrimSpace : string -> string.

(** [currentMonthRange]; [now] is [time.Now().UTC()]. *)
Definition currentMonthRange (now : Time) : string * string :=
  (Format (monthStart now), Format (AddDays now 1)).

(** [normalizeDateRange] *)
Definition normalizeDateRange (now : Time) (userStart userEnd : string)
  : string * string * string * string :=
  let s := TrimSpace userStart in
  let e := TrimSpace userEnd in
  let useCurrentMonth :=
    let '(cs, ce) := currentMonthRange now in
    let displayEnd :=
      match Parse ce with
      | Some t => Format (AddDays t (-1))
      | None => ce
      end in
    (cs, ce, cs, displayEnd) in
  if String.eqb s "" || String.eqb e "" then useCurrentMonth
  else
    match Parse s, Parse e with
    | Some startTime, Some endTime =>
        if Before endTime startTime then useCurrentMonth
        else (Format startTime, Format (AddDays endTime 1), Format startTime, Format endTime)
    | _, _ => useCurrentMonth
    end.

(** [fmt.Sprintf("cost-and-services:%s:%s:%s", activeKey, ceStart, ceEnd)] *)
Definition costCacheKey (profileManager : option Profiles.Manager) (ceStart ceEnd : string)
  : string :=
  "cost-and-services:" +:+ activeProfile profileManager +:+ ":" +:+ ceStart +:+ ":" +:+ ceEnd.

(** [getOrFetch]; [tget] and [tset] are the clock readings inside
    [cache.Get] and [cache.Set]. *)
Definition getOrFetch (profileManager : option Profiles.Manager)
    (c : Cache.Cache CachedCost) (now : Time) (tget tset : Z) (userStart userEnd : string)
  : fetched :=
  let '(ceStart, ceEnd, displayStart, displayEnd) := normalizeDateRange now userStart userEnd in
  let key := costCacheKey profileManager ceStart ceEnd in
  match Cache.Get emptyCachedCost c tget key with
  | (val, true) => {| cost_out := (val, None); cost_store := c; cost_calls := [] |}
  | (_, false) =>
      let '((got, err), log) := fetchFromAWS ceStart ceEnd displayStart displayEnd in
      match err with
      | Some e => {| cost_out := (emptyCachedCost, Some e); cost_store := c; cost_calls := log |}
      | None => {| cost_out := (got, None); cost_store := Cache.Set_ c tset key got;
                   cost_calls := log |}
      end
  end.

(** [GetCostOverview] *)
Definition GetCostOverview (profileManager : option Profiles.Manager)
    (c : Cache.Cache CachedCost) (now : Time) (tget tset : Z) (start end_ : string)
  : Types.CostOverview * option error :=
  let cached := getOrFetch profileManager c now tget tset start end_ in
  (Overview (cost_out cached).1, (cost_out cached).2).

(** [GetServiceCosts] *)
Definition GetServiceCosts (profileManager : option Profiles.Manager)
    (c : Cache.Cache CachedCost) (now : Time) (tget tset : Z) (start end_ : string)
  : list Types.ServiceCost * option error :=
  let cached := getOrFetch profileManager c now tget tset start end_ in
  (Services (cost_out cached).1, (cost_out cached).2).

(** The cost service returns the message of [ErrCostExplorerDisabled] only
    when it returns that error. *)
Lemma fetchFromAWS_disabled (ceStart ceEnd displayStart displayEnd : string) :
  (fetchFromAWS ceStart ceEnd displayStart displayEnd).1.2 = Some ErrCostExplorerDisabled <->
  exists e, (RunJSON (costArgs ceStart ceEnd "Type=DIMENSION,Key=SERVICE")).2 = Some e /\
    GoStrings.Contains (GoStrings.ToLower unicodeLower e) "cost explorer"
    && GoStrings.Contains (GoStrings.ToLower unicodeLower e) "enable" = true.
Proof.
  unfold fetchFromAWS.
  destruct (fetchRecordTypeTotals ceStart ceEnd) as [[[[usage credits] cur] err2] log2].
  cbn.
  destruct (RunJSON (costArgs ceStart ceEnd "Type=DIMENSION,Key=SERVICE")) as [out [e|]]; cbn.
  - destruct (_ && _) eqn:Hboth; cbn.
    + split; [by exists e | done].
    + split.
      * intros [= ->]. exfalso. vm_compute in Hboth. discriminate Hboth.
      * intros (e' & [= <-] & H'). by rewrite Hboth in H'.
  - assert (Hno : forall P : Prop, (exists e : error, None = Some e /\ P) -> False).
    { by intros P (? & ? & _). }
    destruct (unmarshalCost out) as [resp | e]; cbn.
    + destruct (CostWire.ResultsByTime resp) as [|r rest]; cbn.
      * split; [done | intros (? & ? & _); done].
      * split; [|intros (? & ? & _); done].
        destruct err2; cbn.
        -- destruct (CostWire.Total r !! "UnblendedCost") as [t|]; cbn; [|done].
           by destruct (ParseFloat (CostWire.Amount t)).
        -- done.
    + split; [|intros (? & ? & _); done].
      unfold wrapError. cbv [String.append]. done.
Qed.

Lemma fetchFromAWS_error_log (ceStart ceEnd displayStart displayEnd : string) (e : error) :
  (fetchFromAWS ceStart ceEnd displayStart displayEnd).1.2 = Some e ->
  (fetchFromAWS ceStart ceEnd displayStart displayEnd).2
    = [costArgs ceStart ceEnd "Type=DIMENSION,Key=SERVICE"].
Proof.
  unfold fetchFromAWS.
  destruct (fetchRecordTypeTotals ceStart ceEnd) as [[[[usage credits] cur] err2] log2].
  cbn.
  destruct (RunJSON (costArgs ceStart ceEnd "Type=DIMENSION,Key=SERVICE")) as [out [e0|]]; cbn.
  { by destruct (_ && _). }
  destruct (unmarshalCost out) as [resp | e0]; cbn; [|done].
  destruct (CostWire.ResultsByTime resp) as [|r rest]; cbn; [done|].
  destruct err2; cbn; [|done].
  destruct (CostWire.Total r !! "UnblendedCost") as [t|]; cbn; [|done].
  by destruct (ParseFloat (CostWire.Amount t)).
Qed.

(** X24. The status of the cost endpoint over the cached cost service.  A
    GET is answered 200 when the cache has the overview or the fetch
    succeeds, with the overview as body when its total, net total and
    credits are finite numbers and with an empty body when one of them is a
    NaN or an infinity; 503 ["Cost Explorer not enabled"] exactly when the
    SERVICE query was made and failed with a message that, lower-cased, has
    both ["cost explorer"] and ["enable"]; and 500 with the error's message
    as details for every other failure.  A failure leaves the cache as it
    was. *)
Theorem handleCost_status (profileManager : option Profiles.Manager)
    (c : Cache.Cache CachedCost) (now : Time) (tget tset : Z) (start end_ : string) :
  let r := getOrFetch profileManager c now tget tset start end_ in
  let resp := HttpCost.handleCost (GetCostOverview profileManager c now tget tset)
                "GET" start end_ in
  let disabled := exists args e,
    In args (cost_calls r) /\ (RunJSON args).2 = Some e /\
    GoStrings.Contains (GoStrings.ToLower unicodeLower e) "cost explorer"
    && GoStrings.Contains (GoStrings.ToLower unicodeLower e) "enable" = true in
  match (cost_out r).2 with
  | None =>
      let o := Overview (cost_out r).1 in
      HttpCost.status resp = 200 /\
      (HttpCost.finite (Types.Total o) = true ->
       HttpCost.finite (Types.NetTotal o) = true ->
       HttpCost.finite (Types.CreditsApplied o) = true ->
       HttpCost.body resp = HttpCost.CostBody o) /\
      (HttpCost.finite (Types.Total o) = false \/
       HttpCost.finite (Types.NetTotal o) = false \/
       HttpCost.finite (Types.CreditsApplied o) = false ->
       HttpCost.body resp = HttpCost.NoBody)
  | Some e =>
      cost_store r = c /\
      (disabled -> HttpCost.status resp = 503) /\
      (~ disabled ->
         resp = {| HttpCost.status := 500;
                   HttpCost.body := HttpCost.ErrorBody "Failed to fetch cost overview" e |})
  end.
Proof.
  intros r resp disabled. subst resp. unfold HttpCost.handleCost, GetCostOverview.
  fold r. cbn [String.eqb Ascii.eqb Bool.eqb negb].
  destruct (cost_out r) as [val [e|]] eqn:Hout; cbn [fst snd].
  2:{ cbv zeta. unfold HttpCost.writeOverview, HttpCost.encodes.
      cbn [HttpCost.status HttpCost.body]. split; [done|]. split.
      - by intros -> -> ->.
      - intros [-> | [-> | ->]]; cbn [andb]; [done | |].
        + by rewrite andb_false_r.
        + by rewrite andb_false_r. }
  subst r disabled. unfold getOrFetch in *.
  destruct (normalizeDateRange now start end_) as [[[ceStart ceEnd] displayStart] displayEnd].
  destruct (Cache.Get emptyCachedCost c tget _) as [val0 [|]]; [done|].
  pose proof (fetchFromAWS_disabled ceStart ceEnd displayStart displayEnd) as Hdis.
  pose proof (fetchFromAWS_error_log ceStart ceEnd displayStart displayEnd) as Hlog.
  destruct (fetchFromAWS ceStart ceEnd displayStart displayEnd) as [[got [e'|]] log];
    cbn in Hout, Hdis, Hlog |- *; [|done].
  injection Hout as <- <-. rewrite (Hlog e' eq_refl).
  split; [done|]. split.
  - intros (args & e0 & Hin & He0 & Hboth).
    destruct Hin as [<- | []].
    destruct (String.eqb_spec e' ErrCostExplorerDisabled) as [_ | Hne]; [done|].
    exfalso. apply Hne. enough (Some e' = Some ErrCostExplorerDisabled) by congruence.
    apply Hdis. by exists e0.
  - intros Hnot.
    destruct (String.eqb_spec e' ErrCostExplorerDisabled) as [-> | Hne]; [|done].
    exfalso. apply Hnot. destruct Hdis as [Hdis _].
    destruct (Hdis eq_refl) as (e0 & He0 & Hboth).
    eexists _, e0. split; [by left | done].
Qed.


End CostService.

(** ** The scenarios of the specification, on a stubbed executor. *)
Module Scenario.

(** The Unicode branches are never reached on the ASCII strings below. *)
Definition unicodeLower (s : string) : string := s.
Definition unicodeEqualFold (s t : string) : bool := false.

(** The executor: region ["C"] is refused with ["AuthFailure"], region
    ["F"] breaks with ["internal server error"], any other region answers
    with its own name as output. *)
Definition RunJSON (args : list string) : bytes * option error :=
  match args with
  | [_; _; _; rgn] =>
      if String.eqb rgn "C" then ([], Some "AuthFailure")
      else if String.eqb rgn "F" then ([], Some "internal server error")
      else (list_byte_of_string rgn, None)
  | _ => ([], None)
  end.

Definition instance (id : string) : Wire.Instance :=
  {| Wire.InstanceId := id; Wire.InstanceType := "t3.micro";
     Wire.PrivateIpAddress := ""; Wire.PublicIpAddress := "";
     Wire.State_Name := "running"; Wire.Placement_AvailabilityZone := "";
     Wire.Tags := [] |}.

(** Region ["A"] has two instances, region ["B"] three, the others none. *)
Definition unmarshalInstances (out : bytes) : decoded Wire.ec2DescribeInstancesOutput :=
  let rgn := string_of_list_byte out in
  if String.eqb rgn "A"
  then Decoded {| Wire.Reservations :=
                    [ {| Wire.Instances := [instance "i-a1"; instance "i-a2"] |} ] |}
  else if String.eqb rgn "B"
  then Decoded {| Wire.Reservations :=
                    [ {| Wire.Instances := [instance "i-b1"] |};
                      {| Wire.Instances := [instance "i-b2"; instance "i-b3"] |} ] |}
  else Decoded {| Wire.Reservations := [] |}.

(** [describe-regions] lists [names], all opted in. *)
Definition unmarshalRegions (names : list string) (out : bytes)
  : decoded Wire.describeRegionsOutput :=
  Decoded {| Wire.Regions :=
               map (fun n => {| Wire.RegionName := n;
                                Wire.OptInStatus := "opt-in-not-required" |}) names |}.

Definition single : string -> Exec outcome :=
  getEC2InstancesSingleRegion RunJSON unmarshalInstances.

Definition aggregate (names : list string) (sched : list thread) : Exec (option outcome) :=
  getEC2InstancesAllRegions unicodeLower unicodeEqualFold RunJSON unmarshalInstances
                            (unmarshalRegions names) sched.

(** Worker [i] runs from its start to its end. *)
Definition wholeWorker (i : nat) : list thread := replicate 6 (TWorker i).

(** The main goroutine starts everything, the workers run one after the
    other, the channel is closed, the main goroutine collects. *)
Definition inTurn : list thread :=
  [TMain; TMain; TMain; TMain] ++ wholeWorker 0 ++ wholeWorker 1 ++ wholeWorker 2
  ++ [TCloser; TMain; TMain; TMain; TMain].

(** Region ["F"] has sent its failure and region ["A"] is inside its call
    when the main goroutine receives. *)
Definition failFirst : list thread :=
  [TMain; TMain; TMain; TWorker 1; TWorker 1; TWorker 1; TWorker 1;
   TWorker 0; TWorker 0; TMain].

End Scenario.

(** Regions A, B, C; A and B succeed with 2 and 3 instances, C fails with
    "AuthFailure": run in turn, the aggregate has the five instances and
    the message names C. *)
Example scenario_ABC_in_turn :
  (Scenario.aggregate ["A"; "B"; "C"] Scenario.inTurn).1
  = Some (withEC2 (map (projectInstance "A") [Scenario.instance "i-a1"; Scenario.instance "i-a2"]
                   ++ map (projectInstance "B") [Scenario.instance "i-b1"; Scenario.instance "i-b2";
                                                 Scenario.instance "i-b3"])
                  "Skipped regions due to authentication errors: C", None).
Proof. vm_compute. reflexivity. Qed.

Lemma Scenario_onlySkippable :
  onlySkippable Scenario.unicodeLower Scenario.single ["A"; "B"; "C"].
Proof.
  intros rgn e Hin He.
  repeat (apply elem_of_cons in Hin as [-> | Hin]); try (by apply elem_of_nil in Hin);
    vm_compute in He; try discriminate He.
  injection He as <-. reflexivity.
Defined.

(** C1 on the scenario: under every schedule the aggregate of A, B, C has
    five instances, no error, and the message naming C. *)
Lemma getEC2InstancesAllRegions_skips_witness :
  (forall sched, exists more out,
     (Scenario.aggregate ["A"; "B"; "C"] (sched ++ more)).1 = Some out) /\
  (forall sched out, (Scenario.aggregate ["A"; "B"; "C"] sched).1 = Some out ->
     length (Types.EC2 out.1) = 5 /\
     Types.Message out.1 = "Skipped regions due to authentication errors: C" /\
     out.2 = None).
Proof.
  destruct (getEC2InstancesAllRegions_skips Scenario.unicodeLower Scenario.unicodeEqualFold
              Scenario.RunJSON Scenario.unmarshalInstances
              (Scenario.unmarshalRegions ["A"; "B"; "C"]) ["A"; "B"; "C"]
              [["ec2"; "describe-regions"; "--all-regions"]] eq_refl
              Scenario_onlySkippable) as [Hlive Hsafe].
  split; [exact Hlive|]. intros sched out H.
  destruct (Hsafe sched out H) as (order & Hperm & -> & HS & Hrec).
  apply Permutation_length in Hrec. cbn [fst snd Types.EC2 withEC2] in *.
  split; [rewrite Hrec; reflexivity|]. split; [|reflexivity].
  change (List.filter _ ["A"; "B"; "C"]) with ["C"] in HS.
  apply Permutation_sym, Permutation_length_1_inv in HS.
  cbn [Types.Message]. rewrite HS. reflexivity.
Defined.

(** C2 on the second scenario: regions A and F, F fails with "internal
    server error": under every schedule the call fails with that error and
    carries no record. *)
Lemma getEC2InstancesAllRegions_fatal_witness :
  (forall sched, exists more out,
     (Scenario.aggregate ["A"; "F"] (sched ++ more)).1 = Some out) /\
  (forall sched out, (Scenario.aggregate ["A"; "F"] sched).1 = Some out ->
     out = (Types.emptyServiceResources, Some "internal server error")).
Proof.
  destruct (getEC2InstancesAllRegions_fatal Scenario.unicodeLower Scenario.unicodeEqualFold
              Scenario.RunJSON Scenario.unmarshalInstances
              (Scenario.unmarshalRegions ["A"; "F"]) ["A"; "F"]
              [["ec2"; "describe-regions"; "--all-regions"]] eq_refl) as [Hlive Hsafe].
  { exists "F", "internal server error". split; [|split; reflexivity].
    apply elem_of_cons. right. apply elem_of_cons. by left. }
  split; [exact Hlive|]. intros sched out H.
  destruct (Hsafe sched out H) as (rgn & e & Hin & He & _ & ->).
  repeat (apply elem_of_cons in Hin as [-> | Hin]); try (by apply elem_of_nil in Hin);
    vm_compute in He; try discriminate He.
  by injection He as <-.
Defined.

(** C4 fails as stated: with regions A and F, the failure of F reaches the
    caller while the call for A is running, and the caller returns at once. *)
Lemma caller_returns_before_calls_complete :
  let s := ec2State Scenario.unicodeLower Scenario.RunJSON Scenario.unmarshalInstances
                    ["A"; "F"] Scenario.failFirst in
  returned s = Some (Types.emptyServiceResources, Some "internal server error") /\
  inFlight s = 1 /\
  workers s = [("A", WInFlight); ("F", WSent)].
Proof. vm_compute. repeat split. Qed.

(** C7 on the scenario: asked for region C alone, the method makes the one
    call for C and hands back its "AuthFailure", which the aggregation
    would have skipped. *)
Lemma getEC2Instances_single_region_witness :
  (getEC2Instances Scenario.unicodeLower Scenario.unicodeEqualFold Scenario.RunJSON
     Scenario.unmarshalInstances (Scenario.unmarshalRegions ["A"; "B"; "C"]) "C" []).2
    = [["ec2"; "describe-instances"; "--region"; "C"]] /\
  (getEC2Instances Scenario.unicodeLower Scenario.unicodeEqualFold Scenario.RunJSON
     Scenario.unmarshalInstances (Scenario.unmarshalRegions ["A"; "B"; "C"]) "C" []).1
    = Some (Types.emptyServiceResources, Some "AuthFailure") /\
  isAuthError Scenario.unicodeLower (Some "AuthFailure") = true.
Proof.
  destruct (getEC2Instances_single_region Scenario.unicodeLower Scenario.unicodeEqualFold
              Scenario.RunJSON Scenario.unmarshalInstances
              (Scenario.unmarshalRegions ["A"; "B"; "C"]) "C" []) as (Hcalls & _ & Herr).
  { vm_compute. discriminate. }
  split; [exact Hcalls|]. split; [|reflexivity]. apply Herr. reflexivity.
Defined.

(** C9 on an instance: the key's entry has expired, the wrapped service
    fails; the error comes back and the stale entry stays as it was. *)
Lemma cachedGetResources_error_witness :
  let stale := withEC2 [] "" in
  let c := Cache.Set_ (Cache.New 60000000000) 0 "system|ec2|all" stale in
  let r := cachedGetResources Scenario.unicodeLower
             (fun _ _ => (Types.emptyServiceResources, Some "boom")) None
             c 61000000000 61000000001 "EC2" "all" in
  out r = (Types.emptyServiceResources, Some "boom") /\
  store r = c /\
  innerCalls r = [("EC2", "all")] /\
  Cache.data (store r) !! "system|ec2|all"
    = Some {| Cache.value := stale; Cache.expiresAt := 60000000000 |}.
Proof.
  cbv zeta.
  destruct (cachedGetResources_error Scenario.unicodeLower
              (fun _ _ => (Types.emptyServiceResources, Some "boom")) None
              (Cache.Set_ (Cache.New 60000000000) 0 "system|ec2|all" (withEC2 [] ""))
              61000000000 61000000001 "EC2" "all" "boom" eq_refl eq_refl)
    as (Hout & Hstore & Hcalls).
  split; [exact Hout|]. split; [exact Hstore|]. split; [exact Hcalls|].
  rewrite Hstore. reflexivity.
Defined.

Module HttpScenario.

(** A resource service whose every call fails. *)
Definition failing (service region : string) : Types.ServiceResources * option error :=
  (Types.emptyServiceResources, Some "boom").

Definition getResources : HttpServer.Request :=
  {| HttpServer.Method := "GET"; HttpServer.Path := "/api/services/ec2/resources";
     HttpServer.QueryRegion := "all" |}.

Definition getSummary : HttpServer.Request :=
  {| HttpServer.Method := "GET"; HttpServer.Path := "/api/resources/summary";
     HttpServer.QueryRegion := "" |}.

(** A resource service with two instances and one bucket, failing for
    every other kind. *)
Definition partial (service region : string) : Types.ServiceResources * option error :=
  if String.eqb service "ec2"
  then (withEC2 (map (projectInstance "A") [Scenario.instance "i-a1"; Scenario.instance "i-a2"])
                "", None)
  else if String.eqb service "s3"
  then (withS3Buckets [ {| Types.s3_Name := "logs"; Types.s3_CreationDate := "";
                           Types.s3_Region := "" |} ] "", None)
  else (Types.emptyServiceResources, Some "boom").

Definition getVpcs : HttpServer.Request :=
  {| HttpServer.Method := "GET"; HttpServer.Path := "/api/services/vpc/resources";
     HttpServer.QueryRegion := "all" |}.

(** The buckets arrive first, the other kinds in the order of the table. *)
Definition bucketsFirst : list HttpServer.svcDef :=
  match HttpServer.servicesToCheck with
  | ec2 :: vpc :: eip :: s3 :: others => s3 :: ec2 :: vpc :: eip :: others
  | l => l
  end.

End HttpScenario.

(** C8 fails as stated: when every aggregation call fails, the summary
    still answers 200, with no summaries, and not 500. *)
Lemma summary_answers_200_on_failure :
  (HttpScenario.failing "ec2" "all").2 = Some "boom" /\
  HttpServer.handleResourcesSummary HttpScenario.failing HttpScenario.getSummary
    HttpServer.servicesToCheck
  = ({| HttpServer.status := 200; HttpServer.body := HttpServer.SummaryBody [] |},
     [("ec2", "all"); ("vpc", "all"); ("eip", "all"); ("s3", "all");
      ("rekognition", "all"); ("rds", "all")]).
Proof. split; reflexivity. Qed.

(** C8 as amended, on a service that has two instances and one bucket and
    fails for every other kind, the buckets arriving first: the resources
    handler answers 500 for the failing kind, the summary 200 with the two
    counts in arrival order, after one call per kind. *)
Lemma resource_handlers_status_witness :
  HttpServer.handleServiceResources HttpScenario.partial HttpScenario.getVpcs
  = {| HttpServer.status := 500;
       HttpServer.body := HttpServer.ErrorBody "Failed to fetch resources" "boom" |} /\
  HttpServer.handleResourcesSummary HttpScenario.partial HttpScenario.getVpcs
    HttpScenario.bucketsFirst
  = ({| HttpServer.status := 200;
        HttpServer.body :=
          HttpServer.SummaryBody
            [ {| Types.sum_Service := "s3"; Types.sum_DisplayName := "S3";
                 Types.sum_ResourceType := "s3Buckets"; Types.sum_Count := 1 |};
              {| Types.sum_Service := "ec2"; Types.sum_DisplayName := "EC2";
                 Types.sum_ResourceType := "ec2Instances"; Types.sum_Count := 2 |} ] |},
     [("s3", "all"); ("ec2", "all"); ("vpc", "all"); ("eip", "all");
      ("rekognition", "all"); ("rds", "all")]).
Proof.
  destruct (HttpServer.resource_handlers_status HttpScenario.partial
              HttpScenario.getVpcs "vpc" [] HttpScenario.bucketsFirst)
    as (_ & Herr & _ & _).
  - reflexivity.
  - vm_compute. discriminate.
  - reflexivity.
  - vm_compute. apply (Permutation_cons_app [_; _; _]). apply Permutation_refl.
  - split; [by apply (Herr Types.emptyServiceResources)|]. reflexivity.
Defined.

Module CostScenario.

Definition f120 : F64.float64 := S754_finite false 8444249301319680 (-46).
Definition fminus15 : F64.float64 := S754_finite true 8444249301319680 (-49).
Definition f15 : F64.float64 := S754_finite false 8444249301319680 (-49).
Definition f105 : F64.float64 := S754_finite false 7388718138654720 (-46).

(** The two amounts of the scenario, as [strconv.ParseFloat] reads them. *)
Definition ParseFloat (s : string) : option F64.float64 :=
  if String.eqb s "120.00" then Some f120
  else if String.eqb s "-15.00" then Some fminus15
  else None.

Definition RunJSON (args : list string) : bytes * option error := ([], None).

Definition group (recordType amount : string) : CostWire.Group :=
  {| CostWire.Keys := [recordType];
     CostWire.Metrics :=
       {[ "UnblendedCost" := {| CostWire.Amount := amount; CostWire.Unit := "USD" |} ]} |}.

Definition unmarshalCost (out : bytes) : decoded CostWire.ceResponse :=
  Decoded {| CostWire.ResultsByTime :=
               [ {| CostWire.Groups := []; CostWire.Total := ∅ |} ] |}.

Definition unmarshalRecordTypes (out : bytes) : decoded CostWire.recordTypeResponse :=
  Decoded {| CostWire.rt_ResultsByTime :=
               [ {| CostWire.rt_Groups := [group "Usage" "120.00"; group "Credit" "-15.00"] |} ] |}.

End CostScenario.

(** C6 on the scenario: usage 120.00 and credit -15.00 give the totals
    120.00, 15.00 and 105.00. *)
Lemma fetchFromAWS_totals_witness :
  exists cached,
    (fetchFromAWS Scenario.unicodeLower CostScenario.RunJSON CostScenario.unmarshalCost
       CostScenario.unmarshalRecordTypes CostScenario.ParseFloat
       "2025-01-01" "2025-02-01" "2025-01-01" "2025-01-31").1 = (cached, None) /\
    Types.Total (Overview cached) = CostScenario.f120 /\
    Types.CreditsApplied (Overview cached) = CostScenario.f15 /\
    Types.NetTotal (Overview cached) = CostScenario.f105.
Proof.
  destruct (fetchFromAWS_totals Scenario.unicodeLower CostScenario.RunJSON
              CostScenario.unmarshalCost CostScenario.unmarshalRecordTypes
              CostScenario.ParseFloat "2025-01-01" "2025-02-01" "2025-01-01" "2025-01-31"
              [] [] _ _ _ _ _ _ eq_refl eq_refl eq_refl eq_refl eq_refl eq_refl)
    as (cached & H & Ht & Hc & Hn).
  exists cached. rewrite Ht, Hc, Hn. split; [exact H|]. by vm_compute.
Defined.

(** A net total of float noise is shown as zero. *)
Example netOf_noise :
  netOf (S754_finite false 4503599627370497 (-52)) (S754_finite false 4503599627370496 (-52))
  = F64.zero.
Proof. vm_compute. reflexivity. Qed.

(** ** The further properties, on the scenarios. *)

(** X2 on regions A, B, C run in turn: after the enumeration, one
    [describe-instances] call per region. *)
Lemma ec2_one_call_per_region_witness :
  exists made,
    (Scenario.aggregate ["A"; "B"; "C"] Scenario.inTurn).2
      = ["ec2"; "describe-regions"; "--all-regions"] :: made /\
    Permutation made (map (regionArgs "ec2" "describe-instances") ["A"; "B"; "C"]).
Proof.
  destruct (ec2_one_call_per_region Scenario.unicodeLower Scenario.unicodeEqualFold
              Scenario.RunJSON Scenario.unmarshalInstances
              (Scenario.unmarshalRegions ["A"; "B"; "C"]) ["A"; "B"; "C"]
              [["ec2"; "describe-regions"; "--all-regions"]] Scenario.inTurn eq_refl)
    as (made & Hlog & _ & Hall).
  exists made. split; [exact Hlog|].
  eapply Hall; [vm_compute; reflexivity | reflexivity].
Defined.

(** X4 on the same run: each of the five instances carries A or B. *)
Lemma ec2_records_tagged_with_region_witness :
  exists out,
    (Scenario.aggregate ["A"; "B"; "C"] Scenario.inTurn).1 = Some out /\
    length (Types.EC2 out.1) = 5 /\
    Forall (fun inst => Types.ec2_Region inst ∈ ["A"; "B"; "C"]) (Types.EC2 out.1).
Proof.
  eexists. split; [vm_compute; reflexivity|]. split; [reflexivity|].
  apply Forall_forall. intros inst Hin.
  refine (proj1 (ec2_records_tagged_with_region Scenario.unicodeLower
                   Scenario.unicodeEqualFold Scenario.RunJSON Scenario.unmarshalInstances
                   (Scenario.unmarshalRegions ["A"; "B"; "C"]) ["A"; "B"; "C"]
                   [["ec2"; "describe-regions"; "--all-regions"]] Scenario.inTurn _
                   eq_refl _ inst Hin)).
  vm_compute. reflexivity.
Defined.

Module DispatchScenario.

Definition noVpcs (out : bytes) : decoded Wire.ec2DescribeVpcsOutput := DecodeError "unused".
Definition noAddresses (out : bytes) : decoded Wire.ec2DescribeAddressesOutput :=
  DecodeError "unused".
Definition noBuckets (out : bytes) : decoded Wire.s3ListBucketsOutput := DecodeError "unused".
Definition noCollections (out : bytes) : decoded Wire.rekognitionListCollectionsOutput :=
  DecodeError "unused".
Definition noDBInstances (out : bytes) : decoded Wire.rdsDescribeDBInstancesOutput :=
  DecodeError "unused".

Definition GetResources : string -> string -> list thread -> Exec (option outcome) :=
  GetResources Scenario.unicodeLower Scenario.unicodeEqualFold Scenario.RunJSON
    Scenario.unmarshalInstances noVpcs noAddresses noBuckets noCollections noDBInstances
    (Scenario.unmarshalRegions ["A"; "F"]) (fun s => s).

End DispatchScenario.

(** X5 on the dispatcher: asked for the instances of region F, whose call
    breaks, it returns the error and the zero value. *)
Lemma GetResources_error_carries_no_data_witness :
  exists out,
    (DispatchScenario.GetResources "EC2" "F" []).1 = Some out /\
    out.2 = Some "internal server error" /\
    out.1 = Types.emptyServiceResources.
Proof.
  eexists. split; [vm_compute; reflexivity|]. split; [reflexivity|].
  apply (GetResources_error_carries_no_data Scenario.unicodeLower Scenario.unicodeEqualFold
           Scenario.RunJSON Scenario.unmarshalInstances DispatchScenario.noVpcs
           DispatchScenario.noAddresses DispatchScenario.noBuckets
           DispatchScenario.noCollections DispatchScenario.noDBInstances
           (Scenario.unmarshalRegions ["A"; "F"]) (fun s => s) "EC2" "F" [] _
           "internal server error").
  - vm_compute. reflexivity.
  - reflexivity.
Defined.

(** X25 on the VPC aggregation over regions A and F: F breaks, so under
    every schedule the aggregation returns, and returns no records. *)
Lemma other_aggregations_skip_and_fail_witness :
  (forall sched, exists more out,
     (getVPCsAllRegions Scenario.unicodeLower Scenario.unicodeEqualFold Scenario.RunJSON
        DispatchScenario.noVpcs (Scenario.unmarshalRegions ["A"; "F"]) (sched ++ more)).1
     = Some out) /\
  (forall sched out,
     (getVPCsAllRegions Scenario.unicodeLower Scenario.unicodeEqualFold Scenario.RunJSON
        DispatchScenario.noVpcs (Scenario.unmarshalRegions ["A"; "F"]) sched).1 = Some out ->
     out.1 = Types.emptyServiceResources /\ out.2 <> None).
Proof.
  destruct (other_aggregations_skip_and_fail Scenario.unicodeLower Scenario.unicodeEqualFold
              Scenario.RunJSON DispatchScenario.noVpcs DispatchScenario.noAddresses
              DispatchScenario.noCollections DispatchScenario.noDBInstances
              (Scenario.unmarshalRegions ["A"; "F"]) ["A"; "F"]
              [["ec2"; "describe-regions"; "--all-regions"]] eq_refl)
    as ([Hlive Hsafe] & _).
  split; [exact Hlive|]. intros sched out H.
  destruct (Hsafe sched out H) as [_ Hfatal].
  destruct Hfatal as (rgn & e & _ & _ & _ & ->); [|done].
  exists "F", "internal server error". split; [|split; reflexivity].
  apply elem_of_cons. right. apply elem_of_cons. by left.
Defined.

Module WrapperScenario.

Definition answer : Types.ServiceResources := withEC2 [] "".
Definition succeeding (service region : string) : Types.ServiceResources * option error :=
  (answer, None).
Definition empty : Cache.Cache Types.ServiceResources := Cache.New 60000000000.
Definition custom : option Profiles.Manager :=
  Some {| Profiles.activeID := "1"; Profiles.systemAvailable := true |}.

End WrapperScenario.

(** X8 on an instance: ["EC2"]/["ALL"] fetched at 1 s is served to
    ["ec2"]/["all"] at 2 s from the cache, though the service now fails. *)
Lemma cachedGetResources_served_for_ttl_witness :
  let r := cachedGetResources Scenario.unicodeLower WrapperScenario.succeeding None
             WrapperScenario.empty 0 1000000000 "EC2" "ALL" in
  cachedGetResources Scenario.unicodeLower HttpScenario.failing None (store r)
    2000000000 2000000001 "ec2" "all"
  = {| out := (WrapperScenario.answer, None); store := store r; innerCalls := [] |}.
Proof.
  cbv zeta.
  destruct (cachedGetResources_served_for_ttl Scenario.unicodeLower
              WrapperScenario.succeeding HttpScenario.failing None WrapperScenario.empty
              0 1000000000 2000000000 2000000001 "EC2" "ALL" "ec2" "all"
              WrapperScenario.answer eq_refl eq_refl eq_refl eq_refl)
    as (_ & _ & Hhit & _).
  apply Hhit. vm_compute. discriminate.
Defined.

(** X9 on an instance: what was cached under the system profile is not
    served under profile 1. *)
Lemma cachedGetResources_profiles_isolated_witness :
  let r1 := cachedGetResources Scenario.unicodeLower WrapperScenario.succeeding None
              WrapperScenario.empty 0 1 "ec2" "all" in
  out (cachedGetResources Scenario.unicodeLower HttpScenario.failing WrapperScenario.custom
         (store r1) 2 3 "ec2" "all")
    = (Types.emptyServiceResources, Some "boom") /\
  innerCalls (cachedGetResources Scenario.unicodeLower HttpScenario.failing
                WrapperScenario.custom (store r1) 2 3 "ec2" "all")
    = [("ec2", "all")].
Proof.
  cbv zeta.
  destruct (cachedGetResources_profiles_isolated Scenario.unicodeLower
              WrapperScenario.succeeding HttpScenario.failing None WrapperScenario.custom
              WrapperScenario.empty 0 1 2 3 "ec2" "all" "ec2" "all") as [Hout Hcalls].
  - vm_compute. discriminate.
  - reflexivity.
  - reflexivity.
  - rewrite Hout, Hcalls. split; reflexivity.
Defined.


Module FallbackScenario.

(** The SERVICE query succeeds, the RECORD_TYPE query is throttled. *)
Definition RunJSON (args : list string) : bytes * option error :=
  if existsb (String.eqb "Type=DIMENSION,Key=RECORD_TYPE") args
  then ([], Some "aws cli error: Throttling")
  else ([], None).

Definition result : CostWire.ResultByTime :=
  {| CostWire.Groups := [];
     CostWire.Total :=
       {[ "UnblendedCost" := {| CostWire.Amount := "120.00"; CostWire.Unit := "EUR" |} ]} |}.

Definition response : CostWire.ceResponse := {| CostWire.ResultsByTime := [result] |}.

Definition unmarshalCost (out : bytes) : decoded CostWire.ceResponse := Decoded response.

End FallbackScenario.

(** X12 on the scenario: the overview is the overall total 120.00 EUR with
    no credits. *)
Lemma fetchFromAWS_record_type_fallback_witness :
  exists cached,
    (fetchFromAWS Scenario.unicodeLower FallbackScenario.RunJSON
       FallbackScenario.unmarshalCost CostScenario.unmarshalRecordTypes
       CostScenario.ParseFloat "2025-01-01" "2025-02-01" "2025-01-01" "2025-01-31").1
      = (cached, None) /\
    Types.CreditsApplied (Overview cached) = F64.zero /\
    (Types.Total (Overview cached), Types.Currency (Overview cached))
      = (CostScenario.f120, "EUR").
Proof.
  destruct (fetchFromAWS_record_type_fallback Scenario.unicodeLower FallbackScenario.RunJSON
              FallbackScenario.unmarshalCost CostScenario.unmarshalRecordTypes
              CostScenario.ParseFloat "2025-01-01" "2025-02-01" "2025-01-01" "2025-01-31"
              [] FallbackScenario.response FallbackScenario.result []
              "aws cli error: Throttling" eq_refl eq_refl eq_refl eq_refl)
    as (cached & Hfetch & Hcredits & Htotal & _).
  exists cached. split; [exact Hfetch|]. split; [exact Hcredits|].
  rewrite Htotal. reflexivity.
Defined.

(** X14 on a request: [GET /api/services/s3/resources?region=all]. *)
Lemma handleServiceResources_route_witness :
  HttpServer.handleServiceResources WrapperScenario.succeeding
    {| HttpServer.Method := "GET"; HttpServer.Path := "/api/services/s3/resources";
       HttpServer.QueryRegion := "all" |}
  = {| HttpServer.status := 200;
       HttpServer.body := HttpServer.ResourcesBody WrapperScenario.answer |}.
Proof.
  rewrite (HttpServer.handleServiceResources_route WrapperScenario.succeeding
             {| HttpServer.Method := "GET"; HttpServer.Path := "/api/services/s3/resources";
                HttpServer.QueryRegion := "all" |} "s3" eq_refl eq_refl).
  - reflexivity.
  - discriminate.
  - reflexivity.
Defined.

Module CommandScenario.

Definition listBuckets : Commands.Command :=
  {| Commands.ID := "list-buckets"; Commands.Label := "List buckets";
     Commands.Description := ""; Commands.Service := "s3";
     Commands.Args := ["s3api"; "list-buckets"]; Commands.SupportsRegion := false |}.

Definition unnamed : Commands.Command :=
  {| Commands.ID := ""; Commands.Label := ""; Commands.Description := "";
     Commands.Service := ""; Commands.Args := ["ec2"; "terminate-instances"];
     Commands.SupportsRegion := false |}.

Definition unmarshalCommands (data : bytes) : decoded (list Commands.Command) :=
  Decoded [listBuckets; unnamed].

Definition manager : Commands.Manager :=
  {| Commands.commands := fold_left Commands.keep [listBuckets; unnamed] ∅ |}.

End CommandScenario.

(** X15 on a configuration of two entries, one without identifier: the
    configured command runs with its arguments. *)
Lemma Execute_only_configured_witness :
  (Commands.Execute CostScenario.RunJSON (fun s => s) (fun s => s)
     CommandScenario.manager "list-buckets" "eu-west-1").2
  = [["s3api"; "list-buckets"]] /\
  ((Commands.commands CommandScenario.manager !! "list-buckets" = None /\
    (Commands.Execute CostScenario.RunJSON (fun s => s) (fun s => s)
       CommandScenario.manager "list-buckets" "eu-west-1").2 = []) \/
   exists c listed,
     (Commands.Data [] = Commands.NotExist \/
      exists data, Commands.Data [] = Commands.Data data /\
        CommandScenario.unmarshalCommands data = Decoded listed) /\
     c ∈ listed /\ Commands.ID c = "list-buckets" /\ "list-buckets" <> "" /\
     Commands.Args c <> [] /\
     ((Commands.Execute CostScenario.RunJSON (fun s => s) (fun s => s)
         CommandScenario.manager "list-buckets" "eu-west-1").2 = [Commands.Args c] \/
      (Commands.SupportsRegion c = true /\
       (Commands.Execute CostScenario.RunJSON (fun s => s) (fun s => s)
          CommandScenario.manager "list-buckets" "eu-west-1").2
       = [Commands.Args c ++ ["--region"; "eu-west-1"]]))).
Proof.
  split; [reflexivity|].
  apply (Commands.Execute_only_configured CostScenario.RunJSON
           CommandScenario.unmarshalCommands (fun s => s) (fun s => s)
           (Commands.Data []) CommandScenario.manager "list-buckets" "eu-west-1").
  reflexivity.
Defined.

(** X16 on a command line: [ec2 Terminate-Instances ...] is refused. *)
Lemma isSafeAWSArgs_blocks_witness :
  HttpCommands.isSafeAWSArgs Scenario.unicodeLower
    ["ec2"; "Terminate-Instances"; "--instance-ids"; "i-1"] = false.
Proof.
  apply (HttpCommands.isSafeAWSArgs_blocks Scenario.unicodeLower
           ["ec2"; "Terminate-Instances"; "--instance-ids"; "i-1"] 1
           "Terminate-Instances" "terminate-").
  - reflexivity.
  - lia.
  - reflexivity.
  - vm_compute. tauto.
  - reflexivity.
Defined.

Module ProfileScenario.

(** Every probe succeeds; blank is the empty string only. *)
Definition check (env : option (list string)) : bool := true.
Definition TrimSpace (s : string) : string := s.
Definition Quote (s : string) : string := s.

Definition dev : ProfileManager.Profile :=
  {| ProfileManager.ID := "1"; ProfileManager.Name := "dev";
     ProfileManager.AccessKeyID := "AKIAEXAMPLE"; ProfileManager.SecretAccessKey := "secret";
     ProfileManager.SessionToken := ""; ProfileManager.Region := "eu-west-1";
     ProfileManager.Source := "custom" |}.

(** A first start without a store file, then the profile [dev] is added. *)
Definition fresh : ProfileManager.Manager :=
  ProfileManager.after check TrimSpace Quote "" ProfileManager.NotExist [].

Definition addDev : ProfileManager.op :=
  ProfileManager.OpAdd "dev" "AKIAEXAMPLE" "secret" "" "eu-west-1" [dev].

Definition saved : ProfileManager.state :=
  {| ProfileManager.s_NextID := 2; ProfileManager.s_ActiveID := "1";
     ProfileManager.s_Profiles := [dev] |}.

End ProfileScenario.

(** X19 on the scenario: after adding [dev], the CLI runs under the
    environment that was probed. *)
Lemma AddAndActivateProfile_env_validated_witness :
  ProfileManager.ActiveEnv
    (ProfileManager.manager
       (ProfileManager.AddAndActivateProfile ProfileScenario.check ProfileScenario.TrimSpace
          ProfileScenario.fresh "dev" "AKIAEXAMPLE" "secret" "" "eu-west-1"
          [ProfileScenario.dev]).1)
  = ["AWS_ACCESS_KEY_ID=AKIAEXAMPLE"; "AWS_SECRET_ACCESS_KEY=secret";
     "AWS_DEFAULT_REGION=eu-west-1"; "AWS_EC2_METADATA_DISABLED=true"].
Proof.
  destruct (ProfileManager.AddAndActivateProfile_env_validated ProfileScenario.check
              ProfileScenario.TrimSpace ProfileScenario.fresh "dev" "AKIAEXAMPLE" "secret" ""
              "eu-west-1" [ProfileScenario.dev] eq_refl) as (Henv & _).
  rewrite Henv. reflexivity.
Defined.

(** X20 on the scenario: a restart from the file written by the addition
    has [dev] as profile 1, active, and 2 as the next identifier. *)
Lemma restart_restores_witness :
  let m2 := ProfileManager.NewManager ProfileScenario.check "/data/profiles.json"
              (ProfileManager.Data (Decoded ProfileScenario.saved)) in
  ProfileManager.profiles m2 !! "1" = Some ProfileScenario.dev /\
  ProfileManager.activeID m2 = "1" /\
  ProfileManager.nextID m2 = 2%Z.
Proof.
  cbv zeta.
  destruct (ProfileManager.restart_restores ProfileScenario.check ProfileScenario.TrimSpace
              ProfileScenario.Quote "" "/data/profiles.json" ProfileManager.NotExist []
              ProfileScenario.addDev ProfileScenario.saved) as (Hp & Ha & Hn).
  - reflexivity.
  - vm_compute. reflexivity.
  - reflexivity.
  - discriminate.
  - rewrite Hp, Ha, Hn. repeat split; reflexivity.
Defined.

(** X21 on the scenario: selecting ["system"] after the addition writes
    nothing, and the restart has profile 1 active. *)
Lemma system_selection_not_persisted_witness :
  let m := ProfileManager.manager
             (ProfileManager.step ProfileScenario.check ProfileScenario.TrimSpace
                ProfileScenario.Quote ProfileScenario.fresh ProfileScenario.addDev) in
  let r := ProfileManager.SetActiveProfile ProfileScenario.Quote m "system"
             [ProfileScenario.dev] in
  ProfileManager.ActiveID (ProfileManager.manager r) = "system" /\
  ProfileManager.written r = None /\
  ProfileManager.ActiveID
    (ProfileManager.NewManager ProfileScenario.check ""
       (ProfileManager.Data (Decoded ProfileScenario.saved))) = "1".
Proof.
  cbv zeta.
  destruct (ProfileManager.system_selection_not_persisted ProfileScenario.check
              ProfileScenario.TrimSpace ProfileScenario.Quote "" "" ProfileManager.NotExist []
              ProfileScenario.addDev ProfileScenario.saved [ProfileScenario.dev])
    as (_ & Hsys & Hw & Hre & _).
  - reflexivity.
  - vm_compute. reflexivity.
  - reflexivity.
  - discriminate.
  - reflexivity.
  - split; [exact Hsys|]. split; [exact Hw|]. rewrite Hre. reflexivity.
Defined.

(** X22 on the scenario: a second profile is filed under 2 and [dev] stays
    under 1. *)
Lemma AddAndActivateProfile_never_overwrites_witness :
  let m := ProfileManager.after ProfileScenario.check ProfileScenario.TrimSpace
             ProfileScenario.Quote "" ProfileManager.NotExist [ProfileScenario.addDev] in
  let r := ProfileManager.AddAndActivateProfile ProfileScenario.check
             ProfileScenario.TrimSpace m "prod" "AKIAOTHER" "secret2" "" "" [] in
  ProfileManager.ID r.2 = "2" /\
  ProfileManager.profiles m !! "2" = None /\
  ProfileManager.profiles (ProfileManager.manager r.1) !! "1" = Some ProfileScenario.dev.
Proof.
  cbv zeta.
  destruct (ProfileManager.AddAndActivateProfile_never_overwrites ProfileScenario.check
              ProfileScenario.TrimSpace ProfileScenario.Quote "" ProfileManager.NotExist
              [ProfileScenario.addDev] "prod" "AKIAOTHER" "secret2" "" "" [])
    as (Hnew & _ & Hkeep).
  - discriminate.
  - vm_compute. reflexivity.
  - reflexivity.
  - split; [reflexivity|]. split; [exact Hnew|]. apply Hkeep. vm_compute. reflexivity.
Defined.
